(** * mathGPT: sequence construction, splitting, collation and trimming

    A shallow embedding of [loading.py] (the sequence splitter, the sequence
    tokenizer, the pre-training, problem-solving and answer-scoring dataset
    builders, the collator and the batch trimmer) and of the windows of
    [evaluate_lm] in [evaluate.py], together with the properties the
    specification states about them and further properties of the code. *)

From stdpp Require Import base numbers option list strings gmap pretty.

Local Open Scope Z_scope.
Local Open Scope nat_scope.

(** ** Python built-ins used by the code *)

Module Py.

(** The index a slice bound [i] denotes in a list of length [n]: negative
    bounds count from the end, and every bound is clipped to [0, n]. *)
Definition slice_bound (n i : Z) : Z :=
  (if i <? 0 then Z.max (i + n) 0 else Z.min i n)%Z.

(** [l[start:stop]] *)
Definition slice {A : Type} (start stop : Z) (l : list A) : list A :=
  let n := Z.of_nat (length l) in
  let s := slice_bound n start in
  let e := slice_bound n stop in
  take (Z.to_nat (e - s)) (drop (Z.to_nat s) l).

(** [l[:stop] = [x, x, ...]] on a tensor: the slice is overwritten. *)
Definition fill_prefix {A : Type} (stop : Z) (x : A) (l : list A) : list A :=
  let e := Z.to_nat (slice_bound (Z.of_nat (length l)) stop) in
  replicate e x ++ drop e l.

(** [l[i]], [None] standing for [IndexError]. *)
Definition getitem {A : Type} (l : list A) (i : Z) : option A :=
  let n := Z.of_nat (length l) in
  if decide (0 ≤ i < n)%Z then l !! Z.to_nat i
  else if decide (- n ≤ i < 0)%Z then l !! Z.to_nat (n + i)
  else None.

(** The scan of [text.split(sep)] for a non-empty [sep]: [skip] characters
    of a separator just matched are still to be passed over, [cur] is the
    chunk being collected. *)
Fixpoint split_go (sep : string) (skip : nat) (cur : string) (s : string)
  {struct s} : list string :=
  match s with
  | EmptyString => [cur]
  | String c s' =>
      match skip with
      | S k => split_go sep k cur s'
      | 0 =>
          if String.prefix sep s
          then cur :: split_go sep (String.length sep - 1) EmptyString s'
          else split_go sep 0 (cur +:+ String c EmptyString) s'
      end
  end.

(** [text.split(sep)], [None] standing for the [ValueError] of an empty
    separator. *)
Definition split (text sep : string) : option (list string) :=
  match sep with
  | EmptyString => None
  | _ => Some (split_go sep 0 EmptyString text)
  end.

(** [str(i)] for a non-negative index. *)
Definition str (i : nat) : string := pretty i.

End Py.

(** ** constants.py: token types *)

(** Modelled from the spec: the [TokenType] enumeration of [constants.py],
    which is not among the sources.  The spec lists its members; tensors of
    token types are kept at the level of the members, each member standing for
    its integer value. *)
Inductive TokenType : Type :=
  | TEXT | START_FORMULA | END_FORMULA | OP | VAR | NUM | END.

#[global] Instance TokenType_eq_dec : EqDecision TokenType.
Proof. solve_decision. Defined.

(** ** data_types.py: sequences *)

(** Modelled from the spec: the [Sequence] class of [data_types.py], which is
    not among the sources: a name, the per-token channels kept as parallel
    lists, and a [meta] dictionary. *)
Record Sequence : Type := mkSequence {
  name : string;
  token_ids : list Z;
  token_types : list TokenType;
  pos_vecs : list (list Z);
  pos_levels : list Z;
  gpt_tokens : list (list Z);
  meta : gmap string Z;
}.

(** [Sequence(name)]: a fresh sequence with empty channels and empty meta. *)
Definition new_sequence (nm : string) : Sequence :=
  mkSequence nm [] [] [] [] [] ∅.

(** Modelled from the spec: [len(sequence)], the number of tokens. *)
Definition seq_len (s : Sequence) : nat := length (token_ids s).

(** Modelled from the spec: [sequence.split_at(n)], the two contiguous
    sub-sequences before and from token boundary [n]; both are fresh sequences
    carrying the name of the original. *)
Definition split_at (s : Sequence) (n : nat) : Sequence * Sequence :=
  (mkSequence (name s) (take n (token_ids s)) (take n (token_types s))
     (take n (pos_vecs s)) (take n (pos_levels s)) (take n (gpt_tokens s)) ∅,
   mkSequence (name s) (drop n (token_ids s)) (drop n (token_types s))
     (drop n (pos_vecs s)) (drop n (pos_levels s)) (drop n (gpt_tokens s)) ∅).

(** Modelled from the spec: [seq_1 + seq_2], the channel-wise append; the
    result is a fresh sequence named after the left operand. *)
Definition seq_add (s1 s2 : Sequence) : Sequence :=
  mkSequence (name s1) (token_ids s1 ++ token_ids s2)
    (token_types s1 ++ token_types s2) (pos_vecs s1 ++ pos_vecs s2)
    (pos_levels s1 ++ pos_levels s2) (gpt_tokens s1 ++ gpt_tokens s2) ∅.

Infix "+ₛ" := seq_add (at level 50, left associativity).

(** The invariant of the data model: all per-token channels have the length
    of the sequence; the sub-token channel is only filled when sub-token
    sharing is enabled. *)
Definition well_formed (s : Sequence) : Prop :=
  length (token_types s) = seq_len s
  ∧ length (pos_vecs s) = seq_len s
  ∧ length (pos_levels s) = seq_len s
  ∧ (gpt_tokens s = [] ∨ length (gpt_tokens s) = seq_len s).

(** ** loading.py: split_sequence *)

(** [next((i for i in idxs if token_types[i] == TokenType.TEXT), None)]:
    the outer [None] is the [IndexError] of a subscript out of range, the inner
    option is the value of [next]. *)
Fixpoint next_text (types : list TokenType) (idxs : list nat)
  : option (option nat) :=
  match idxs with
  | [] => Some None
  | i :: rest =>
      match types !! i with
      | None => None
      | Some t => if decide (t = TEXT) then Some (Some i)
                  else next_text types rest
      end
  end.

(** One activation of [split_sequence], the recursive call left open. *)
Inductive split_step_result : Type :=
  | Return (out : list Sequence)
  | Recurse (emit : list Sequence) (rest : Sequence)
  | IndexError.

Definition split_step (sequence : Sequence) (max_seq_len : nat)
  : split_step_result :=
  let seq_len := length (token_ids sequence) in
  if decide (seq_len ≤ max_seq_len) then Return [sequence]
  else
    match token_types sequence !! max_seq_len with
    | None => IndexError
    | Some t =>
        if decide (t = TEXT) then
          let '(pre_split, post_split) := split_at sequence max_seq_len in
          Recurse [pre_split] post_split
        else
          (* range(max_seq_len - 1, -1, -1) *)
          match next_text (token_types sequence) (reverse (seq 0 max_seq_len)) with
          | None => IndexError
          | Some (Some (S p)) =>
              (* a truthy index *)
              let '(pre_split, post_split) := split_at sequence (S p + 1) in
              Recurse [pre_split] post_split
          | Some _ =>
              (* [not pre_form_text_tok_id]: [None], and index 0 as well *)
              match next_text (token_types sequence)
                      (seq max_seq_len (seq_len - max_seq_len)) with
              | None => IndexError
              | Some (Some (S e)) =>
                  let '(_, post_split) := split_at sequence (S e) in
                  Recurse [] post_split
              | Some _ => Return []
              end
          end
    end.

(** The result of running [split_sequence]: a list, an exception, or no result
    within the given recursion depth. *)
Inductive outcome : Type :=
  | Done (out : list Sequence)
  | Raised
  | OutOfFuel.

Fixpoint split_sequence_fuel (fuel : nat) (sequence : Sequence)
    (max_seq_len : nat) : outcome :=
  match fuel with
  | 0 => OutOfFuel
  | S fuel' =>
      match split_step sequence max_seq_len with
      | Return out => Done out
      | IndexError => Raised
      | Recurse emit rest =>
          match split_sequence_fuel fuel' rest max_seq_len with
          | Done out => Done (emit ++ out)
          | o => o
          end
      end
  end.

(** A recursion depth that suffices whenever the recursion is well-founded on
    the length of the sequence. *)
Definition split_sequence (sequence : Sequence) (max_seq_len : nat) : outcome :=
  split_sequence_fuel (S (seq_len sequence)) sequence max_seq_len.

(** ** utils.py, data_types.py: options and raw samples *)

(** Modelled from the spec: the part of [TrainOptions] ([utils.py], not among
    the sources) that the modelled code reads. *)
Record TrainOptions : Type := mkTrainOptions {
  max_seq_len : Z;
  num_classes : Z;
  baseline : bool;
  post_proc : bool;
  shared_emb : bool;
  tpe : string;
}.

(** ** What the code imports from modules that are not among the sources

    The constants of [constants.py], the helpers of [utils.py],
    [math_tokenize.py] and [decode.py], and the [random] module.  [Opt] is the
    type of operator trees, [Float] the type of the entries of float tensors,
    and [Rng] the state of the global random generator, which the model threads
    explicitly. *)
Class Imports : Type := {
  (* constants.py *)
  PADDING_TOKEN_ID : Z;
  EOS_TOKEN : string;
  FORMULA_IDENTIFIER : string;
  TPE_NONE : string;                          (* TPE.NONE.value *)
  DownstreamTask : Type;
  (* utils.py *)
  is_cls_task : DownstreamTask → bool;
  text_tokenizer : string → list Z;           (* text_tokenizer()(s)["input_ids"] *)
  (* math_tokenize.py, decode.py *)
  Opt : Type;
  Float : Type;
  float_zero : Float;
  float_one : Float;
  EMPTY_POS_VECTOR : list Z;
  tokenize_formula : Opt → TrainOptions → Sequence;
  decode_formula : list Z → list TokenType → string;
  encode_pos : list Z → Z → string → list Float;
  get_empty_pos_encoding : string → list Float;
  (* random *)
  Rng : Type;
  random_sample : Rng → list Sequence → nat → list Sequence * Rng;
  random_shuffle : Rng → list Sequence → list Sequence * Rng;
}.

Section Loading.
Context {imports : Imports}.

(** Modelled from the spec: the raw-sample records of [data_types.py]. *)
Record Formula : Type := mkFormula { tex : string; opt : Opt }.

Record Article : Type := mkArticle {
  text : string;
  formulas : gmap string Formula;
}.

Record SolvingTaskSample : Type := mkSolvingTaskSample {
  problem : Article;
  steps : Article;
  answer : Article;
}.

(** *** tokenize_sequence *)

(** The five in-place extensions of the channels that the loop body performs
    for a run of text tokens. *)
Definition add_text_tokens (options : TrainOptions) (sequence : Sequence)
    (text_token_ids : list Z) : Sequence :=
  let n := length text_token_ids in
  mkSequence (name sequence)
    (token_ids sequence ++ text_token_ids)
    (token_types sequence ++ replicate n TEXT)
    (pos_vecs sequence ++ replicate n EMPTY_POS_VECTOR)
    (pos_levels sequence ++ replicate n 0%Z)
    (if shared_emb options then gpt_tokens sequence ++ replicate n []
     else gpt_tokens sequence)
    (meta sequence).

(** The five [append] calls for a formula start or end token. *)
Definition add_marker (options : TrainOptions) (sequence : Sequence)
    (marker : TokenType) : Sequence :=
  mkSequence (name sequence)
    (token_ids sequence ++ [0%Z])
    (token_types sequence ++ [marker])
    (pos_vecs sequence ++ [EMPTY_POS_VECTOR])
    (pos_levels sequence ++ [0%Z])
    (if shared_emb options then gpt_tokens sequence ++ [[]]
     else gpt_tokens sequence)
    (meta sequence).

(** The extensions by the output of [tokenize_formula]. *)
Definition add_formula (options : TrainOptions) (sequence : Sequence)
    (formula_sequence : Sequence) : Sequence :=
  mkSequence (name sequence)
    (token_ids sequence ++ token_ids formula_sequence)
    (token_types sequence ++ token_types formula_sequence)
    (pos_vecs sequence ++ pos_vecs formula_sequence)
    (pos_levels sequence ++ pos_levels formula_sequence)
    (if shared_emb options
     then gpt_tokens sequence ++ gpt_tokens formula_sequence
     else gpt_tokens sequence)
    (meta sequence).

(** The body of the loop over [enumerate(text_chunks)]; the state is the
    sequence under construction and [num_missing_formulas]. *)
Definition tokenize_chunk (formulas : gmap string Formula)
    (options : TrainOptions) (num_chunks : nat)
    (state : Sequence * nat) (text_chunk_idx : nat) (text_chunk : string)
  : Sequence * nat :=
  let '(sequence, num_missing_formulas) := state in
  let sequence := add_text_tokens options sequence (text_tokenizer text_chunk) in
  if decide (text_chunk_idx = num_chunks - 1) then
    (sequence, num_missing_formulas)
  else
    match formulas !! Py.str text_chunk_idx with
    | None => (sequence, num_missing_formulas + 1)
    | Some formula =>
        if baseline options then
          let formula_text :=
            if post_proc options then
              let formula_sequence := tokenize_formula (opt formula) options in
              decode_formula (token_ids formula_sequence)
                             (token_types formula_sequence)
            else tex formula in
          let formula_text := " <m> " +:+ formula_text +:+ " </m> " in
          (add_text_tokens options sequence (text_tokenizer formula_text),
           num_missing_formulas)
        else
          let sequence := add_marker options sequence START_FORMULA in
          let formula_sequence := tokenize_formula (opt formula) options in
          let sequence := add_formula options sequence formula_sequence in
          let sequence := add_marker options sequence END_FORMULA in
          (sequence, num_missing_formulas)
    end.

(** The loop itself, from chunk index [idx] on. *)
Fixpoint tokenize_loop (formulas : gmap string Formula)
    (options : TrainOptions) (num_chunks : nat) (idx : nat)
    (text_chunks : list string) (state : Sequence * nat) : Sequence * nat :=
  match text_chunks with
  | [] => state
  | text_chunk :: rest =>
      tokenize_loop formulas options num_chunks (S idx) rest
        (tokenize_chunk formulas options num_chunks state idx text_chunk)
  end.

Definition tokenize_sequence (name : string) (text : string)
    (formulas : gmap string Formula) (options : TrainOptions)
  : option (Sequence * nat) :=
  text_chunks ← Py.split text FORMULA_IDENTIFIER;
  Some (tokenize_loop formulas options (length text_chunks) 0 text_chunks
          (new_sequence name, 0)).

(** *** Dataset and ProblemSolvingDataset *)

(** The state of the [Dataset] base class. *)
Record Dataset : Type := mkDataset {
  data : list Sequence;
  num_missing_formulas : nat;
  trimmed_sequences : nat;
}.

(** [Dataset.__init__] *)
Definition Dataset_init : Dataset := mkDataset [] 0 0.

(** [sequence.meta = m] *)
Definition set_meta (sequence : Sequence) (m : gmap string Z) : Sequence :=
  mkSequence (name sequence) (token_ids sequence) (token_types sequence)
    (pos_vecs sequence) (pos_levels sequence) (gpt_tokens sequence) m.

(** The body of the loop over the samples of [ProblemSolvingDataset.__init__]. *)
Definition ProblemSolvingDataset_sample (options : TrainOptions)
    (self : Dataset) (sample : SolvingTaskSample) : option Dataset :=
  let problem_text :=
    "Question: " +:+ text (problem sample) +:+ " [SEP] Solution: " in
  '(problem_sequence, cur_missing_formulas) ←
    tokenize_sequence "" problem_text (formulas (problem sample)) options;
  let missing := num_missing_formulas self + cur_missing_formulas in
  let steps_text := text (steps sample) +:+ " [SEP] Final Answer: " in
  '(steps_sequence, cur_missing_formulas) ←
    tokenize_sequence "" steps_text (formulas (steps sample)) options;
  let missing := missing + cur_missing_formulas in
  let answer_text := text (answer sample) +:+ EOS_TOKEN in
  '(answer_sequence, cur_missing_formulas) ←
    tokenize_sequence "" answer_text (formulas (answer sample)) options;
  let missing := missing + cur_missing_formulas in
  let sequence := problem_sequence +ₛ steps_sequence +ₛ answer_sequence in
  let trimmed :=
    if decide (Z.of_nat (seq_len sequence) > max_seq_len options)%Z
    then trimmed_sequences self + 1 else trimmed_sequences self in
  let sequence :=
    set_meta sequence
      {[ "prompt_length" := Z.of_nat (seq_len problem_sequence) ]} in
  Some (mkDataset (data self ++ [sequence]) missing trimmed).

Fixpoint ProblemSolvingDataset_loop (options : TrainOptions)
    (samples : list SolvingTaskSample) (self : Dataset) : option Dataset :=
  match samples with
  | [] => Some self
  | sample :: rest =>
      self' ← ProblemSolvingDataset_sample options self sample;
      ProblemSolvingDataset_loop options rest self'
  end.

(** [ProblemSolvingDataset.__init__] *)
Definition ProblemSolvingDataset_init (samples : list SolvingTaskSample)
    (options : TrainOptions) : option Dataset :=
  ProblemSolvingDataset_loop options samples Dataset_init.

(** *** AnswerScoringDataset.__getitem__ *)

(** The attributes of an [AnswerScoringDataset] that [__getitem__] reads. *)
Record AnswerScoringDataset : Type := mkAnswerScoringDataset {
  as_data : list Sequence;
  as_options : TrainOptions;
  problems : gmap Z Sequence;
  example_bank : gmap Z (gmap Z (list Sequence));
  qs_prefix_seq : Sequence;
  scores_seq : Sequence;
  example_prefix_seq : Sequence;
  answer_prefix_seq : Sequence;
  cls_seq : Sequence;
  grade_to_score_seq : gmap Z Sequence;
}.

(** [[example for example in pool
      if example.meta["problem_log_id"] != sample.meta["problem_log_id"]]],
    [None] standing for [KeyError]. *)
Fixpoint other_answers (sample : Sequence) (pool : list Sequence)
  : option (list Sequence) :=
  match pool with
  | [] => Some []
  | example :: rest =>
      example_log_id ← meta example !! "problem_log_id";
      sample_log_id ← meta sample !! "problem_log_id";
      examples ← other_answers sample rest;
      Some (if decide (example_log_id ≠ sample_log_id)
            then example :: examples else examples)
  end.

(** The body of the loop over [range(num_classes)]; the state is
    [initial_examples], [additional_examples] and the random generator. *)
Definition gather_grade (self : AnswerScoringDataset) (sample : Sequence)
    (problem_id : Z) (state : list Sequence * list Sequence * Rng)
    (grade : nat) : option (list Sequence * list Sequence * Rng) :=
  let '(initial_examples, additional_examples, rng) := state in
  bank ← example_bank self !! problem_id;
  pool ← bank !! Z.of_nat grade;
  examples ← other_answers sample pool;
  match examples with
  | [] => Some state
  | _ :: _ =>
      let '(examples, rng) :=
        random_sample rng examples (length examples `min` 5) in
      first ← examples !! 0;
      Some (initial_examples ++ [first],
            additional_examples ++ drop 1 examples, rng)
  end.

Fixpoint gather_examples (self : AnswerScoringDataset) (sample : Sequence)
    (problem_id : Z) (grades : list nat)
    (state : list Sequence * list Sequence * Rng)
  : option (list Sequence * list Sequence * Rng) :=
  match grades with
  | [] => Some state
  | grade :: rest =>
      state' ← gather_grade self sample problem_id state grade;
      gather_examples self sample problem_id rest state'
  end.

(** The loop that adds examples until [max_seq_len] would be exceeded. *)
Fixpoint add_examples (self : AnswerScoringDataset)
    (examples : list Sequence) (base_len : Z)
    (example_sequences : list Sequence) : option (list Sequence) :=
  match examples with
  | [] => Some example_sequences
  | example :: rest =>
      label ← meta example !! "label";
      score_seq ← grade_to_score_seq self !! label;
      let example_seq := example_prefix_seq self +ₛ example +ₛ score_seq in
      if decide (base_len + Z.of_nat (seq_len example_seq)
                 > max_seq_len (as_options self))%Z
      then Some example_sequences
      else add_examples self rest
             (base_len + Z.of_nat (seq_len example_seq))%Z
             (example_sequences ++ [example_seq])
  end.

(** [AnswerScoringDataset.__getitem__]; the generator after the call is
    returned along with the sequence. *)
Definition AnswerScoringDataset_getitem (self : AnswerScoringDataset)
    (rng : Rng) (index : Z) : option (Sequence * Rng) :=
  sample ← Py.getitem (as_data self) index;
  problem_id ← meta sample !! "problem_id";
  problem_sequence ← problems self !! problem_id;
  '(initial_examples, additional_examples, rng) ←
    match example_bank self !! problem_id with
    | Some _ =>
        gather_examples self sample problem_id
          (seq 0 (Z.to_nat (num_classes (as_options self)))) ([], [], rng)
    | None => Some ([], [], rng)
    end;
  let '(initial_examples, rng) := random_shuffle rng initial_examples in
  let '(additional_examples, rng) := random_shuffle rng additional_examples in
  let base_len :=
    Z.of_nat (seq_len (qs_prefix_seq self) + seq_len problem_sequence
              + seq_len (scores_seq self) + seq_len (answer_prefix_seq self)
              + seq_len sample + seq_len (cls_seq self)) in
  example_sequences ←
    add_examples self (initial_examples ++ additional_examples) base_len [];
  let sequence := qs_prefix_seq self +ₛ problem_sequence +ₛ scores_seq self in
  let sequence := foldl seq_add sequence example_sequences in
  let sequence :=
    sequence +ₛ (answer_prefix_seq self +ₛ sample +ₛ cls_seq self) in
  label ← meta sample !! "label";
  Some (set_meta sequence {[ "label" := label ]}, rng).

(** *** CollatedBatch and trim_batch *)

(** Modelled from the spec: the [CollatedBatch] dictionary of
    [data_types.py].  A tensor is the list of its rows along the batch axis,
    each row a list along the sequence axis; a channel that may be [None] is
    an option. *)
Record CollatedBatch : Type := mkCollatedBatch {
  sources : list string;
  cb_token_ids : list (list Z);
  cb_token_types : list (list TokenType);
  cb_pos_vecs : list (list (list Z));
  cb_pos_levels : list (list Z);
  cb_pos_encodings : option (list (list (list Float)));
  cb_gpt_tokens : option (list (list (list Z)));
  cb_use_shared_emb : option (list (list bool));
  attention_mask : list (list Float);
  sequence_lengths : list Z;
  prompt_lengths : option (list Z);
  gen_labels : option (list (list Z));
  cls_labels : option (list Z);
}.

(** [tensor[:, trim_start : trim_end]] *)
Definition trim_tensor {A : Type} (trim_start trim_end : Z)
    (tensor : list (list A)) : list (list A) :=
  Py.slice trim_start trim_end <$> tensor.

Definition trim_batch (batch : CollatedBatch) (trim_start trim_end : Z)
  : CollatedBatch :=
  {| sources := sources batch;
     cb_token_ids := trim_tensor trim_start trim_end (cb_token_ids batch);
     cb_token_types := trim_tensor trim_start trim_end (cb_token_types batch);
     cb_pos_vecs := trim_tensor trim_start trim_end (cb_pos_vecs batch);
     cb_pos_levels := trim_tensor trim_start trim_end (cb_pos_levels batch);
     cb_pos_encodings :=
       trim_tensor trim_start trim_end <$> cb_pos_encodings batch;
     cb_gpt_tokens := trim_tensor trim_start trim_end <$> cb_gpt_tokens batch;
     cb_use_shared_emb :=
       trim_tensor trim_start trim_end <$> cb_use_shared_emb batch;
     attention_mask := trim_tensor trim_start trim_end (attention_mask batch);
     sequence_lengths :=
       (λ seq_len, (trim_end - trim_start) `min` ((seq_len - trim_start) `max` 0))%Z
         <$> sequence_lengths batch;
     prompt_lengths := prompt_lengths batch;
     gen_labels := trim_tensor trim_start trim_end <$> gen_labels batch;
     cls_labels := cls_labels batch |}.

(** *** Collator *)

Record Collator : Type := mkCollator {
  task : option DownstreamTask;
  options : TrainOptions;
}.

(** What [torch.nn.utils.rnn.pad_sequence(sequences, batch_first=True,
    padding_value)] computes for a non-empty list of sequences. *)
Definition pad_rows {A : Type} (padding_value : A) (sequences : list (list A))
  : list (list A) :=
  let max_len := max_list (length <$> sequences) in
  (λ s, s ++ replicate (max_len - length s) padding_value) <$> sequences.

(** [pad_sequence]; [None] is the error raised for an empty list. *)
Definition pad_sequence {A : Type} (padding_value : A)
    (sequences : list (list A)) : option (list (list A)) :=
  match sequences with
  | [] => None
  | _ => Some (pad_rows padding_value sequences)
  end.

(** [pad_sequence(batches, ...) if batches else None] *)
Definition pad_if_any {A : Type} (padding_value : A)
    (batches : list (list A)) : option (list (list A)) :=
  match batches with
  | [] => None
  | _ => Some (pad_rows padding_value batches)
  end.

(** The size of the trailing dimension of the first sequence, which
    [pad_sequence] gives to the padding rows of a tensor of vectors. *)
Definition trailing_dim {A : Type} (sequences : list (list (list A))) : nat :=
  match sequences with
  | (v :: _) :: _ => length v
  | _ => 0
  end.

(** [max(...)] over a generator of lengths; [None] is the [ValueError] on an
    empty one. *)
Definition py_max (lens : list nat) : option nat :=
  match lens with
  | [] => None
  | _ => Some (max_list lens)
  end.

(** What one iteration of the loop over the batch appends to each of the
    twelve lists; a list that is not appended to has [None]. *)
Record CollatedRow : Type := mkCollatedRow {
  row_token_ids : list Z;
  row_token_types : list TokenType;
  row_pos_vecs : list (list Z);
  row_pos_levels : list Z;
  row_pos_encodings : option (list (list Float));
  row_gpt_tokens : option (list (list Z));
  row_use_shared_emb : option (list bool);
  row_attention_mask : list Float;
  row_sequence_length : Z;
  row_prompt_length : option Z;
  row_gen_label : option (list Z);
  row_cls_label : option Z;
}.

Definition is_structural (token_type : TokenType) : bool :=
  bool_decide (token_type ∈ [TEXT; START_FORMULA; END_FORMULA]).

Definition collate_sequence (self : Collator) (max_gpt_token_len : nat)
    (sequence : Sequence) : option CollatedRow :=
  let token_ids := token_ids sequence in
  let pos_encodings :=
    if decide (tpe (options self) ≠ TPE_NONE) then
      Some (zip_with
              (λ token_type '(pos_vec, pos_level),
                 if is_structural token_type
                 then get_empty_pos_encoding (tpe (options self))
                 else encode_pos pos_vec pos_level (tpe (options self)))
              (token_types sequence)
              (zip (pos_vecs sequence) (pos_levels sequence)))
    else None in
  let gpt_tokens_padded :=
    if shared_emb (options self) then
      Some ((λ gpt_token_vec,
               gpt_token_vec
               ++ replicate (max_gpt_token_len - length gpt_token_vec)
                    PADDING_TOKEN_ID) <$> gpt_tokens sequence)
    else None in
  let use_shared_emb :=
    if shared_emb (options self) then
      Some ((λ gpt_token_vec : list Z,
               bool_decide (length gpt_token_vec ≠ 0)) <$> gpt_tokens sequence)
    else None in
  let row prompt_length gen_label cls_label :=
    mkCollatedRow token_ids (token_types sequence) (pos_vecs sequence)
      (pos_levels sequence) pos_encodings gpt_tokens_padded use_shared_emb
      (replicate (seq_len sequence) float_one) (Z.of_nat (seq_len sequence))
      prompt_length gen_label cls_label in
  match task self with
  | None => Some (row None None None)
  | Some task =>
      if is_cls_task task then
        label ← meta sequence !! "label";
        Some (row None None (Some label))
      else
        prompt_length ← meta sequence !! "prompt_length";
        let gen_label := Py.fill_prefix prompt_length PADDING_TOKEN_ID token_ids in
        Some (row (Some prompt_length) (Some gen_label) None)
  end.

(** [torch.tensor(values) if values else None] *)
Definition tensor_if_any {A : Type} (values : list A) : option (list A) :=
  match values with
  | [] => None
  | _ => Some values
  end.

(** [Collator.__call__]; [None] stands for the exceptions of an empty batch,
    of [max] over no sub-token list and of a missing metadata key.  The errors
    that torch raises on ragged position vectors, or on sequences whose
    position tensors differ in their trailing dimension, are not modelled:
    what is proved of a returned batch holds of the code, a returned batch
    does not show that the code returns. *)
Definition Collator_call (self : Collator) (batch : list Sequence)
  : option CollatedBatch :=
  max_gpt_token_len ←
    (if shared_emb (options self)
     then py_max (length <$> (batch ≫= gpt_tokens))
     else Some 0);
  rows ← mapM (collate_sequence self max_gpt_token_len) batch;
  token_ids ← pad_sequence PADDING_TOKEN_ID (row_token_ids <$> rows);
  token_types ← pad_sequence TEXT (row_token_types <$> rows);
  pos_vecs ←
    pad_sequence (replicate (trailing_dim (row_pos_vecs <$> rows)) 0%Z)
      (row_pos_vecs <$> rows);
  pos_levels ← pad_sequence 0%Z (row_pos_levels <$> rows);
  attention_mask ← pad_sequence float_zero (row_attention_mask <$> rows);
  let pos_encoding_batches := omap row_pos_encodings rows in
  let gpt_token_batches := omap row_gpt_tokens rows in
  Some
    {| sources := name <$> batch;
       cb_token_ids := token_ids;
       cb_token_types := token_types;
       cb_pos_vecs := pos_vecs;
       cb_pos_levels := pos_levels;
       cb_pos_encodings :=
         pad_if_any (replicate (trailing_dim pos_encoding_batches) float_zero)
           pos_encoding_batches;
       cb_gpt_tokens :=
         pad_if_any (replicate (trailing_dim gpt_token_batches) PADDING_TOKEN_ID)
           gpt_token_batches;
       cb_use_shared_emb := pad_if_any false (omap row_use_shared_emb rows);
       attention_mask := attention_mask;
       sequence_lengths := row_sequence_length <$> rows;
       prompt_lengths := tensor_if_any (omap row_prompt_length rows);
       gen_labels := pad_if_any PADDING_TOKEN_ID (omap row_gen_label rows);
       cls_labels := tensor_if_any (omap row_cls_label rows) |}.

End Loading.

(** ** loading.py: the pre-training datasets *)

(** The result of building a dataset: the dataset, an exception, or no result
    within the recursion depth of [split_sequence]. *)
Inductive build_outcome : Type :=
  | Built (self : Dataset)
  | BuildRaised
  | BuildOutOfFuel.

Section MoreLoading.
Context {imports : Imports}.

(** The statements that the loops of [PreTrainDataset.__init__] and of
    [PreTrainDatasetPreloaded.__init__] share: tokenize the article text, add
    to the count of missing formulas, and store the sequence, split when
    [max_seq_len] is truthy. *)
Definition PreTrain_article (options : TrainOptions) (max_seq_len : option nat)
    (self : Dataset) (article_name article_text : string)
    (formulas : gmap string Formula) : build_outcome :=
  match tokenize_sequence article_name article_text formulas options with
  | None => BuildRaised
  | Some (sequence, cur_missing_formulas) =>
      let missing := num_missing_formulas self + cur_missing_formulas in
      match max_seq_len with
      | Some (S limit) =>
          match split_sequence sequence (S limit) with
          | Done split_sequences =>
              Built (mkDataset (data self ++ split_sequences) missing
                       (trimmed_sequences self))
          | Raised => BuildRaised
          | OutOfFuel => BuildOutOfFuel
          end
      | _ =>
          (* [None], and 0 as well *)
          Built (mkDataset (data self ++ [sequence]) missing
                   (trimmed_sequences self))
      end
  end.

(** The loop of [PreTrainDatasetPreloaded.__init__]. *)
Fixpoint PreTrainDatasetPreloaded_loop (options : TrainOptions)
    (max_seq_len : option nat) (articles : list Article) (self : Dataset)
  : build_outcome :=
  match articles with
  | [] => Built self
  | article :: rest =>
      match PreTrain_article options max_seq_len self "" (text article)
              (formulas article) with
      | Built self' =>
          PreTrainDatasetPreloaded_loop options max_seq_len rest self'
      | o => o
      end
  end.

(** [PreTrainDatasetPreloaded.__init__] *)
Definition PreTrainDatasetPreloaded_init (articles : list Article)
    (options : TrainOptions) (max_seq_len : option nat) : build_outcome :=
  PreTrainDatasetPreloaded_loop options max_seq_len articles Dataset_init.

(** The loop of [PreTrainDataset.__init__]; [files] gives the article that
    [json.load] reads from a file name, a name without an article standing for
    a file that cannot be opened or parsed. *)
Fixpoint PreTrainDataset_loop (files : gmap string Article)
    (options : TrainOptions) (max_seq_len : option nat)
    (article_filenames : list string) (self : Dataset) : build_outcome :=
  match article_filenames with
  | [] => Built self
  | article_name :: rest =>
      match files !! article_name with
      | None => BuildRaised
      | Some article =>
          let article_text := text article +:+ EOS_TOKEN in
          match PreTrain_article options max_seq_len self article_name
                  article_text (formulas article) with
          | Built self' =>
              PreTrainDataset_loop files options max_seq_len rest self'
          | o => o
          end
      end
  end.

(** [PreTrainDataset.__init__] *)
Definition PreTrainDataset_init (files : gmap string Article)
    (article_filenames : list string) (options : TrainOptions)
    (max_seq_len : option nat) : build_outcome :=
  PreTrainDataset_loop files options max_seq_len article_filenames Dataset_init.

(** ** loading.py: the example bank of AnswerScoringDataset.__init__ *)

(** [{grade: [] for grade in range(num_classes)}] *)
Definition empty_grades (num_classes : Z) : gmap Z (list Sequence) :=
  list_to_map ((λ grade, (Z.of_nat grade, [])) <$> seq 0 (Z.to_nat num_classes)).

(** The body of the loop that groups the examples by problem and grade:
    [setdefault] on the problem, then [append] under the grade; [None] is a
    [KeyError]. *)
Definition add_to_bank (options : TrainOptions)
    (example_bank : gmap Z (gmap Z (list Sequence))) (example : Sequence)
  : option (gmap Z (gmap Z (list Sequence))) :=
  problem_id ← meta example !! "problem_id";
  let cur_problem_examples :=
    default (empty_grades (num_classes options)) (example_bank !! problem_id) in
  label ← meta example !! "label";
  graded ← cur_problem_examples !! label;
  Some (<[problem_id := <[label := graded ++ [example]]> cur_problem_examples]>
          example_bank).

Fixpoint group_examples (options : TrainOptions) (examples : list Sequence)
    (example_bank : gmap Z (gmap Z (list Sequence)))
  : option (gmap Z (gmap Z (list Sequence))) :=
  match examples with
  | [] => Some example_bank
  | example :: rest =>
      example_bank' ← add_to_bank options example_bank example;
      group_examples options rest example_bank'
  end.

(** The example bank that [AnswerScoringDataset.__init__] builds:
    [examples or self.data], grouped. *)
Definition AnswerScoringDataset_example_bank (options : TrainOptions)
    (examples : option (list Sequence)) (data : list Sequence)
  : option (gmap Z (gmap Z (list Sequence))) :=
  let examples :=
    match examples with
    | Some (example :: rest) => example :: rest
    | _ => data
    end in
  group_examples options examples ∅.

(** ** evaluate.py: the windows of evaluate_lm *)

(** [range(start, stop, step)]; [None] is the [ValueError] of a zero step. *)
Definition py_range (start stop step : Z) : option (list Z) :=
  if decide (step = 0)%Z then None
  else
    let count :=
      if decide (0 < step)%Z then ((stop - start + step - 1) `div` step)%Z
      else ((start - stop - step - 1) `div` (- step))%Z in
    Some ((λ k, start + step * Z.of_nat k)%Z <$> seq 0 (Z.to_nat count)).

(** [tensor.shape[1]] of a tensor with at least one row. *)
Definition tensor_width {A : Type} (tensor : list (list A)) : nat :=
  match tensor with
  | row :: _ => length row
  | [] => 0
  end.

(** What one pass of the loop over the split points gives to the model: the
    trimmed batch, the labels, and the number of targets that weighs the
    loss. *)
Record LmWindow : Type := mkLmWindow {
  sub_seq_batch : CollatedBatch;
  labels : list (list Z);
  target_len : Z;
}.

(** The body of the loop over the split points. *)
Definition evaluate_lm_window (options : TrainOptions) (stride : Z)
    (sequence_length : Z) (batch : CollatedBatch) (split_point : Z)
  : LmWindow :=
  let start_idx := ((split_point + stride - max_seq_len options) `max` 0)%Z in
  let end_idx := ((split_point + stride) `min` sequence_length)%Z in
  let target_len := (end_idx - split_point)%Z in
  let sub_seq_batch := trim_batch batch start_idx end_idx in
  let labels :=
    Py.fill_prefix (- target_len) PADDING_TOKEN_ID
      <$> cb_token_ids sub_seq_batch in
  mkLmWindow sub_seq_batch labels target_len.

(** [options.stride or options.max_seq_len] *)
Definition effective_stride (options : TrainOptions) (stride : option Z) : Z :=
  match stride with
  | Some s => if decide (s = 0)%Z then max_seq_len options else s
  | None => max_seq_len options
  end.

(** The windows that [evaluate_lm] computes for one batch of the loader;
    [stride] is [options.stride]. *)
Definition evaluate_lm_windows (options : TrainOptions) (stride : option Z)
    (batch : CollatedBatch) : option (list LmWindow) :=
  let stride := effective_stride options stride in
  let sequence_length := Z.of_nat (tensor_width (cb_token_ids batch)) in
  match py_range 0 sequence_length stride with
  | None => None
  | Some split_points =>
      Some (evaluate_lm_window options stride sequence_length batch
              <$> split_points)
  end.

End MoreLoading.

(** * Specification vocabulary *)

(** ** Splitting *)

(** The five per-token channels of a sequence. *)
Definition Channels : Type :=
  list Z * list TokenType * list (list Z) * list Z * list (list Z).

(** The channels of a sequence. *)
Definition channels (s : Sequence) : Channels :=
  (token_ids s, token_types s, pos_vecs s, pos_levels s, gpt_tokens s).

(** The channels of the [n] tokens of [s] from offset [o]. *)
Definition window (o n : nat) (s : Sequence) : Channels :=
  (take n (drop o (token_ids s)), take n (drop o (token_types s)),
   take n (drop o (pos_vecs s)), take n (drop o (pos_levels s)),
   take n (drop o (gpt_tokens s))).

(** The channels of [s] from offset [o] on. *)
Definition suffix (o : nat) (s : Sequence) : Channels :=
  (drop o (token_ids s), drop o (token_types s), drop o (pos_vecs s),
   drop o (pos_levels s), drop o (gpt_tokens s)).

(** A stretch of the input, either returned as the next sub-sequence or
    dropped. *)
Inductive segment : Type := Kept (n : nat) | Dropped (n : nat).

(** Boundary [b] of the input is its end or has a TEXT token on one side. *)
Definition text_boundary (s : Sequence) (b : nat) : Prop :=
  b = seq_len s
  ∨ token_types s !! b = Some TEXT
  ∨ ∃ b', b = S b' ∧ token_types s !! b' = Some TEXT.

(** A stretch of [n] tokens from offset [o] that may be dropped: it has more
    than [max_seq_len] tokens and no TEXT token after its first token. *)
Definition dropped_run (s : Sequence) (max_seq_len o n : nat) : Prop :=
  max_seq_len < n ∧ ∀ k, o < k < o + n → token_types s !! k ≠ Some TEXT.

(** [segs] tiles the input from offset [o] to its end, the kept stretches are
    the sub-sequences [out] in order, every stretch ends at a text boundary,
    and every dropped stretch is longer than [max_seq_len] and has no TEXT
    token after its first token. *)
Fixpoint segmentation (s : Sequence) (max_seq_len o : nat)
    (segs : list segment) (out : list Sequence) : Prop :=
  match segs with
  | [] => o = seq_len s ∧ out = []
  | Kept n :: segs' =>
      match out with
      | [] => False
      | piece :: out' =>
          channels piece = window o n s ∧ n ≤ max_seq_len
          ∧ text_boundary s (o + n)
          ∧ segmentation s max_seq_len (o + n) segs' out'
      end
  | Dropped n :: segs' =>
      dropped_run s max_seq_len o n ∧ text_boundary s (o + n)
      ∧ segmentation s max_seq_len (o + n) segs' out
  end.





(** ** Trimming *)

(** [x] bounded above by [hi], then below by [lo]. *)
Definition clamp (x lo hi : Z) : Z := (lo `max` (x `min` hi))%Z.

(** ** Collation *)

(** The value at a padded position of the [token_ids] and of the [token_types]
    of a collated batch is not the id, respectively the type, of any real token
    of the batch. *)
Definition padding_distinguishable `{Imports} (batch : list Sequence)
    (collated : CollatedBatch) : Prop :=
  ∀ i s j, batch !! i = Some s → seq_len s ≤ j →
    (∀ x, cb_token_ids collated !! i ≫= (.!! j) = Some x →
          ∀ s', s' ∈ batch → x ∉ token_ids s')
    ∧ (∀ ty, cb_token_types collated !! i ≫= (.!! j) = Some ty →
             ∀ s', s' ∈ batch → ty ∉ token_types s').

(** ** Tokenizing *)

(** The marker occurs in the text at offset [i]. *)
Definition occurs_at (sep text : string) (i : nat) : Prop :=
  ∃ pre post, text = pre +:+ sep +:+ post ∧ String.length pre = i.

(** [chunks] are the stretches of [text] around the occurrences of the marker,
    taken from left to right: every chunk but the last is followed by the
    first occurrence of the marker in the text that is left, and the marker
    does not occur in the last chunk. *)
Fixpoint placeholder_chunks (sep text : string) (chunks : list string)
  : Prop :=
  match chunks with
  | [] => False
  | chunk :: rest_chunks =>
      match rest_chunks with
      | [] => text = chunk ∧ ∀ i, ¬ occurs_at sep text i
      | _ :: _ =>
          ∃ rest,
            text = chunk +:+ sep +:+ rest
            ∧ (∀ i, occurs_at sep text i → String.length chunk ≤ i)
            ∧ placeholder_chunks sep rest rest_chunks
      end
  end.

Section TokenizingVocabulary.
Context {imports : Imports}.

(** What the placeholder with index [i] adds to the token types: nothing when
    its formula is missing, text tokens in baseline mode, and otherwise the
    formula tokens between a START_FORMULA and an END_FORMULA token. *)
Definition formula_types (formulas : gmap string Formula)
    (options : TrainOptions) (i : nat) : list TokenType :=
  match formulas !! Py.str i with
  | None => []
  | Some formula =>
      if baseline options then
        let formula_text :=
          if post_proc options then
            decode_formula
              (token_ids (tokenize_formula (opt formula) options))
              (token_types (tokenize_formula (opt formula) options))
          else tex formula in
        replicate
          (length (text_tokenizer (" <m> " +:+ formula_text +:+ " </m> ")))
          TEXT
      else
        [START_FORMULA]
        ++ token_types (tokenize_formula (opt formula) options)
        ++ [END_FORMULA]
  end.

(** The token types of the chunks numbered from [idx], each but the last
    followed by what its placeholder adds. *)
Fixpoint chunk_types (formulas : gmap string Formula)
    (options : TrainOptions) (idx : nat) (text_chunks : list string)
  : list TokenType :=
  match text_chunks with
  | [] => []
  | text_chunk :: rest =>
      replicate (length (text_tokenizer text_chunk)) TEXT
      ++ match rest with
         | [] => []
         | _ :: _ =>
             formula_types formulas options idx
             ++ chunk_types formulas options (S idx) rest
         end
  end.

(** The number of placeholders with index in [idx, idx + n) whose stringified
    index is absent from the formula map. *)
Definition missing_placeholders (formulas : gmap string Formula)
    (idx n : nat) : nat :=
  length (filter (λ i, formulas !! Py.str i = None) (seq idx n)).

End TokenizingVocabulary.

(** ** Problem solving *)

Section SolvingVocabulary.
Context {imports : Imports}.

(** [stored] is what the builder keeps for [sample]: the whole concatenation
    of the tokenized problem, steps and answer, with the length of the problem
    as prompt length. *)
Definition stored_solving_sample (options : TrainOptions)
    (sample : SolvingTaskSample) (stored : Sequence) : Prop :=
  ∃ problem_sequence m1 steps_sequence m2 answer_sequence m3,
    tokenize_sequence ""
      ("Question: " +:+ text (problem sample) +:+ " [SEP] Solution: ")
      (formulas (problem sample)) options = Some (problem_sequence, m1)
    ∧ tokenize_sequence "" (text (steps sample) +:+ " [SEP] Final Answer: ")
        (formulas (steps sample)) options = Some (steps_sequence, m2)
    ∧ tokenize_sequence "" (text (answer sample) +:+ EOS_TOKEN)
        (formulas (answer sample)) options = Some (answer_sequence, m3)
    ∧ channels stored
      = channels (problem_sequence +ₛ steps_sequence +ₛ answer_sequence)
    ∧ seq_len stored
      = seq_len problem_sequence + seq_len steps_sequence
        + seq_len answer_sequence
    ∧ meta stored
      = {[ "prompt_length" := Z.of_nat (seq_len problem_sequence) ]}.

(** The stored sequence is longer than [max_seq_len]. *)
Definition overflows (options : TrainOptions) (stored : Sequence) : Prop :=
  (max_seq_len options < Z.of_nat (seq_len stored))%Z.

#[global] Instance overflows_dec options stored :
  Decision (overflows options stored).
Proof. unfold overflows. apply _. Defined.

End SolvingVocabulary.

(** ** Answer scoring *)

Section ScoringVocabulary.
Context {imports : Imports}.

(** [example_seq] is the worked example made of [example]: the example
    prefix, the answer, and the score of its grade. *)
Definition worked_example (self : AnswerScoringDataset)
    (example example_seq : Sequence) : Prop :=
  ∃ label score_seq,
    meta example !! "label" = Some label
    ∧ grade_to_score_seq self !! label = Some score_seq
    ∧ example_seq = example_prefix_seq self +ₛ example +ₛ score_seq.

(** [example] answers another problem log than [sample]. *)
Definition other_log (sample example : Sequence) : Prop :=
  ∃ example_log_id sample_log_id,
    meta example !! "problem_log_id" = Some example_log_id
    ∧ meta sample !! "problem_log_id" = Some sample_log_id
    ∧ example_log_id ≠ sample_log_id.

(** [example] is in the example bank of the problem. *)
Definition in_example_bank (self : AnswerScoringDataset) (problem_id : Z)
    (example : Sequence) : Prop :=
  ∃ bank grade pool,
    example_bank self !! problem_id = Some bank
    ∧ bank !! grade = Some pool
    ∧ example ∈ pool.

End ScoringVocabulary.

(** ** Further vocabulary *)

(** The concatenation of the channels of a list of sequences. *)
Definition join_channels (out : list Sequence) : Channels :=
  (mjoin (token_ids <$> out), mjoin (token_types <$> out),
   mjoin (pos_vecs <$> out), mjoin (pos_levels <$> out),
   mjoin (gpt_tokens <$> out)).

(** [torch.cat([t1, t2], dim=1)]: the rows of [t2] appended to those of [t1]. *)
Definition cat_rows {A : Type} (t1 t2 : list (list A)) : list (list A) :=
  zip_with app t1 t2.

(** The example is an answer to the problem with the grade. *)
Definition graded_as (problem_id grade : Z) (example : Sequence) : Prop :=
  meta example !! "problem_id" = Some problem_id
  ∧ meta example !! "label" = Some grade.

#[global] Instance graded_as_dec problem_id grade example :
  Decision (graded_as problem_id grade example) :=
  (_ : Decision (meta example !! "problem_id" = Some problem_id
                 ∧ meta example !! "label" = Some grade)).

(** The example has a problem and a grade among the classes. *)
Definition gradable (num_classes : Z) (example : Sequence) : Prop :=
  is_Some (meta example !! "problem_id")
  ∧ ∃ label, meta example !! "label" = Some label ∧ (0 ≤ label < num_classes)%Z.

(** The bank holds the examples grouped by problem and grade, in their order,
    with every grade of the classes under each problem of an example. *)
Definition groups (num_classes : Z) (examples : list Sequence)
    (example_bank : gmap Z (gmap Z (list Sequence))) : Prop :=
  ∀ problem_id,
    match example_bank !! problem_id with
    | None =>
        Forall (λ example, meta example !! "problem_id" ≠ Some problem_id)
          examples
    | Some grades =>
        (∃ example,
           example ∈ examples
           ∧ meta example !! "problem_id" = Some problem_id)
        ∧ ∀ grade,
            grades !! grade
            = if decide (0 ≤ grade < num_classes)%Z
              then Some (filter (graded_as problem_id grade) examples)
              else None
    end.

(** [pool] is [examples or self.data]: the examples when there are any, the
    data otherwise. *)
Definition examples_or_data (examples : option (list Sequence))
    (data pool : list Sequence) : Prop :=
  (examples = Some pool ∧ pool ≠ [])
  ∨ ((examples = None ∨ examples = Some []) ∧ pool = data).

Section MoreVocabulary.
Context {imports : Imports}.

(** The channels of a formula sequence run in lock-step, the sub-token
    channel too when sub-token sharing is enabled. *)
Definition formula_lock_step (options : TrainOptions) (fs : Sequence) : Prop :=
  length (token_types fs) = seq_len fs
  ∧ length (pos_vecs fs) = seq_len fs
  ∧ length (pos_levels fs) = seq_len fs
  ∧ (shared_emb options = true → length (gpt_tokens fs) = seq_len fs).

(** Every text, formula-start and formula-end token of the sequence has the
    empty position vector and level 0. *)
Definition structural_positions_empty (s : Sequence) : Prop :=
  Forall (λ '(token_type, (pos_vec, pos_level)),
            is_structural token_type = true →
            pos_vec = EMPTY_POS_VECTOR ∧ pos_level = 0%Z)
    (zip (token_types s) (zip (pos_vecs s) (pos_levels s))).

(** The number of tokens of type [token_type]. *)
Definition count_type (token_type : TokenType) (types : list TokenType) : nat :=
  length (filter (λ t, t = token_type) types).

(** The invariant of the loop of [tokenize_sequence]: name and metadata are
    those of the empty sequence, and the channels run in lock-step. *)
Definition tokenized (options : TrainOptions) (nm : string) (s : Sequence)
  : Prop :=
  name s = nm ∧ meta s = ∅
  ∧ length (token_types s) = seq_len s
  ∧ length (pos_vecs s) = seq_len s
  ∧ length (pos_levels s) = seq_len s
  ∧ length (gpt_tokens s) = (if shared_emb options then seq_len s else 0).

(** The position channels run in lock-step with the types, and the
    structural tokens have empty positions. *)
Definition positioned (s : Sequence) : Prop :=
  length (token_types s) = length (pos_vecs s)
  ∧ length (pos_vecs s) = length (pos_levels s)
  ∧ structural_positions_empty s.

(** The [meta] key that the collator reads under a task. *)
Definition task_key (t : DownstreamTask) : string :=
  if is_cls_task t then "label" else "prompt_length".

(** The batch is not empty, has a sub-token list when sub-token sharing is
    enabled, and every sequence has the metadata key of the task. *)
Definition collatable (self : Collator) (batch : list Sequence) : Prop :=
  batch ≠ []
  ∧ (shared_emb (options self) = true → batch ≫= gpt_tokens ≠ [])
  ∧ ∀ t, task self = Some t →
      Forall (λ s, is_Some (meta s !! task_key t)) batch.

(** The formula tokenizer gives lock-step channels for every formula of the
    article. *)
Definition formulas_lock_step (options : TrainOptions) (article : Article)
  : Prop :=
  ∀ key formula, formulas article !! key = Some formula →
    formula_lock_step options (tokenize_formula (opt formula) options).

End MoreVocabulary.

(** * Concrete inputs *)


(** A small instance of the imports: one text token per character, operator
    trees given as the list of their symbols, integers for floats, and a
    random generator that samples the first elements and shuffles by
    reversing. *)
Definition toy_imports : Imports := {|
  PADDING_TOKEN_ID := (-100)%Z;
  EOS_TOKEN := "<eos>";
  FORMULA_IDENTIFIER := "[F]";
  TPE_NONE := "none";
  DownstreamTask := bool;
  is_cls_task := λ task, task;
  text_tokenizer := λ s, (λ c, Z.of_nat (Ascii.nat_of_ascii c)) <$> String.list_ascii_of_string s;
  Opt := list Z;
  Float := Z;
  float_zero := 0%Z;
  float_one := 1%Z;
  EMPTY_POS_VECTOR := [0; 0]%Z;
  tokenize_formula := λ symbols _,
    mkSequence "" symbols (replicate (length symbols) VAR)
      (replicate (length symbols) [1; 0]%Z) (replicate (length symbols) 1%Z)
      (replicate (length symbols) []) ∅;
  decode_formula := λ _ _, "x";
  encode_pos := λ pos_vec _ _, pos_vec;
  get_empty_pos_encoding := λ _, [0; 0]%Z;
  Rng := unit;
  random_sample := λ rng population k, (take k population, rng);
  random_shuffle := λ rng l, (reverse l, rng);
|}.

(** A sequence of text tokens with the given ids and meta. *)
Definition text_sequence (ids : list Z) (m : gmap string Z) : Sequence :=
  mkSequence "s" ids (replicate (length ids) TEXT)
    (replicate (length ids) [0; 0]%Z) (replicate (length ids) 0%Z) [] m.

(** A text token, a formula of three tokens, two text tokens. *)
Definition text_and_formula : Sequence :=
  mkSequence "" [5; 0; 7; 0; 5; 6]%Z
    [TEXT; START_FORMULA; OP; END_FORMULA; TEXT; TEXT]
    (replicate 6 []) (replicate 6 0%Z) [] ∅.

(** Two text tokens, a formula of three tokens, two text tokens. *)
Definition text_formula_text : Sequence :=
  mkSequence "" [5; 6; 0; 7; 0; 5; 6]%Z
    [TEXT; TEXT; START_FORMULA; OP; END_FORMULA; TEXT; TEXT]
    (replicate 7 []) (replicate 7 0%Z) [] ∅.

(** A collated batch of one row of five text tokens. *)
Definition one_row_batch : @CollatedBatch toy_imports :=
  @mkCollatedBatch toy_imports
    ["s"] [[1; 2; 3; 4; 5]%Z] [[TEXT; TEXT; TEXT; TEXT; TEXT]]
    [[[]; []; []; []; []]] [[0; 0; 0; 0; 0]%Z] None None None
    [[1; 1; 1; 1; 1]%Z] [5%Z] None None None.

(** Options without sub-token sharing and without position encodings. *)
Definition plain_options : TrainOptions :=
  mkTrainOptions 8 5 false false false "none".

(** A collator without a task, and one for a generative task. *)
Definition plain_collator : @Collator toy_imports :=
  @mkCollator toy_imports None plain_options.

Definition gen_collator : @Collator toy_imports :=
  @mkCollator toy_imports (Some false) plain_options.

(** A batch of a sequence of two tokens and a sequence of one. *)
Definition two_texts : list Sequence :=
  [text_sequence [1; 2]%Z ∅; text_sequence [3]%Z ∅].

(** A batch for a generative task: a prompt of two tokens out of three, and a
    sequence that is all prompt. *)
Definition two_prompts : list Sequence :=
  [text_sequence [1; 2; 3]%Z {[ "prompt_length" := 2%Z ]};
   text_sequence [4]%Z {[ "prompt_length" := 1%Z ]}].

(** A solving sample whose concatenation is longer than the 8 tokens of
    [plain_options]. *)
Definition long_solving_sample : @SolvingTaskSample toy_imports :=
  @mkSolvingTaskSample toy_imports
    (@mkArticle toy_imports "ab" ∅) (@mkArticle toy_imports "c" ∅)
    (@mkArticle toy_imports "d" ∅).

(** An answer of one token to problem 7. *)
Definition scored_answer (id log_id grade : Z) : Sequence :=
  text_sequence [id]
    {[ "problem_id" := 7%Z; "problem_log_id" := log_id; "label" := grade ]}.

(** An answer-scoring dataset of three answers to one problem: two of grade 0
    and one of grade 1, each in the example bank. *)
Definition scoring_dataset : AnswerScoringDataset :=
  mkAnswerScoringDataset
    [scored_answer 50 100 0; scored_answer 51 101 1; scored_answer 52 102 0]
    (mkTrainOptions 100 5 false false false "none")
    {[ 7%Z := text_sequence [10; 11]%Z ∅ ]}
    {[ 7%Z := {[ 0%Z := [scored_answer 50 100 0; scored_answer 52 102 0];
                 1%Z := [scored_answer 51 101 1];
                 2%Z := []; 3%Z := []; 4%Z := [] ]} ]}
    (text_sequence [1]%Z ∅) (text_sequence [2]%Z ∅) (text_sequence [3]%Z ∅)
    (text_sequence [4]%Z ∅) (text_sequence [5]%Z ∅)
    {[ 0%Z := text_sequence [20]%Z ∅; 1%Z := text_sequence [21]%Z ∅;
       2%Z := text_sequence [22]%Z ∅; 3%Z := text_sequence [23]%Z ∅;
       4%Z := text_sequence [24]%Z ∅ ]}.

(** The options of [plain_options] with the [baseline] option set. *)
Definition baseline_options : TrainOptions :=
  mkTrainOptions 8 5 true false false "none".

(** A text with one placeholder, and a formula of two symbols for it. *)
Definition one_formula : gmap string (@Formula toy_imports) :=
  {[ "0" := @mkFormula toy_imports "x^2" [3; 4]%Z ]}.

(** Options with a maximum length of 2. *)
Definition short_options : TrainOptions :=
  mkTrainOptions 2 5 false false false "none".

(** An article with one formula, and one without formulas. *)
Definition two_articles : list (@Article toy_imports) :=
  [@mkArticle toy_imports "x [F] y" one_formula;
   @mkArticle toy_imports "ab" ∅].

(** A directory with one article file. *)
Definition one_file : gmap string (@Article toy_imports) :=
  {[ "a.json" := @mkArticle toy_imports "x [F] y" one_formula ]}.

(** * Properties *)

Section Properties.
Context {imports : Imports}.

(** ** split_sequence *)

Lemma split_step_shorter sequence max_seq_len emit rest :
  1 ≤ max_seq_len →
  split_step sequence max_seq_len = Recurse emit rest →
  seq_len rest < seq_len sequence.
Proof.
  intros HL. unfold split_step, split_at, seq_len.
  destruct (decide _) as [|Hlen]; [done|].
  destruct (token_types sequence !! max_seq_len) as [t|]; [|done].
  destruct (decide (t = TEXT)).
  { intros [= <- <-]; simpl. rewrite length_drop. lia. }
  destruct (next_text _ (reverse _)) as [[[|p]|]|]; try done;
    try (destruct (next_text _ (seq _ _)) as [[[|e]|]|]; try done);
    intros [= <- <-]; simpl; rewrite length_drop; lia.
Qed.

Lemma split_sequence_fuel_enough max_seq_len :
  1 ≤ max_seq_len →
  ∀ fuel sequence, seq_len sequence < fuel →
    split_sequence_fuel fuel sequence max_seq_len ≠ OutOfFuel
    ∧ ∀ fuel', seq_len sequence < fuel' →
        split_sequence_fuel fuel' sequence max_seq_len
        = split_sequence_fuel fuel sequence max_seq_len.
Proof.
  intros HL. induction fuel as [|fuel IH]; intros sequence Hf; [lia|].
  simpl. destruct (split_step sequence max_seq_len) as [out|emit rest|] eqn:Hstep.
  - split; [done|]. intros [|fuel'] ?; [lia|]. simpl. by rewrite Hstep.
  - pose proof (split_step_shorter _ _ _ _ HL Hstep) as Hlt.
    destruct (IH rest) as [Hne Heq]; [lia|]. split.
    + by destruct (split_sequence_fuel fuel rest max_seq_len).
    + intros [|fuel'] ?; [lia|]. simpl. rewrite Hstep.
      rewrite (Heq fuel'); [done|lia].
  - split; [done|]. intros [|fuel'] ?; [lia|]. simpl. by rewrite Hstep.
Qed.

(** C9: for a maximum length of at least 1, every recursive call of
    [split_sequence] is on a strictly shorter sequence, so the recursion is
    well-founded on the length: it gives its result within a depth of the
    length plus one, and a greater depth gives the same result. *)
Theorem split_sequence_terminates sequence max_seq_len :
  1 ≤ max_seq_len →
  (∀ emit rest, split_step sequence max_seq_len = Recurse emit rest →
                seq_len rest < seq_len sequence)
  ∧ split_sequence sequence max_seq_len ≠ OutOfFuel
  ∧ (∀ fuel, seq_len sequence < fuel →
       split_sequence_fuel fuel sequence max_seq_len
       = split_sequence sequence max_seq_len).
Proof.
  intros HL. split; [|split].
  - intros emit rest. by apply split_step_shorter.
  - apply split_sequence_fuel_enough; [done|lia].
  - intros fuel Hf. unfold split_sequence.
    apply (split_sequence_fuel_enough _ HL (S (seq_len sequence))); [lia|done].
Qed.

Lemma next_text_seq_Some types a n i :
  next_text types (seq a n) = Some (Some i) →
  a ≤ i < a + n ∧ types !! i = Some TEXT
  ∧ ∀ k, a ≤ k < i → types !! k ≠ Some TEXT.
Proof.
  revert a. induction n as [|n IH]; intros a; simpl; [done|].
  destruct (types !! a) as [t|] eqn:Ha; [|done].
  destruct (decide (t = TEXT)) as [->|Hne].
  - intros [= <-]. repeat split; [lia..|done|]. intros k ?. lia.
  - intros Hn. destruct (IH _ Hn) as (Hi & Hty & Hpre).
    repeat split; [lia..|done|]. intros k Hk.
    destruct (decide (k = a)) as [->|]; [congruence|]. apply Hpre. lia.
Qed.

Lemma next_text_seq_None types a n :
  next_text types (seq a n) = Some None →
  ∀ k, a ≤ k < a + n → types !! k ≠ Some TEXT.
Proof.
  revert a. induction n as [|n IH]; intros a; simpl; [intros _ k; lia|].
  destruct (types !! a) as [t|] eqn:Ha; [|done].
  destruct (decide (t = TEXT)) as [->|Hne]; [done|].
  intros Hn k Hk. destruct (decide (k = a)) as [->|]; [congruence|].
  apply (IH _ Hn). lia.
Qed.

Lemma reverse_seq_S n : reverse (seq 0 (S n)) = n :: reverse (seq 0 n).
Proof. by rewrite seq_S, reverse_app. Qed.

Lemma next_text_down_Some types n i :
  next_text types (reverse (seq 0 n)) = Some (Some i) →
  i < n ∧ types !! i = Some TEXT.
Proof.
  induction n as [|n IH]; [done|]. rewrite reverse_seq_S; simpl.
  destruct (types !! n) as [t|] eqn:Hn; [|done].
  destruct (decide (t = TEXT)) as [->|Hne].
  - intros [= <-]. split; [lia|done].
  - intros H. destruct (IH H). split; [lia|done].
Qed.

Lemma next_text_down_after types n i :
  next_text types (reverse (seq 0 n)) = Some (Some i) →
  ∀ k, i < k < n → types !! k ≠ Some TEXT.
Proof.
  induction n as [|n IH]; [done|]. rewrite reverse_seq_S; simpl.
  destruct (types !! n) as [t|] eqn:Hn; [|done].
  destruct (decide (t = TEXT)) as [->|Hne].
  - intros [= <-] k Hk. lia.
  - intros H k Hk. destruct (decide (k = n)) as [->|]; [congruence|].
    apply (IH H). lia.
Qed.

Lemma next_text_down_None types n :
  next_text types (reverse (seq 0 n)) = Some None →
  ∀ k, k < n → types !! k ≠ Some TEXT.
Proof.
  induction n as [|n IH]; [intros _ k; lia|]. rewrite reverse_seq_S; simpl.
  destruct (types !! n) as [t|] eqn:Hn; [|done].
  destruct (decide (t = TEXT)) as [->|Hne]; [done|].
  intros H k Hk. destruct (decide (k = n)) as [->|]; [congruence|].
  apply (IH H). lia.
Qed.

Lemma next_text_in_range types idxs :
  Forall (λ i, i < length types) idxs → is_Some (next_text types idxs).
Proof.
  induction 1 as [|i idxs Hi _ IH]; simpl; [by eexists|].
  destruct (lookup_lt_is_Some_2 types i Hi) as [t ->].
  destruct (decide (t = TEXT)); [by eexists|done].
Qed.

Lemma suffix_lookup s0 o s k :
  channels s = suffix o s0 → token_types s !! k = token_types s0 !! (o + k).
Proof. unfold channels, suffix. intros [= _ -> _ _ _]. apply lookup_drop. Qed.

Lemma suffix_len s0 o s :
  channels s = suffix o s0 → seq_len s = seq_len s0 - o.
Proof.
  unfold channels, suffix. intros [= Hids _ _ _ _].
  unfold seq_len. rewrite Hids. apply length_drop.
Qed.

Lemma suffix_types_len s0 o s :
  well_formed s0 → channels s = suffix o s0 →
  length (token_types s) = seq_len s.
Proof.
  unfold channels, suffix. intros (Hty & _) [= Hids Htys _ _ _].
  unfold seq_len in *.
  rewrite Hids, Htys, !length_drop. lia.
Qed.

Lemma suffix_split_pre s0 o s n :
  channels s = suffix o s0 → channels (split_at s n).1 = window o n s0.
Proof.
  unfold channels, suffix, window; simpl. by intros [= -> -> -> -> ->].
Qed.

Lemma suffix_split_post s0 o s n :
  channels s = suffix o s0 → channels (split_at s n).2 = suffix (o + n) s0.
Proof.
  unfold channels, suffix; simpl. intros [= -> -> -> -> ->].
  by rewrite !drop_drop.
Qed.

Lemma suffix_whole s0 o s :
  well_formed s0 → channels s = suffix o s0 →
  channels s = window o (seq_len s) s0.
Proof.
  intros (Hty & Hvec & Hlev & Hgpt) Hs.
  pose proof (suffix_len _ _ _ Hs) as Hlen. rewrite Hs.
  unfold suffix, window.
  unfold seq_len in *.
  rewrite !take_ge; [done|..]; rewrite length_drop; try lia.
  destruct Hgpt as [Hg|Hg]; rewrite Hg; simpl; lia.
Qed.

Lemma forward_scan s0 o s max_seq_len t :
  well_formed s0 → channels s = suffix o s0 →
  ¬ seq_len s ≤ max_seq_len →
  token_types s !! max_seq_len = Some t → t ≠ TEXT →
  (∀ k, 0 < k < max_seq_len → token_types s !! k ≠ Some TEXT) →
  match next_text (token_types s)
          (seq max_seq_len (seq_len s - max_seq_len)) with
  | Some (Some e) =>
      max_seq_len < e < seq_len s ∧ token_types s !! e = Some TEXT
      ∧ dropped_run s0 max_seq_len o e
  | Some None => dropped_run s0 max_seq_len o (seq_len s)
  | None => False
  end.
Proof.
  intros Hwf Hs Hlen Ht Hne Hrun.
  pose proof (suffix_types_len _ _ _ Hwf Hs) as Htl.
  assert (Hlk : ∀ k, token_types s0 !! (o + k) = token_types s !! k)
    by (intros k; symmetry; by apply suffix_lookup).
  destruct (next_text_in_range (token_types s)
              (seq max_seq_len (seq_len s - max_seq_len))) as [r Hr].
  { apply Forall_forall. intros i [? ?]%elem_of_seq. lia. }
  rewrite Hr. destruct r as [e|].
  - apply next_text_seq_Some in Hr as (He & Hty & Hpre).
    assert (e ≠ max_seq_len) by (intros ->; congruence).
    split; [lia|]. split; [done|]. split; [lia|].
    intros k Hk. replace k with (o + (k - o)) by lia. rewrite Hlk.
    destruct (decide (k - o < max_seq_len)); [apply Hrun; lia|].
    destruct (decide (k - o = max_seq_len)) as [->|]; [congruence|].
    apply Hpre. lia.
  - pose proof (next_text_seq_None _ _ _ Hr) as Hall. split; [lia|].
    intros k Hk. replace k with (o + (k - o)) by lia. rewrite Hlk.
    destruct (decide (k - o < max_seq_len)); [apply Hrun; lia|].
    apply Hall. lia.
Qed.

Lemma split_fuel_segments s0 max_seq_len :
  well_formed s0 → 1 ≤ max_seq_len →
  ∀ fuel s o,
    channels s = suffix o s0 → o ≤ seq_len s0 → seq_len s < fuel →
    ∃ out segs,
      split_sequence_fuel fuel s max_seq_len = Done out
      ∧ Forall (λ piece, seq_len piece ≤ max_seq_len) out
      ∧ segmentation s0 max_seq_len o segs out.
Proof.
  intros Hwf HL. induction fuel as [|fuel IH]; intros s o Hs Ho Hf; [lia|].
  pose proof (suffix_len _ _ _ Hs) as Hlen.
  pose proof (suffix_types_len _ _ _ Hwf Hs) as Htl.
  assert (Hlk : ∀ k, token_types s0 !! (o + k) = token_types s !! k)
    by (intros k; symmetry; by apply suffix_lookup).
  assert (Hrec : ∀ n emit seg,
    0 < n → n ≤ seq_len s →
    (∀ out segs, segmentation s0 max_seq_len (o + n) segs out →
       segmentation s0 max_seq_len o (seg :: segs) (emit ++ out)) →
    Forall (λ piece, seq_len piece ≤ max_seq_len) emit →
    ∃ out segs,
      match split_sequence_fuel fuel (split_at s n).2 max_seq_len with
      | Done out0 => Done (emit ++ out0)
      | o0 => o0
      end = Done out
      ∧ Forall (λ piece, seq_len piece ≤ max_seq_len) out
      ∧ segmentation s0 max_seq_len o segs out).
  { intros n emit seg Hn Hn' Hseg Hemit.
    destruct (IH (split_at s n).2 (o + n)) as (out & segs & -> & Hout & Hsegs).
    - by apply suffix_split_post.
    - lia.
    - unfold seq_len, split_at; simpl. rewrite length_drop.
      unfold seq_len in *. lia.
    - exists (emit ++ out), (seg :: segs). split; [done|].
      split; [by apply Forall_app|]. by apply Hseg. }
  simpl. unfold split_step.
  change (length (token_ids s)) with (seq_len s).
  destruct (decide (seq_len s ≤ max_seq_len)) as [Hfit|Hlong].
  { exists [s], [Kept (seq_len s)]. split; [done|]. split; [by constructor|].
    simpl. split; [by apply suffix_whole|]. split; [done|].
    split; [left; lia|]. split; [lia|done]. }
  destruct (lookup_lt_is_Some_2 (token_types s) max_seq_len) as [t Ht]; [lia|].
  rewrite Ht. destruct (decide (t = TEXT)) as [->|Hne].
  { apply (Hrec max_seq_len [(split_at s max_seq_len).1] (Kept max_seq_len));
      [lia|lia| |].
    - intros out segs Hsegs. simpl. split; [by apply suffix_split_pre|].
      split; [done|]. split; [|done]. right; left. by rewrite Hlk.
    - constructor; [|done]. unfold seq_len; simpl. rewrite length_take. lia. }
  destruct (next_text_in_range (token_types s)
              (reverse (seq 0 max_seq_len))) as [r Hr].
  { apply Forall_forall. intros i [? ?]%elem_of_reverse%elem_of_seq. lia. }
  rewrite Hr.
  assert (Hrun : (∀ p, r ≠ Some (S p)) →
            ∀ k, 0 < k < max_seq_len → token_types s !! k ≠ Some TEXT).
  { intros Hr' k Hk. destruct r as [[|p]|].
    - by apply (next_text_down_after _ _ _ Hr).
    - by destruct (Hr' p).
    - apply (next_text_down_None _ _ Hr). lia. }
  destruct r as [[|p]|];
    [specialize (Hrun ltac:(done))
    |clear Hrun
    |specialize (Hrun ltac:(done))].
  2:{ apply next_text_down_Some in Hr as [Hp Hty].
      apply (Hrec (S p + 1) [(split_at s (S p + 1)).1] (Kept (S p + 1)));
        [lia|lia| |].
      - intros out segs Hsegs. simpl. split; [by apply suffix_split_pre|].
        split; [lia|]. split; [|done]. right; right. exists (o + S p).
        split; [lia|]. by rewrite Hlk.
      - constructor; [|done]. unfold seq_len; simpl. rewrite length_take. lia. }
  all: pose proof (forward_scan _ _ _ _ _ Hwf Hs Hlong Ht Hne Hrun) as Hfwd.
  all: destruct (next_text _ (seq _ _)) as [[[|e]|]|]; [lia| | |done].
  all: try (destruct Hfwd as (He & Hty & Hform);
            apply (Hrec (S e) [] (Dropped (S e))); [lia|lia| |done];
            intros out segs Hsegs; simpl; split; [done|]; split; [|done];
            right; left; by rewrite Hlk).
  all: exists [], [Dropped (seq_len s)]; split; [done|]; split; [done|];
       simpl; split; [done|]; split; [left; lia|]; split; [lia|done].
Qed.







(** ** trim_batch *)

Lemma slice_slice {A : Type} (a b : Z) (l : list A) :
  (a ≤ b ∨ 0 ≤ b)%Z →
  Py.slice 0 (b - a) (Py.slice a b l) = Py.slice a b l.
Proof.
  intros Hab. unfold Py.slice at 1.
  set (inner := Py.slice a b l).
  assert (Hlen : (Z.of_nat (length inner) ≤ b - a)%Z ∨ length inner = 0).
  { unfold inner, Py.slice, Py.slice_bound.
    rewrite length_take, length_drop.
    destruct (Z.ltb_spec a 0), (Z.ltb_spec b 0); lia. }
  cbv zeta.
  replace (Py.slice_bound (Z.of_nat (length inner)) 0) with 0%Z
    by (unfold Py.slice_bound; simpl; lia).
  simpl (Z.to_nat 0). rewrite drop_0.
  apply take_ge. unfold Py.slice_bound.
  destruct (Z.ltb_spec (b - a) 0); lia.
Qed.

Lemma trim_tensor_idemp {A : Type} (a b : Z) (t : list (list A)) :
  (a ≤ b ∨ 0 ≤ b)%Z →
  trim_tensor 0 (b - a) (trim_tensor a b t) = trim_tensor a b t.
Proof.
  intros Hab. unfold trim_tensor. rewrite <- list_fmap_compose.
  apply list_fmap_ext. intros _ row _. simpl. by apply slice_slice.
Qed.

(** C5 (amended): for offsets [a ≤ b], the trimmed batch has in every row [i]
    the sequence length [b - a] bounded above by [original_lengths[i] - a] and
    then below by 0, and [prompt_lengths] and [cls_labels] are passed through
    unchanged. *)
Theorem trim_batch_sequence_lengths (batch : CollatedBatch) (a b : Z) (i : nat) :
  (a ≤ b)%Z →
  sequence_lengths (trim_batch batch a b) !! i
    = (λ len, clamp (b - a) 0 (len - a)) <$> sequence_lengths batch !! i
  ∧ prompt_lengths (trim_batch batch a b) = prompt_lengths batch
  ∧ cls_labels (trim_batch batch a b) = cls_labels batch.
Proof.
  intros Hab. split; [|done]. simpl. rewrite list_lookup_fmap.
  destruct (sequence_lengths batch !! i) as [len|]; [|done].
  simpl. f_equal. unfold clamp. lia.
Qed.

(** C6 (amended): for offsets with [a ≤ b] or [0 ≤ b], trimming the trimmed
    batch again with offsets 0 and [b - a] changes no channel, the recomputed
    sequence lengths included. *)
Theorem trim_batch_idempotent (batch : CollatedBatch) (a b : Z) :
  (a ≤ b ∨ 0 ≤ b)%Z →
  trim_batch (trim_batch batch a b) 0 (b - a) = trim_batch batch a b.
Proof.
  intros Hab. unfold trim_batch; simpl.
  rewrite !trim_tensor_idemp by done.
  f_equal.
  - destruct (cb_pos_encodings batch); simpl; [|done].
    by rewrite trim_tensor_idemp.
  - destruct (cb_gpt_tokens batch); simpl; [|done].
    by rewrite trim_tensor_idemp.
  - destruct (cb_use_shared_emb batch); simpl; [|done].
    by rewrite trim_tensor_idemp.
  - rewrite <- list_fmap_compose. apply list_fmap_ext.
    intros _ len _. simpl. lia.
  - destruct (gen_labels batch); simpl; [|done].
    by rewrite trim_tensor_idemp.
Qed.

(** ** Collator *)

Lemma pad_rows_lookup {A : Type} (padding_value : A) sequences i s :
  sequences !! i = Some s →
  pad_rows padding_value sequences !! i
  = Some (s ++ replicate (max_list (length <$> sequences) - length s)
                 padding_value).
Proof. intros Hi. unfold pad_rows. by rewrite list_lookup_fmap, Hi. Qed.

Lemma pad_sequence_Some {A : Type} (padding_value : A) sequences padded :
  pad_sequence padding_value sequences = Some padded →
  sequences ≠ [] ∧ padded = pad_rows padding_value sequences.
Proof. destruct sequences; [done|]. by intros [= <-]. Qed.

Lemma collate_sequence_row self max_gpt_token_len s row :
  collate_sequence self max_gpt_token_len s = Some row →
  row_token_ids row = token_ids s
  ∧ row_token_types row = token_types s
  ∧ row_attention_mask row = replicate (seq_len s) float_one
  ∧ row_sequence_length row = Z.of_nat (seq_len s).
Proof.
  unfold collate_sequence. intros Hrow.
  destruct (task self) as [t|]; [destruct (is_cls_task t)|];
    simplify_option_eq; done.
Qed.

Lemma collate_sequence_gen_label self max_gpt_token_len s row t :
  collate_sequence self max_gpt_token_len s = Some row →
  task self = Some t → is_cls_task t = false →
  ∃ prompt_length,
    meta s !! "prompt_length" = Some prompt_length
    ∧ row_gen_label row
      = Some (Py.fill_prefix prompt_length PADDING_TOKEN_ID (token_ids s)).
Proof.
  unfold collate_sequence. intros Hrow Ht Hcls. rewrite Ht, Hcls in Hrow.
  destruct (meta s !! "prompt_length") as [p|]; [|done].
  simpl in Hrow. injection Hrow as <-. by exists p.
Qed.

(** What a successful call has computed, channel by channel. *)
Lemma Collator_call_Some self batch collated :
  Collator_call self batch = Some collated →
  ∃ max_gpt_token_len rows,
    Forall2 (λ s row, collate_sequence self max_gpt_token_len s = Some row)
      batch rows
    ∧ cb_token_ids collated = pad_rows PADDING_TOKEN_ID (token_ids <$> batch)
    ∧ cb_token_types collated = pad_rows TEXT (token_types <$> batch)
    ∧ attention_mask collated
      = pad_rows float_zero ((λ s, replicate (seq_len s) float_one) <$> batch)
    ∧ gen_labels collated
      = pad_if_any PADDING_TOKEN_ID (omap row_gen_label rows).
Proof.
  unfold Collator_call. intros Hcall.
  destruct (if shared_emb (options self) then _ else _) as [m|]; [|done].
  simpl in Hcall.
  destruct (mapM (collate_sequence self m) batch) as [rows|] eqn:Hrows;
    [|done].
  apply mapM_Some in Hrows. simpl in Hcall.
  assert (Hids : row_token_ids <$> rows = token_ids <$> batch
          ∧ row_token_types <$> rows = token_types <$> batch
          ∧ row_attention_mask <$> rows
            = (λ s, replicate (seq_len s) float_one) <$> batch).
  { clear Hcall. induction Hrows as [|s row batch rows Hrow _ IH]; [done|].
    destruct IH as (IH1 & IH2 & IH3).
    apply collate_sequence_row in Hrow as (Hr1 & Hr2 & Hr3 & _).
    rewrite !fmap_cons. by rewrite IH1, IH2, IH3, Hr1, Hr2, Hr3. }
  destruct Hids as (Hids & Htys & Hmask).
  destruct (pad_sequence _ (row_token_ids <$> rows)) as [ids|] eqn:Hp1;
    [|done].
  apply pad_sequence_Some in Hp1 as [_ ->]. simpl in Hcall.
  destruct (pad_sequence _ (row_token_types <$> rows)) as [tys|] eqn:Hp2;
    [|done].
  apply pad_sequence_Some in Hp2 as [_ ->]. simpl in Hcall.
  destruct (pad_sequence _ (row_pos_vecs <$> rows)) as [vecs|]; [|done].
  simpl in Hcall.
  destruct (pad_sequence _ (row_pos_levels <$> rows)) as [levels|]; [|done].
  simpl in Hcall.
  destruct (pad_sequence _ (row_attention_mask <$> rows)) as [mask|] eqn:Hp3;
    [|done].
  apply pad_sequence_Some in Hp3 as [_ ->]. simpl in Hcall.
  injection Hcall as <-. exists m, rows. simpl.
  by rewrite Hids, Htys, Hmask.
Qed.

Lemma max_list_replicate_lengths {A : Type} (x : A) (batch : list Sequence) :
  max_list (length <$> ((λ s, replicate (seq_len s) x) <$> batch))
  = max_list (seq_len <$> batch).
Proof.
  rewrite <- list_fmap_compose. f_equal. apply list_fmap_ext.
  intros _ s _. simpl. apply length_replicate.
Qed.

Lemma Collator_call_id_row self batch collated i s :
  Collator_call self batch = Some collated →
  batch !! i = Some s →
  cb_token_ids collated !! i
  = Some (token_ids s
          ++ replicate (max_list (seq_len <$> batch) - seq_len s)
               PADDING_TOKEN_ID).
Proof.
  intros Hcall Hi.
  apply Collator_call_Some in Hcall as (m & rows & _ & -> & _).
  erewrite pad_rows_lookup; [|by rewrite list_lookup_fmap, Hi].
  by rewrite <- list_fmap_compose.
Qed.

(** C3: row [i] of the collated [token_ids] is the ids of sequence [i]
    followed by [max_len - l_i] padding ids, and row [i] of the attention mask
    is [l_i] ones followed by [max_len - l_i] zeros, [max_len] being the
    maximum of the lengths in the batch. *)
Theorem Collator_call_padding (self : Collator) (batch : list Sequence)
    (collated : CollatedBatch) (i : nat) (s : Sequence) :
  Collator_call self batch = Some collated →
  batch !! i = Some s →
  let max_len := max_list (seq_len <$> batch) in
  cb_token_ids collated !! i
    = Some (token_ids s ++ replicate (max_len - seq_len s) PADDING_TOKEN_ID)
  ∧ attention_mask collated !! i
    = Some (replicate (seq_len s) float_one
            ++ replicate (max_len - seq_len s) float_zero).
Proof.
  intros Hcall Hi max_len.
  split; [by apply (Collator_call_id_row self)|].
  apply Collator_call_Some in Hcall as (m & rows & _ & _ & _ & -> & _).
  erewrite pad_rows_lookup; [|by rewrite list_lookup_fmap, Hi].
  by rewrite max_list_replicate_lengths, length_replicate.
Qed.

Lemma fill_prefix_length {A : Type} (stop : Z) (x : A) (l : list A) :
  length (Py.fill_prefix stop x l) = length l.
Proof.
  unfold Py.fill_prefix, Py.slice_bound.
  rewrite length_app, length_replicate, length_drop.
  destruct (Z.ltb_spec stop 0); lia.
Qed.

Lemma fill_prefix_nat {A : Type} (p : nat) (x : A) (l : list A) :
  Py.fill_prefix (Z.of_nat p) x l
  = replicate (p `min` length l) x ++ drop (p `min` length l) l.
Proof.
  unfold Py.fill_prefix, Py.slice_bound.
  destruct (Z.ltb_spec (Z.of_nat p) 0); [lia|].
  by replace (Z.to_nat (Z.of_nat p `min` Z.of_nat (length l)))
    with (p `min` length l) by lia.
Qed.

Lemma gen_label_batches self max_gpt_token_len batch rows t :
  Forall2 (λ s row, collate_sequence self max_gpt_token_len s = Some row)
    batch rows →
  task self = Some t → is_cls_task t = false →
  Forall2 (λ s gen_label, ∃ prompt_length,
             meta s !! "prompt_length" = Some prompt_length
             ∧ gen_label
               = Py.fill_prefix prompt_length PADDING_TOKEN_ID (token_ids s))
    batch (omap row_gen_label rows).
Proof.
  intros Hrows Ht Hcls.
  induction Hrows as [|s row batch rows Hrow _ IH]; [constructor|].
  destruct (collate_sequence_gen_label _ _ _ _ _ Hrow Ht Hcls)
    as (p & Hp & Hlabel).
  simpl. rewrite Hlabel. constructor; [by exists p|done].
Qed.

(** C4: under a generative task, the [gen_labels] row of a sequence with
    prompt length [p] holds the padding id at every index before [p] and the
    entry of the [token_ids] row at every index from [p] to the length of the
    sequence. *)
Theorem Collator_call_gen_labels (self : Collator) (batch : list Sequence)
    (collated : CollatedBatch) (t : DownstreamTask) (i : nat) (s : Sequence)
    (p : nat) :
  Collator_call self batch = Some collated →
  task self = Some t → is_cls_task t = false →
  batch !! i = Some s →
  meta s !! "prompt_length" = Some (Z.of_nat p) →
  ∃ labels label_row id_row,
    gen_labels collated = Some labels
    ∧ labels !! i = Some label_row
    ∧ cb_token_ids collated !! i = Some id_row
    ∧ length label_row = length id_row
    ∧ (∀ j, j < p → j < length label_row →
            label_row !! j = Some PADDING_TOKEN_ID)
    ∧ (∀ j, p ≤ j < seq_len s → label_row !! j = id_row !! j).
Proof.
  intros Hcall Ht Hcls Hi Hp.
  pose proof (Collator_call_id_row _ _ _ _ _ Hcall Hi) as Hids.
  apply Collator_call_Some in Hcall as (m & rows & Hrows & _ & _ & _ & Hgen).
  pose proof (gen_label_batches _ _ _ _ _ Hrows Ht Hcls) as Hlabels.
  set (gens := omap row_gen_label rows) in *.
  destruct (Forall2_lookup_l _ _ _ _ _ Hlabels Hi) as (g & Hg & p' & Hp' & ->).
  assert (p' = Z.of_nat p) as -> by congruence.
  assert (Hmax : max_list (length <$> gens) = max_list (seq_len <$> batch)).
  { clear -Hlabels. induction Hlabels as [|s g batch gens Hg _ IH]; [done|].
    destruct Hg as (p & _ & ->). rewrite !fmap_cons. simpl.
    by rewrite IH, fill_prefix_length. }
  assert (Hpad : pad_if_any PADDING_TOKEN_ID gens
                 = Some (pad_rows PADDING_TOKEN_ID gens)).
  { destruct gens; [by rewrite lookup_nil in Hg|done]. }
  eexists _, _, _. split; [by rewrite Hgen, Hpad|].
  split; [by apply pad_rows_lookup|]. split; [exact Hids|].
  rewrite Hmax, fill_prefix_length, fill_prefix_nat.
  change (length (token_ids s)) with (seq_len s).
  split; [|split].
  - rewrite !length_app, !length_replicate, length_drop.
    unfold seq_len. lia.
  - intros j Hj Hlen.
    rewrite !length_app, !length_replicate, length_drop in Hlen.
    destruct (decide (j < seq_len s)).
    + rewrite lookup_app_l by (rewrite length_app, length_replicate; lia).
      rewrite lookup_app_l by (rewrite length_replicate; lia).
      apply lookup_replicate_2. lia.
    + rewrite lookup_app_r
        by (rewrite length_app, length_replicate, length_drop;
            unfold seq_len in *; lia).
      apply lookup_replicate_2.
      rewrite length_app, length_replicate, length_drop.
      unfold seq_len in *. lia.
  - intros j Hj. replace (p `min` seq_len s) with p by lia.
    rewrite lookup_app_l
      by (rewrite length_app, length_replicate, length_drop;
          unfold seq_len in *; lia).
    rewrite lookup_app_r by (rewrite length_replicate; lia).
    rewrite length_replicate, lookup_drop.
    rewrite lookup_app_l by (unfold seq_len in *; lia).
    f_equal. lia.
Qed.

(** C2 (amended): beyond the true length of a sequence its [token_ids] row
    holds PADDING_TOKEN_ID and its [token_types] row holds TEXT, the type of
    the real text tokens; when PADDING_TOKEN_ID is not an id of the sequence,
    the positions of the [token_ids] row that hold it are exactly the padded
    ones. *)
Theorem Collator_call_padding_values (self : Collator) (batch : list Sequence)
    (collated : CollatedBatch) (i : nat) (s : Sequence) :
  Collator_call self batch = Some collated →
  batch !! i = Some s →
  ∃ id_row type_row,
    cb_token_ids collated !! i = Some id_row
    ∧ cb_token_types collated !! i = Some type_row
    ∧ (∀ j, seq_len s ≤ j < length id_row →
            id_row !! j = Some PADDING_TOKEN_ID)
    ∧ (∀ j, length (token_types s) ≤ j < length type_row →
            type_row !! j = Some TEXT)
    ∧ (PADDING_TOKEN_ID ∉ token_ids s →
       ∀ j, j < length id_row →
            id_row !! j = Some PADDING_TOKEN_ID ↔ seq_len s ≤ j).
Proof.
  intros Hcall Hi.
  apply Collator_call_Some in Hcall as (m & rows & _ & -> & -> & _).
  eexists _, _.
  split; [by apply pad_rows_lookup; rewrite list_lookup_fmap, Hi|].
  split; [by apply pad_rows_lookup; rewrite list_lookup_fmap, Hi|].
  assert (Hpad : ∀ (A : Type) (l : list A) (x : A) n j,
            length l ≤ j < length (l ++ replicate n x) →
            (l ++ replicate n x) !! j = Some x).
  { intros A l x n j. rewrite length_app, length_replicate. intros Hj.
    rewrite lookup_app_r by lia. apply lookup_replicate_2. lia. }
  split; [intros j Hj; by apply Hpad|]. split; [intros j Hj; by apply Hpad|].
  intros Hreal j Hj. split.
  - intros Hpadj. destruct (decide (seq_len s ≤ j)) as [|Hlt]; [done|].
    rewrite lookup_app_l in Hpadj by (unfold seq_len in *; lia).
    destruct Hreal. by eapply list_elem_of_lookup_2.
  - intros Hge. apply Hpad. split; [done|lia].
Qed.

(** ** tokenize_sequence *)

Lemma split_go_nonempty sep skip cur s : Py.split_go sep skip cur s ≠ [].
Proof.
  revert skip cur. induction s as [|c s IH]; intros skip cur; simpl; [done|].
  destruct skip; [|apply IH].
  match goal with |- (if ?b then _ else _) ≠ _ => destruct b end;
    [discriminate|apply IH].
Qed.

Lemma missing_placeholders_S formulas idx n :
  missing_placeholders formulas idx (S n)
  = match formulas !! Py.str idx with Some _ => 0 | None => 1 end
    + missing_placeholders formulas (S idx) n.
Proof.
  unfold missing_placeholders. simpl. rewrite filter_cons.
  destruct (decide _) as [Hmiss|Hmiss].
  - by rewrite Hmiss.
  - by destruct (formulas !! Py.str idx).
Qed.

Lemma tokenize_loop_spec formulas options num_chunks text_chunks :
  ∀ idx sequence num_missing,
    idx + length text_chunks = num_chunks →
    ∃ sequence',
      tokenize_loop formulas options num_chunks idx text_chunks
        (sequence, num_missing)
      = (sequence',
         num_missing
         + missing_placeholders formulas idx (length text_chunks - 1))
      ∧ token_types sequence'
        = token_types sequence ++ chunk_types formulas options idx text_chunks
      ∧ ((∀ i, idx ≤ i < num_chunks - 1 → formulas !! Py.str i = None) →
         token_ids sequence'
         = token_ids sequence ++ mjoin (text_tokenizer <$> text_chunks)).
Proof.
  induction text_chunks as [|text_chunk rest IH];
    intros idx sequence num_missing Hidx.
  { exists sequence. simpl. unfold missing_placeholders. simpl.
    rewrite Nat.add_0_r, !app_nil_r. done. }
  simpl tokenize_loop. unfold tokenize_chunk.
  destruct rest as [|text_chunk' rest].
  - rewrite decide_True by (simpl in Hidx; lia).
    eexists. split; [|split].
    + simpl. unfold missing_placeholders. simpl. by rewrite Nat.add_0_r.
    + simpl. by rewrite !app_nil_r.
    + intros _. simpl. by rewrite !app_nil_r.
  - rewrite decide_False by (simpl in Hidx; lia).
    set (rest' := text_chunk' :: rest) in *.
    assert (Hlen : length (text_chunk :: rest') - 1 = S (length rest' - 1))
      by (simpl; lia).
    rewrite Hlen, missing_placeholders_S.
    destruct (formulas !! Py.str idx) as [formula|] eqn:Hformula.
    + destruct (baseline options) eqn:Hbase.
      * edestruct (IH (S idx)) as (sequence' & -> & Htypes & Hids);
          [simpl in *; lia|].
        exists sequence'. split; [f_equal; lia|]. split.
        -- rewrite Htypes. simpl. unfold formula_types.
           rewrite Hformula, Hbase. by rewrite <- !app_assoc.
        -- intros Hall. rewrite (Hall idx) in Hformula; [done|].
           simpl in Hidx. lia.
      * edestruct (IH (S idx)) as (sequence' & -> & Htypes & Hids);
          [simpl in *; lia|].
        exists sequence'. split; [f_equal; lia|]. split.
        -- rewrite Htypes. simpl. unfold formula_types.
           rewrite Hformula, Hbase. by rewrite <- !app_assoc.
        -- intros Hall. rewrite (Hall idx) in Hformula; [done|].
           simpl in Hidx. lia.
    + edestruct (IH (S idx)) as (sequence' & -> & Htypes & Hids);
        [simpl in *; lia|].
      exists sequence'. split; [f_equal; lia|]. split.
      * rewrite Htypes. simpl. unfold formula_types.
        rewrite Hformula. by rewrite <- !app_assoc.
      * intros Hall. rewrite Hids by (intros i Hi; apply Hall; lia).
        simpl. by rewrite <- !app_assoc.
Qed.

Lemma chunk_types_all_missing formulas options text_chunks :
  ∀ idx,
    (∀ i, idx ≤ i < idx + length text_chunks - 1 →
          formulas !! Py.str i = None) →
    Forall (λ t, t = TEXT) (chunk_types formulas options idx text_chunks).
Proof.
  induction text_chunks as [|text_chunk rest IH]; intros idx Hall; simpl;
    [done|].
  apply Forall_app. split; [by apply Forall_replicate|].
  destruct rest as [|text_chunk' rest]; [done|].
  apply Forall_app. split.
  - unfold formula_types. rewrite Hall; [done|]. simpl. lia.
  - apply IH. intros i Hi. apply Hall. simpl in *. lia.
Qed.

Lemma string_app_cons c s t : String c s +:+ t = String c (s +:+ t).
Proof. done. Qed.

Lemma string_app_nil_l t : "" +:+ t = t.
Proof. done. Qed.

Lemma string_app_nil_r s : s +:+ "" = s.
Proof.
  induction s as [|c s IH]; [done|]. by rewrite string_app_cons, IH.
Qed.

Lemma string_app_assoc s t u : (s +:+ t) +:+ u = s +:+ t +:+ u.
Proof.
  induction s as [|c s IH]; [done|]. by rewrite !string_app_cons, IH.
Qed.

Lemma string_length_app s t :
  String.length (s +:+ t) = String.length s + String.length t.
Proof.
  induction s as [|c s IH]; [done|]. rewrite string_app_cons. simpl.
  by rewrite IH.
Qed.

Lemma string_app_inv_length s1 t1 s2 t2 :
  s1 +:+ t1 = s2 +:+ t2 → String.length s1 = String.length s2 →
  s1 = s2 ∧ t1 = t2.
Proof.
  revert s2. induction s1 as [|c s1 IH]; intros [|c2 s2]; try done.
  rewrite !string_app_cons. intros [= -> Heq] [= Hlen].
  destruct (IH _ Heq Hlen) as [-> ->]. done.
Qed.

Lemma string_prefix_app sep s :
  String.prefix sep s = true ↔ ∃ rest, s = sep +:+ rest.
Proof.
  revert s. induction sep as [|a sep IH]; intros [|b s]; simpl.
  - split; [intros _; by exists ""|done].
  - split; [intros _; by exists (String b s)|done].
  - split; [done|]. by intros [? ?].
  - destruct (Ascii.ascii_dec a b) as [->|Hne].
    + rewrite IH. split.
      * intros [rest ->]. by exists rest.
      * intros [rest Heq]. rewrite string_app_cons in Heq.
        injection Heq as ->. by exists rest.
    + split; [done|]. intros [rest Heq]. rewrite string_app_cons in Heq.
      by injection Heq.
Qed.

Lemma split_go_skip sep pre rest cur :
  Py.split_go sep (String.length pre) cur (pre +:+ rest)
  = Py.split_go sep 0 cur rest.
Proof.
  induction pre as [|c pre IH]; [done|].
  rewrite string_app_cons. simpl. apply IH.
Qed.

Lemma split_go_chunks a sep' :
  let sep := String a sep' in
  ∀ n s cur,
    String.length s ≤ n →
    (∀ i, occurs_at sep (cur +:+ s) i → String.length cur ≤ i) →
    placeholder_chunks sep (cur +:+ s) (Py.split_go sep 0 cur s).
Proof.
  intros sep. induction n as [|n IH]; intros s cur Hn Hleft.
  - destruct s as [|c s]; [|simpl in Hn; lia]. simpl.
    split; [apply string_app_nil_r|].
    intros i (pre & post & Heq & Hi).
    assert (String.length cur ≤ i) by (apply Hleft; by exists pre, post).
    apply (f_equal String.length) in Heq.
    rewrite !string_length_app in Heq. simpl in *. lia.
  - destruct s as [|c s].
    { simpl. split; [apply string_app_nil_r|].
      intros i (pre & post & Heq & Hi).
      assert (String.length cur ≤ i) by (apply Hleft; by exists pre, post).
      apply (f_equal String.length) in Heq.
      rewrite !string_length_app in Heq. simpl in *. lia. }
    cbn [Py.split_go].
    destruct (String.prefix sep (String c s)) eqn:Hpre.
    + apply string_prefix_app in Hpre as [rest Hrest].
      unfold sep in Hrest. rewrite string_app_cons in Hrest.
      injection Hrest as -> ->.
      replace (String.length sep - 1) with (String.length sep')
        by (simpl; lia).
      rewrite split_go_skip.
      assert (Hlen : String.length rest ≤ n).
      { simpl in Hn. rewrite string_length_app in Hn. lia. }
      pose proof (IH rest "" Hlen) as Hrec.
      rewrite string_app_nil_l in Hrec.
      destruct (Py.split_go sep 0 "" rest) as [|chunk chunks] eqn:Hgo.
      { by apply split_go_nonempty in Hgo. }
      exists rest. split; [done|]. split; [done|].
      apply Hrec. intros i _. simpl. lia.
    + replace (cur +:+ String c s) with ((cur +:+ String c "") +:+ s)
        by (by rewrite string_app_assoc).
      apply IH; [simpl in Hn; lia|].
      rewrite string_app_assoc, string_app_cons, string_app_nil_l.
      intros i Hocc. rewrite string_length_app. simpl.
      pose proof (Hleft i Hocc) as Hi.
      destruct (decide (i = String.length cur)) as [->|]; [|lia].
      destruct Hocc as (pre & post & Heq & Hlen).
      apply string_app_inv_length in Heq as [_ Heq]; [|done].
      assert (String.prefix sep (String c s) = true) as Htrue
        by (apply string_prefix_app; by exists post).
      congruence.
Qed.

Lemma split_placeholder_chunks sep text text_chunks :
  Py.split text sep = Some text_chunks →
  placeholder_chunks sep text text_chunks.
Proof.
  unfold Py.split. destruct sep as [|a sep']; [done|]. intros [= <-].
  pose proof (split_go_chunks a sep' (String.length text) text "") as Hgo.
  rewrite string_app_nil_l in Hgo. apply Hgo; [done|].
  intros i _. simpl. lia.
Qed.

Lemma placeholder_chunks_unique sep chunks1 :
  ∀ chunks2 text,
    placeholder_chunks sep text chunks1 →
    placeholder_chunks sep text chunks2 → chunks1 = chunks2.
Proof.
  induction chunks1 as [|chunk1 rest1 IH]; intros chunks2 text; [done|].
  destruct chunks2 as [|chunk2 rest2]; [done|]. simpl.
  destruct rest1 as [|c1 rest1], rest2 as [|c2 rest2].
  - intros [-> _] [-> _]. done.
  - intros [-> Hnone] (rest & Heq & _). destruct (Hnone (String.length chunk2)).
    by exists chunk2, rest.
  - intros (rest & Heq & _) [-> Hnone].
    destruct (Hnone (String.length chunk1)). by exists chunk1, rest.
  - intros (r1 & Heq1 & Hleft1 & Hrest1) (r2 & Heq2 & Hleft2 & Hrest2).
    assert (String.length chunk1 = String.length chunk2) as Hlen.
    { apply Nat.le_antisymm.
      - apply Hleft1. by exists chunk2, r2.
      - apply Hleft2. by exists chunk1, r1. }
    rewrite Heq1 in Heq2.
    apply string_app_inv_length in Heq2 as [-> Heq2]; [|done].
    apply (inj (String.append sep)) in Heq2 as ->.
    f_equal. by apply (IH _ r2).
Qed.

(** C7: for a non-empty placeholder marker, [tokenize_sequence] returns; the
    text is its chunks with one occurrence of the marker between each two, the
    occurrences taken from left to right, and these chunks are the only such
    decomposition of the text, so that the placeholders are numbered by the
    chunks before them; the count is the number of placeholder occurrences
    whose stringified index is absent from the formula map; a skipped
    placeholder adds no token, so that the token types are those of the text
    chunks and of the formulas present; when every placeholder is skipped the
    output has TEXT tokens only, the tokens of the chunks; with an empty map
    and a text with one occurrence of the marker the count is 1. *)
Theorem tokenize_sequence_missing_formulas (name text : string)
    (formulas : gmap string Formula) (options : TrainOptions) :
  FORMULA_IDENTIFIER ≠ "" →
  ∃ text_chunks sequence num_missing,
    Py.split text FORMULA_IDENTIFIER = Some text_chunks
    ∧ placeholder_chunks FORMULA_IDENTIFIER text text_chunks
    ∧ (∀ chunks, placeholder_chunks FORMULA_IDENTIFIER text chunks →
         chunks = text_chunks)
    ∧ text_chunks ≠ []
    ∧ tokenize_sequence name text formulas options
      = Some (sequence, num_missing)
    ∧ num_missing = missing_placeholders formulas 0 (length text_chunks - 1)
    ∧ token_types sequence = chunk_types formulas options 0 text_chunks
    ∧ ((∀ i, i < length text_chunks - 1 → formulas !! Py.str i = None) →
       Forall (λ t, t = TEXT) (token_types sequence)
       ∧ token_ids sequence = mjoin (text_tokenizer <$> text_chunks))
    ∧ (formulas = ∅ →
       (∃ pre post,
          placeholder_chunks FORMULA_IDENTIFIER text [pre; post]) →
       num_missing = 1 ∧ Forall (λ t, t = TEXT) (token_types sequence)).
Proof.
  intros Hsep.
  assert (Hchunks : ∃ text_chunks,
            Py.split text FORMULA_IDENTIFIER = Some text_chunks
            ∧ text_chunks ≠ []).
  { unfold Py.split. destruct FORMULA_IDENTIFIER; [done|].
    eexists. split; [done|]. apply split_go_nonempty. }
  destruct Hchunks as (text_chunks & Hsplit & Hnonempty).
  pose proof (split_placeholder_chunks _ _ _ Hsplit) as Hplace.
  unfold tokenize_sequence. rewrite Hsplit. simpl.
  destruct (tokenize_loop_spec formulas options (length text_chunks)
              text_chunks 0 (new_sequence name) 0)
    as (sequence & Hloop & Htypes & Hids); [done|].
  simpl in Hloop, Htypes, Hids.
  exists text_chunks, sequence, (missing_placeholders formulas 0
                                   (length text_chunks - 1)).
  split; [done|]. split; [done|]. split.
  { intros chunks Hchunks.
    by apply (placeholder_chunks_unique _ _ _ _ Hchunks Hplace). }
  split; [done|].
  split; [by rewrite Hloop|]. split; [done|]. split; [done|].
  assert (Htext : (∀ i, i < length text_chunks - 1 →
                        formulas !! Py.str i = None) →
                  Forall (λ t, t = TEXT) (token_types sequence)).
  { intros Hall. rewrite Htypes. apply chunk_types_all_missing.
    intros i Hi. apply Hall. lia. }
  split.
  - intros Hall. split; [by apply Htext|].
    apply Hids. intros i Hi. apply Hall. lia.
  - intros -> (pre & post & Hone).
    rewrite (placeholder_chunks_unique FORMULA_IDENTIFIER text_chunks
               [pre; post] text Hplace Hone).
    split.
    + unfold missing_placeholders. simpl.
      rewrite filter_cons, decide_True by apply lookup_empty. done.
    + apply Htext. intros i _. apply lookup_empty.
Qed.

(** ** ProblemSolvingDataset *)

Lemma ProblemSolvingDataset_sample_spec options self sample self' :
  ProblemSolvingDataset_sample options self sample = Some self' →
  ∃ stored,
    data self' = data self ++ [stored]
    ∧ stored_solving_sample options sample stored
    ∧ trimmed_sequences self'
      = trimmed_sequences self
        + length (filter (overflows options) [stored]).
Proof.
  unfold ProblemSolvingDataset_sample. intros Hsample.
  destruct (tokenize_sequence "" _ (formulas (problem sample)) options)
    as [[problem_sequence m1]|] eqn:Hproblem; [|done].
  simpl in Hsample.
  destruct (tokenize_sequence "" _ (formulas (steps sample)) options)
    as [[steps_sequence m2]|] eqn:Hsteps; [|done].
  simpl in Hsample.
  destruct (tokenize_sequence "" _ (formulas (answer sample)) options)
    as [[answer_sequence m3]|] eqn:Hanswer; [|done].
  simpl in Hsample. injection Hsample as <-. simpl.
  eexists. split; [done|]. split.
  - exists problem_sequence, m1, steps_sequence, m2, answer_sequence, m3.
    split; [done|]. split; [done|]. split; [done|]. split; [done|].
    split; [|done]. unfold seq_len; simpl. rewrite !length_app. lia.
  - rewrite filter_cons, filter_nil. unfold overflows at 1.
    unfold seq_len at 2; simpl.
    destruct (decide _) as [Hover|Hover];
      destruct (decide _) as [Hover'|Hover']; simpl; try lia;
      unfold seq_len in *; simpl in *; lia.
Qed.

Lemma ProblemSolvingDataset_loop_spec options samples :
  ∀ self self',
    ProblemSolvingDataset_loop options samples self = Some self' →
    ∃ stored,
      data self' = data self ++ stored
      ∧ Forall2 (stored_solving_sample options) samples stored
      ∧ trimmed_sequences self'
        = trimmed_sequences self + length (filter (overflows options) stored).
Proof.
  induction samples as [|sample samples IH]; intros self self'; simpl.
  - intros [= <-]. exists []. rewrite app_nil_r. split; [done|].
    split; [constructor|simpl; lia].
  - destruct (ProblemSolvingDataset_sample options self sample)
      as [self1|] eqn:Hsample; [|done].
    simpl. intros Hloop.
    apply ProblemSolvingDataset_sample_spec in Hsample
      as (first & Hdata1 & Hfirst & Htrim1).
    apply IH in Hloop as (rest & Hdata & Hrest & Htrim).
    exists (first :: rest). split; [|split].
    + rewrite Hdata, Hdata1. by rewrite <- app_assoc.
    + by constructor.
    + rewrite Htrim, Htrim1. rewrite (filter_cons _ first rest).
      rewrite filter_cons, filter_nil.
      destruct (decide (overflows options first)); simpl; lia.
Qed.

(** C8: the builder stores for every sample the full concatenation of the
    tokenized problem, steps and answer, whatever its length, with the length
    of the problem sequence as prompt length; the trimmed-sequences counter is
    the number of stored sequences longer than [max_seq_len]. *)
Theorem ProblemSolvingDataset_keeps_overflow
    (samples : list SolvingTaskSample) (options : TrainOptions)
    (self : Dataset) :
  ProblemSolvingDataset_init samples options = Some self →
  Forall2 (stored_solving_sample options) samples (data self)
  ∧ trimmed_sequences self = length (filter (overflows options) (data self)).
Proof.
  unfold ProblemSolvingDataset_init. intros Hinit.
  apply ProblemSolvingDataset_loop_spec in Hinit
    as (stored & Hdata & Hstored & Htrim).
  simpl in Hdata, Htrim. by subst stored.
Qed.

(** ** AnswerScoringDataset.__getitem__ *)

Lemma other_answers_spec sample pool examples :
  other_answers sample pool = Some examples →
  Forall (other_log sample) examples ∧ examples ⊆ pool.
Proof.
  revert examples. induction pool as [|example pool IH]; intros examples; simpl.
  - intros [= <-]. done.
  - destruct (meta example !! "problem_log_id") as [a|] eqn:Ha; [|done].
    simpl.
    destruct (meta sample !! "problem_log_id") as [b|] eqn:Hb; [|done].
    simpl. destruct (other_answers sample pool) as [rest|]; [|done].
    simpl. intros [= <-]. destruct (IH rest eq_refl) as [Hlog Hsub].
    destruct (decide (a ≠ b)).
    + split; [|by apply list_subseteq_skip]. constructor; [|done].
      by exists a, b.
    + split; [done|by apply list_subseteq_cons].
Qed.

Lemma add_examples_spec self examples :
  ∀ base_len example_sequences out,
    add_examples self examples base_len example_sequences = Some out →
    ∃ chosen added,
      out = example_sequences ++ added
      ∧ chosen `prefix_of` examples
      ∧ Forall2 (worked_example self) chosen added.
Proof.
  induction examples as [|example examples IH];
    intros base_len example_sequences out; simpl.
  - intros [= <-]. exists [], []. rewrite app_nil_r. done.
  - destruct (meta example !! "label") as [label|] eqn:Hlabel; [|done].
    simpl.
    destruct (grade_to_score_seq self !! label) as [score_seq|] eqn:Hscore;
      [|done].
    simpl. destruct (decide _) as [Hfull|Hfits].
    + intros [= <-]. exists [], []. rewrite app_nil_r.
      split; [done|]. split; [apply prefix_nil|constructor].
    + intros Hrest. apply IH in Hrest as (chosen & added & -> & Hpre & Hall).
      exists (example :: chosen),
             ((example_prefix_seq self +ₛ example +ₛ score_seq) :: added).
      split; [by rewrite <- app_assoc|]. split; [by apply prefix_cons|].
      constructor; [|done]. by exists label, score_seq.
Qed.

Section RandomSource.

(** What the code relies on from [random.sample] and [random.shuffle]: the
    sample is drawn from the population, and shuffling permutes. *)
Hypothesis random_sample_subset :
  ∀ rng population k, (random_sample rng population k).1 ⊆ population.
Hypothesis random_shuffle_permutation :
  ∀ rng l, (random_shuffle rng l).1 ≡ₚ l.

Lemma gather_grade_spec self sample problem_id state grade state' :
  let eligible example :=
    other_log sample example ∧ in_example_bank self problem_id example in
  gather_grade self sample problem_id state grade = Some state' →
  Forall eligible state.1.1 ∧ Forall eligible state.1.2 →
  Forall eligible state'.1.1 ∧ Forall eligible state'.1.2.
Proof.
  intros eligible. destruct state as [[initial additional] rng].
  unfold gather_grade.
  destruct (example_bank self !! problem_id) as [bank|] eqn:Hbank; [|done].
  simpl.
  destruct (bank !! Z.of_nat grade) as [pool|] eqn:Hpool; [|done]. simpl.
  destruct (other_answers sample pool) as [examples|] eqn:Hothers; [|done].
  simpl. apply other_answers_spec in Hothers as [Hlog Hsub].
  destruct examples as [|example examples]; [by intros [= <-]|].
  set (population := example :: examples) in *.
  pose proof (random_sample_subset rng population (length population `min` 5))
    as Hsampled.
  destruct (random_sample rng population (length population `min` 5))
    as [sampled rng1].
  simpl in Hsampled.
  destruct (sampled !! 0) as [first|] eqn:Hfirst; [|done]. simpl.
  intros [= <-] [Hinitial Hadditional]. simpl.
  assert (Hall : Forall eligible sampled).
  { apply Forall_forall. intros e He. split.
    - eapply Forall_forall; [exact Hlog|]. by apply Hsampled.
    - exists bank, (Z.of_nat grade), pool.
      split; [done|]. split; [done|]. by apply Hsub, Hsampled. }
  split.
  - apply Forall_app. split; [done|]. constructor; [|done].
    eapply Forall_forall; [exact Hall|]. by eapply list_elem_of_lookup_2.
  - apply Forall_app. split; [done|]. by apply Forall_drop.
Qed.

Lemma gather_examples_spec self sample problem_id grades :
  let eligible example :=
    other_log sample example ∧ in_example_bank self problem_id example in
  ∀ state state',
    gather_examples self sample problem_id grades state = Some state' →
    Forall eligible state.1.1 ∧ Forall eligible state.1.2 →
    Forall eligible state'.1.1 ∧ Forall eligible state'.1.2.
Proof.
  intros eligible. induction grades as [|grade grades IH];
    intros state state'; simpl.
  - by intros [= <-].
  - destruct (gather_grade self sample problem_id state grade)
      as [state1|] eqn:Hgrade; [|done].
    simpl. intros Hrest Hstate. apply (IH _ _ Hrest).
    by apply (gather_grade_spec _ _ _ _ _ _ Hgrade).
Qed.

(** C10: the sequence that [__getitem__] returns is assembled from the
    question, the scores, worked examples and the answer to score, and every
    answer used as a worked example is in the example bank of the problem and
    has a [problem_log_id] different from that of the answer being scored. *)
Theorem AnswerScoringDataset_getitem_excludes_sample
    (self : AnswerScoringDataset) (rng : Rng) (index : Z)
    (sequence : Sequence) (rng' : Rng) :
  AnswerScoringDataset_getitem self rng index = Some (sequence, rng') →
  ∃ sample problem_id problem_sequence label examples example_sequences,
    Py.getitem (as_data self) index = Some sample
    ∧ meta sample !! "problem_id" = Some problem_id
    ∧ problems self !! problem_id = Some problem_sequence
    ∧ meta sample !! "label" = Some label
    ∧ Forall2 (worked_example self) examples example_sequences
    ∧ Forall (λ example, other_log sample example
                         ∧ in_example_bank self problem_id example) examples
    ∧ sequence
      = set_meta
          (foldl seq_add
             (qs_prefix_seq self +ₛ problem_sequence +ₛ scores_seq self)
             example_sequences
           +ₛ (answer_prefix_seq self +ₛ sample +ₛ cls_seq self))
          {[ "label" := label ]}.
Proof.
  unfold AnswerScoringDataset_getitem. intros Hget.
  destruct (Py.getitem (as_data self) index) as [sample|] eqn:Hsample;
    [|done].
  simpl in Hget.
  destruct (meta sample !! "problem_id") as [problem_id|] eqn:Hid; [|done].
  simpl in Hget.
  destruct (problems self !! problem_id) as [problem_sequence|] eqn:Hproblem;
    [|done].
  simpl in Hget.
  set (eligible := λ example,
         other_log sample example
         ∧ in_example_bank self problem_id example).
  destruct (match example_bank self !! problem_id with
            | Some _ => _
            | None => _
            end) as [[[initial additional] rng1]|] eqn:Hgather; [|done].
  assert (Hgathered : Forall eligible initial ∧ Forall eligible additional).
  { destruct (example_bank self !! problem_id).
    - by apply (gather_examples_spec _ _ _ _ _ _ Hgather).
    - by injection Hgather as <- <- <-. }
  destruct Hgathered as [Hinitial Hadditional].
  simpl in Hget.
  pose proof (random_shuffle_permutation rng1 initial) as Hperm1.
  destruct (random_shuffle rng1 initial) as [initial' rng2].
  pose proof (random_shuffle_permutation rng2 additional) as Hperm2.
  destruct (random_shuffle rng2 additional) as [additional' rng3].
  simpl in Hperm1, Hperm2.
  destruct (add_examples self (initial' ++ additional') _ [])
    as [example_sequences|] eqn:Hadd; [|done].
  simpl in Hget.
  destruct (meta sample !! "label") as [label|] eqn:Hlabel; [|done].
  simpl in Hget. injection Hget as <- <-.
  apply add_examples_spec in Hadd as (chosen & added & -> & Hpre & Hworked).
  exists sample, problem_id, problem_sequence, label, chosen, added.
  do 4 (split; [done|]). split; [done|]. split; [|done].
  destruct Hpre as [rest Hrest].
  assert (Hall : Forall eligible (initial' ++ additional')).
  { apply Forall_app. split.
    - by rewrite Hperm1.
    - by rewrite Hperm2. }
  rewrite Hrest in Hall. by apply Forall_app in Hall as [? _].
Qed.

End RandomSource.

(** ** split_sequence: text-only sequences, empty pieces, a maximum of 0 *)

Lemma split_text_only_fuel max_seq_len :
  1 ≤ max_seq_len →
  ∀ fuel sequence,
    length (token_types sequence) = seq_len sequence →
    Forall (λ t, t = TEXT) (token_types sequence) →
    seq_len sequence < fuel →
    ∃ out,
      split_sequence_fuel fuel sequence max_seq_len = Done out
      ∧ join_channels out = channels sequence
      ∧ Forall (λ piece, seq_len piece ≤ max_seq_len) out
      ∧ ∀ i piece, out !! i = Some piece → S i < length out →
          seq_len piece = max_seq_len.
Proof.
  intros HL. induction fuel as [|fuel IH]; intros s Hlen Htext Hfuel; [lia|].
  simpl. unfold split_step. change (length (token_ids s)) with (seq_len s).
  destruct (decide (seq_len s ≤ max_seq_len)) as [Hfit|Hlong].
  { exists [s]. split; [done|]. split.
    - unfold join_channels, channels. simpl. by rewrite !app_nil_r.
    - split; [by constructor|]. intros i piece _ Hi. simpl in Hi. lia. }
  destruct (lookup_lt_is_Some_2 (token_types s) max_seq_len) as [t Ht]; [lia|].
  rewrite Ht.
  assert (t = TEXT) as ->.
  { eapply (Forall_forall (λ t, t = TEXT)); [exact Htext|].
    by eapply list_elem_of_lookup_2. }
  rewrite decide_True by done. unfold split_at.
  set (post := mkSequence _ (drop _ _) _ _ _ _ _).
  destruct (IH post) as (out & -> & Hjoin & Hall & Hfull).
  - unfold post, seq_len in *; simpl. rewrite !length_drop. lia.
  - by apply Forall_drop.
  - unfold post, seq_len in *; simpl. rewrite length_drop. lia.
  - eexists. split; [done|]. split; [|split].
    + unfold join_channels, channels in *.
      injection Hjoin as H1 H2 H3 H4 H5.
      cbn [app]. rewrite !fmap_cons.
      assert (Hcons : ∀ A (x : list A) l, mjoin (x :: l) = x ++ mjoin l)
        by done.
      rewrite !Hcons, H1, H2, H3, H4, H5. unfold post; cbn [token_ids token_types
        pos_vecs pos_levels gpt_tokens].
      by rewrite !take_drop.
    + constructor; [|done]. unfold seq_len; simpl. rewrite length_take. lia.
    + intros [|i] piece; simpl.
      * intros [= <-] _. unfold seq_len in *; simpl. rewrite length_take. lia.
      * intros Hi Hlast. apply (Hfull i); [done|lia].
Qed.

(** X1: a sequence of text tokens only is cut into consecutive pieces whose
    channels, put end to end, are the channels of the sequence: nothing is
    dropped, no piece is longer than the maximum, and every piece but the last
    has exactly the maximum length. *)
Theorem split_sequence_text_only (sequence : Sequence) (max_seq_len : nat) :
  1 ≤ max_seq_len →
  length (token_types sequence) = seq_len sequence →
  Forall (λ t, t = TEXT) (token_types sequence) →
  ∃ out,
    split_sequence sequence max_seq_len = Done out
    ∧ join_channels out = channels sequence
    ∧ Forall (λ piece, seq_len piece ≤ max_seq_len) out
    ∧ ∀ i piece, out !! i = Some piece → S i < length out →
        seq_len piece = max_seq_len.
Proof.
  intros HL Hlen Htext. apply split_text_only_fuel; [done..|lia].
Qed.

Lemma split_nonempty_fuel max_seq_len :
  1 ≤ max_seq_len →
  ∀ fuel sequence out,
    0 < seq_len sequence →
    split_sequence_fuel fuel sequence max_seq_len = Done out →
    Forall (λ piece, 0 < seq_len piece) out.
Proof.
  intros HL. induction fuel as [|fuel IH]; intros s out Hpos; [done|].
  simpl. unfold split_step, split_at.
  change (length (token_ids s)) with (seq_len s).
  assert (Hrec : ∀ n emit,
    0 < n < seq_len s →
    Forall (λ piece, 0 < seq_len piece) emit →
    match split_sequence_fuel fuel
            (mkSequence (name s) (drop n (token_ids s))
               (drop n (token_types s)) (drop n (pos_vecs s))
               (drop n (pos_levels s)) (drop n (gpt_tokens s)) ∅)
            max_seq_len with
    | Done out0 => Done (emit ++ out0)
    | o0 => o0
    end = Done out →
    Forall (λ piece, 0 < seq_len piece) out).
  { intros n emit Hn Hemit Hrun.
    destruct (split_sequence_fuel fuel _ max_seq_len) as [out0| |] eqn:Hrest;
      [|done..].
    injection Hrun as <-. apply Forall_app. split; [done|].
    eapply IH; [|exact Hrest].
    unfold seq_len in *; simpl. rewrite length_drop. lia. }
  assert (Hpre : ∀ n, 0 < n →
    Forall (λ piece, 0 < seq_len piece)
      [mkSequence (name s) (take n (token_ids s)) (take n (token_types s))
         (take n (pos_vecs s)) (take n (pos_levels s))
         (take n (gpt_tokens s)) ∅]).
  { intros n Hn. constructor; [|done]. unfold seq_len in *; simpl.
    rewrite length_take. lia. }
  destruct (decide (seq_len s ≤ max_seq_len)) as [Hfit|Hlong].
  { intros [= <-]. by constructor. }
  destruct (token_types s !! max_seq_len) as [t|]; [|done].
  destruct (decide (t = TEXT)).
  { apply Hrec; [lia|]. apply Hpre. lia. }
  destruct (next_text _ (reverse _)) as [[[|p]|]|] eqn:Hback; [| | |done].
  2:{ apply next_text_down_Some in Hback as [Hp _].
      apply Hrec; [lia|]. apply Hpre. lia. }
  all: destruct (next_text _ (seq _ _)) as [[[|e]|]|] eqn:Hfwd;
    [by intros [= <-]| |by intros [= <-]|done].
  all: apply next_text_seq_Some in Hfwd as (He & _ & _).
  all: apply Hrec; [lia|done].
Qed.

(** X2: for a maximum length of at least 1, no piece that [split_sequence]
    returns for a non-empty sequence is empty. *)
Theorem split_sequence_pieces_nonempty (sequence : Sequence)
    (max_seq_len : nat) (out : list Sequence) :
  1 ≤ max_seq_len → 0 < seq_len sequence →
  split_sequence sequence max_seq_len = Done out →
  Forall (λ piece, 0 < seq_len piece) out.
Proof. intros HL Hpos. by apply split_nonempty_fuel. Qed.

Lemma split_zero_fuel fuel :
  ∀ sequence,
    0 < seq_len sequence →
    token_types sequence !! 0 = Some TEXT →
    split_sequence_fuel fuel sequence 0 = OutOfFuel.
Proof.
  induction fuel as [|fuel IH]; intros s Hpos Htext; [done|].
  simpl. unfold split_step. rewrite decide_False by (unfold seq_len in *; lia).
  rewrite Htext, decide_True by done. unfold split_at.
  rewrite IH; [done|done|done].
Qed.

(** X3: with a maximum length of 0, [split_sequence] returns at no recursion
    depth for a sequence that holds a text token: every call recurses on a
    sequence that still holds it. *)
Theorem split_sequence_zero_never_returns (sequence : Sequence) (k : nat) :
  length (token_types sequence) = seq_len sequence →
  token_types sequence !! k = Some TEXT →
  ∀ fuel, split_sequence_fuel fuel sequence 0 = OutOfFuel.
Proof.
  intros Hlen Hk fuel. destruct fuel as [|fuel]; [done|].
  pose proof (lookup_lt_Some _ _ _ Hk) as Hklen.
  destruct (token_types sequence !! 0) as [t|] eqn:H0;
    [|apply lookup_ge_None in H0; lia].
  destruct (decide (t = TEXT)) as [->|Hne].
  { apply split_zero_fuel; [lia|done]. }
  simpl. unfold split_step.
  rewrite decide_False by (unfold seq_len in *; lia).
  rewrite H0, decide_False by done. simpl.
  destruct (next_text_in_range (token_types sequence)
              (seq 0 (length (token_ids sequence) - 0))) as [r Hr].
  { apply Forall_forall. intros i [_ ?]%elem_of_seq. unfold seq_len in *. lia. }
  rewrite Hr. destruct r as [[|e]|].
  - apply next_text_seq_Some in Hr as (_ & ? & _). congruence.
  - apply next_text_seq_Some in Hr as (He & Hty & _).
    unfold split_at. rewrite split_zero_fuel; [done| |].
    + unfold seq_len in *; simpl. rewrite length_drop. lia.
    + simpl. rewrite lookup_drop. by rewrite Nat.add_0_r.
  - apply next_text_seq_None with (k := k) in Hr; [done|].
    unfold seq_len in *. lia.
Qed.

(** ** tokenize_sequence: invariants of the built sequence *)

Lemma tokenize_loop_invariant (P : Sequence → Prop) formulas options
    num_chunks :
  (∀ sequence num_missing idx text_chunk,
     P sequence →
     P (tokenize_chunk formulas options num_chunks (sequence, num_missing)
          idx text_chunk).1) →
  ∀ text_chunks idx sequence num_missing,
    P sequence →
    P (tokenize_loop formulas options num_chunks idx text_chunks
         (sequence, num_missing)).1.
Proof.
  intros Hstep. induction text_chunks as [|text_chunk rest IH];
    intros idx sequence num_missing HP; [done|].
  cbn [tokenize_loop].
  destruct (tokenize_chunk formulas options num_chunks
              (sequence, num_missing) idx text_chunk)
    as [sequence' num_missing'] eqn:Hchunk.
  apply IH. specialize (Hstep sequence num_missing idx text_chunk HP).
  by rewrite Hchunk in Hstep.
Qed.

Lemma add_text_tokens_tokenized options nm s ids :
  tokenized options nm s → tokenized options nm (add_text_tokens options s ids).
Proof.
  intros (Hname & Hmeta & Hty & Hvec & Hlev & Hgpt).
  unfold tokenized, add_text_tokens, seq_len in *. simpl.
  split; [done|]. split; [done|].
  rewrite !length_app, !length_replicate.
  destruct (shared_emb options);
    rewrite ?length_app, ?length_replicate; lia.
Qed.

Lemma add_marker_tokenized options nm s marker :
  tokenized options nm s → tokenized options nm (add_marker options s marker).
Proof.
  intros (Hname & Hmeta & Hty & Hvec & Hlev & Hgpt).
  unfold tokenized, add_marker, seq_len in *. simpl.
  split; [done|]. split; [done|].
  rewrite !length_app. simpl.
  destruct (shared_emb options); rewrite ?length_app; simpl; lia.
Qed.

Lemma add_formula_tokenized options nm s fs :
  formula_lock_step options fs →
  tokenized options nm s → tokenized options nm (add_formula options s fs).
Proof.
  intros (Hfty & Hfvec & Hflev & Hfgpt) (Hname & Hmeta & Hty & Hvec & Hlev & Hgpt).
  unfold tokenized, add_formula, seq_len in *. simpl.
  split; [done|]. split; [done|].
  rewrite !length_app.
  destruct (shared_emb options); rewrite ?length_app;
    [specialize (Hfgpt eq_refl)|]; lia.
Qed.

Lemma tokenize_sequence_tokenized nm text formulas options sequence
    num_missing :
  (∀ key formula, formulas !! key = Some formula →
     formula_lock_step options (tokenize_formula (opt formula) options)) →
  tokenize_sequence nm text formulas options = Some (sequence, num_missing) →
  tokenized options nm sequence.
Proof.
  intros Hformulas. unfold tokenize_sequence.
  destruct (Py.split text FORMULA_IDENTIFIER) as [text_chunks|]; [|done].
  simpl. intros [= Hloop].
  replace sequence
    with (tokenize_loop formulas options (length text_chunks) 0 text_chunks
            (new_sequence nm, 0)).1 by (by rewrite Hloop).
  apply tokenize_loop_invariant;
    [|repeat split; try done; simpl; by destruct (shared_emb options)].
  intros s k idx text_chunk Hs. unfold tokenize_chunk.
  destruct (decide _); [by apply add_text_tokens_tokenized|].
  destruct (formulas !! Py.str idx) as [formula|] eqn:Hformula;
    [|by apply add_text_tokens_tokenized].
  destruct (baseline options); simpl.
  - by do 2 apply add_text_tokens_tokenized.
  - apply add_marker_tokenized, add_formula_tokenized; [by eapply Hformulas|].
    by apply add_marker_tokenized, add_text_tokens_tokenized.
Qed.

Lemma tokenized_well_formed options nm s :
  tokenized options nm s → well_formed s.
Proof.
  intros (Hname & Hmeta & Hty & Hvec & Hlev & Hgpt).
  split; [done|]. split; [done|]. split; [done|].
  rewrite Hgpt. destruct (shared_emb options); [by right|left].
  by apply nil_length_inv.
Qed.

(** X4: when the formula tokenizer gives sequences whose channels run in
    lock-step, the sequence that [tokenize_sequence] builds is well formed,
    carries the name it was given and no metadata, and its sub-token channel
    has one entry per token when sub-token sharing is enabled and is empty
    otherwise. *)
Theorem tokenize_sequence_well_formed (article_name text : string)
    (formulas : gmap string Formula) (options : TrainOptions)
    (sequence : Sequence) (num_missing : nat) :
  (∀ key formula, formulas !! key = Some formula →
     formula_lock_step options (tokenize_formula (opt formula) options)) →
  tokenize_sequence article_name text formulas options
    = Some (sequence, num_missing) →
  well_formed sequence
  ∧ name sequence = article_name
  ∧ meta sequence = ∅
  ∧ length (gpt_tokens sequence)
    = (if shared_emb options then seq_len sequence else 0).
Proof.
  intros Hformulas Htok.
  pose proof (tokenize_sequence_tokenized _ _ _ _ _ _ Hformulas Htok) as Hinv.
  split; [by eapply tokenized_well_formed|].
  by destruct Hinv as (Hname & Hmeta & _ & _ & _ & Hgpt).
Qed.

(** X5: under the [baseline] option every token of the sequence is a text
    token with the empty position vector and level 0, whatever formulas the
    article has. *)
Theorem tokenize_sequence_baseline_text (name text : string)
    (formulas : gmap string Formula) (options : TrainOptions)
    (sequence : Sequence) (num_missing : nat) :
  baseline options = true →
  tokenize_sequence name text formulas options = Some (sequence, num_missing) →
  Forall (λ t, t = TEXT) (token_types sequence)
  ∧ Forall (λ pos_vec, pos_vec = EMPTY_POS_VECTOR) (pos_vecs sequence)
  ∧ Forall (λ pos_level, pos_level = 0%Z) (pos_levels sequence).
Proof.
  intros Hbase. unfold tokenize_sequence.
  destruct (Py.split text FORMULA_IDENTIFIER) as [text_chunks|]; [|done].
  simpl. intros [= Hloop].
  replace sequence
    with (tokenize_loop formulas options (length text_chunks) 0 text_chunks
            (new_sequence name, 0)).1 by (by rewrite Hloop).
  apply (tokenize_loop_invariant
           (λ s, Forall (λ t, t = TEXT) (token_types s)
                 ∧ Forall (λ v, v = EMPTY_POS_VECTOR) (pos_vecs s)
                 ∧ Forall (λ l, l = 0%Z) (pos_levels s)));
    [|by repeat split].
  assert (Htext : ∀ s ids,
    Forall (λ t, t = TEXT) (token_types s)
    ∧ Forall (λ v, v = EMPTY_POS_VECTOR) (pos_vecs s)
    ∧ Forall (λ l, l = 0%Z) (pos_levels s) →
    Forall (λ t, t = TEXT) (token_types (add_text_tokens options s ids))
    ∧ Forall (λ v, v = EMPTY_POS_VECTOR)
        (pos_vecs (add_text_tokens options s ids))
    ∧ Forall (λ l, l = 0%Z) (pos_levels (add_text_tokens options s ids))).
  { intros s ids (Hty & Hvec & Hlev). simpl.
    repeat split; apply Forall_app; (split; [done|]);
      by apply Forall_replicate. }
  intros s k idx text_chunk Hs. unfold tokenize_chunk.
  destruct (decide _); [by apply Htext|].
  destruct (formulas !! Py.str idx) as [formula|]; [|by apply Htext].
  rewrite Hbase. cbn [fst]. by do 2 apply Htext.
Qed.

Lemma count_type_app token_type types1 types2 :
  count_type token_type (types1 ++ types2)
  = count_type token_type types1 + count_type token_type types2.
Proof. unfold count_type. by rewrite filter_app, length_app. Qed.

Lemma count_type_replicate token_type n t :
  t ≠ token_type → count_type token_type (replicate n t) = 0.
Proof.
  intros Hne. unfold count_type. induction n as [|n IH]; [done|].
  simpl. by rewrite filter_cons, decide_False.
Qed.

Lemma chunk_types_markers formulas options marker text_chunks :
  baseline options = false →
  marker = START_FORMULA ∨ marker = END_FORMULA →
  (∀ key formula, formulas !! key = Some formula →
     count_type marker (token_types (tokenize_formula (opt formula) options))
     = 0) →
  ∀ idx,
    count_type marker (chunk_types formulas options idx text_chunks)
    + missing_placeholders formulas idx (length text_chunks - 1)
    = length text_chunks - 1.
Proof.
  intros Hbase Hmarker Hformulas.
  induction text_chunks as [|text_chunk rest IH]; intros idx; [done|].
  cbn [chunk_types]. rewrite count_type_app, count_type_replicate
    by (destruct Hmarker as [-> | ->]; done).
  destruct rest as [|text_chunk' rest]; [done|].
  set (rest' := text_chunk' :: rest) in *.
  replace (length (text_chunk :: rest') - 1) with (S (length rest' - 1))
    by (simpl; lia).
  rewrite missing_placeholders_S, count_type_app.
  specialize (IH (S idx)). unfold formula_types.
  destruct (formulas !! Py.str idx) as [formula|] eqn:Hformula.
  - rewrite Hbase, !count_type_app, (Hformulas _ _ Hformula).
    assert (count_type marker [START_FORMULA]
            + count_type marker [END_FORMULA] = 1) as Hone
      by (destruct Hmarker as [-> | ->]; done).
    simpl in *. lia.
  - change (count_type marker []) with 0. simpl in *. lia.
Qed.

(** X6: outside the baseline, and with a formula tokenizer that emits no
    start or end markers itself, the sequence has one start marker and one end
    marker per placeholder whose formula is present: the markers and the
    missing formulas together count the placeholders of the text. *)
Theorem tokenize_sequence_markers (name text : string)
    (formulas : gmap string Formula) (options : TrainOptions)
    (sequence : Sequence) (num_missing : nat) :
  baseline options = false →
  (∀ key formula, formulas !! key = Some formula →
     count_type START_FORMULA
       (token_types (tokenize_formula (opt formula) options)) = 0
     ∧ count_type END_FORMULA
         (token_types (tokenize_formula (opt formula) options)) = 0) →
  tokenize_sequence name text formulas options = Some (sequence, num_missing) →
  ∃ text_chunks,
    Py.split text FORMULA_IDENTIFIER = Some text_chunks
    ∧ count_type START_FORMULA (token_types sequence) + num_missing
      = length text_chunks - 1
    ∧ count_type END_FORMULA (token_types sequence) + num_missing
      = length text_chunks - 1.
Proof.
  intros Hbase Hformulas. unfold tokenize_sequence.
  destruct (Py.split text FORMULA_IDENTIFIER) as [text_chunks|]; [|done].
  simpl. intros [= Hloop]. exists text_chunks. split; [done|].
  destruct (tokenize_loop_spec formulas options (length text_chunks)
              text_chunks 0 (new_sequence name) 0)
    as (sequence' & Hloop' & Htypes & _); [done|].
  rewrite Hloop in Hloop'. injection Hloop' as <- ->.
  rewrite Htypes. simpl. split.
  - apply chunk_types_markers; [done|by left|].
    intros key formula Hkey. by apply (Hformulas key).
  - apply chunk_types_markers; [done|by right|].
    intros key formula Hkey. by apply (Hformulas key).
Qed.

Lemma structural_replicate (n : nat) :
  Forall (λ '(token_type, (pos_vec, pos_level)),
            is_structural token_type = true →
            pos_vec = EMPTY_POS_VECTOR ∧ pos_level = 0%Z)
    (zip (replicate n TEXT)
       (zip (replicate n EMPTY_POS_VECTOR) (replicate n 0%Z))).
Proof. induction n as [|n IH]; [done|]. simpl. by constructor. Qed.

Lemma positioned_app s types vecs levels gpt :
  positioned s →
  length types = length vecs → length vecs = length levels →
  Forall (λ '(token_type, (pos_vec, pos_level)),
            is_structural token_type = true →
            pos_vec = EMPTY_POS_VECTOR ∧ pos_level = 0%Z)
    (zip types (zip vecs levels)) →
  ∀ nm ids m,
    positioned
      (mkSequence nm ids (token_types s ++ types) (pos_vecs s ++ vecs)
         (pos_levels s ++ levels) gpt m).
Proof.
  intros (Hl1 & Hl2 & Hs) Hn1 Hn2 Hnew nm ids m.
  unfold positioned, structural_positions_empty in *. simpl.
  rewrite !length_app. split; [lia|]. split; [lia|].
  rewrite (zip_with_app _ (pos_vecs s)) by done.
  rewrite zip_with_app by (by rewrite length_zip_with, <- Hl2, Nat.min_id).
  by apply Forall_app.
Qed.

(** X7: every text, formula-start and formula-end token of the sequence that
    [tokenize_sequence] builds has the empty position vector and level 0, when
    this holds of the sequences of the formula tokenizer. *)
Theorem tokenize_sequence_structural_positions (name text : string)
    (formulas : gmap string Formula) (options : TrainOptions)
    (sequence : Sequence) (num_missing : nat) :
  (∀ key formula, formulas !! key = Some formula →
     formula_lock_step options (tokenize_formula (opt formula) options)
     ∧ structural_positions_empty (tokenize_formula (opt formula) options)) →
  tokenize_sequence name text formulas options = Some (sequence, num_missing) →
  structural_positions_empty sequence.
Proof.
  intros Hformulas. unfold tokenize_sequence.
  destruct (Py.split text FORMULA_IDENTIFIER) as [text_chunks|]; [|done].
  simpl. intros [= Hloop].
  replace sequence
    with (tokenize_loop formulas options (length text_chunks) 0 text_chunks
            (new_sequence name, 0)).1 by (by rewrite Hloop).
  cut (positioned
         (tokenize_loop formulas options (length text_chunks) 0 text_chunks
            (new_sequence name, 0)).1); [by intros (_ & _ & ?)|].
  apply (tokenize_loop_invariant positioned);
    [|split; [done|]; split; [done|]; constructor].
  assert (Htext : ∀ s ids,
    positioned s → positioned (add_text_tokens options s ids)).
  { intros s ids Hs. apply positioned_app;
      [done|by rewrite !length_replicate..|apply structural_replicate]. }
  assert (Hmarker : ∀ s marker,
    positioned s → positioned (add_marker options s marker)).
  { intros s marker Hs. apply positioned_app; [done..|].
    by constructor. }
  intros s k idx text_chunk Hs. unfold tokenize_chunk.
  destruct (decide _); [by apply Htext|].
  destruct (formulas !! Py.str idx) as [formula|] eqn:Hformula;
    [|by apply Htext].
  destruct (baseline options); cbn [fst]; [by do 2 apply Htext|].
  destruct (Hformulas _ _ Hformula) as [(Hty & Hvec & Hlev & _) Hpos].
  apply Hmarker. apply positioned_app;
    [by apply Hmarker, Htext|unfold seq_len in *; lia..|done].
Qed.

(** ** Collator: failure, shape and labels *)

Lemma collate_sequence_is_Some self max_gpt_token_len s :
  is_Some (collate_sequence self max_gpt_token_len s)
  ↔ ∀ t, task self = Some t → is_Some (meta s !! task_key t).
Proof.
  unfold collate_sequence, task_key. destruct (task self) as [t|].
  - destruct (is_cls_task t) eqn:Hcls; split.
    + intros Hsome t' [= <-]. rewrite Hcls.
      destruct (meta s !! "label"); [by eexists|by destruct Hsome].
    + intros Hkey. specialize (Hkey t eq_refl). rewrite Hcls in Hkey.
      destruct Hkey as [label ->]. by eexists.
    + intros Hsome t' [= <-]. rewrite Hcls.
      destruct (meta s !! "prompt_length"); [by eexists|by destruct Hsome].
    + intros Hkey. specialize (Hkey t eq_refl). rewrite Hcls in Hkey.
      destruct Hkey as [p ->]. by eexists.
  - split; [done|]. by eexists.
Qed.

(** The collated batch in terms of the rows of the loop. *)
Lemma Collator_call_rows self batch collated :
  Collator_call self batch = Some collated →
  ∃ max_gpt_token_len rows,
    batch ≠ []
    ∧ (if shared_emb (options self)
       then py_max (length <$> (batch ≫= gpt_tokens))
       else Some 0) = Some max_gpt_token_len
    ∧ Forall2 (λ s row, collate_sequence self max_gpt_token_len s = Some row)
        batch rows
    ∧ collated
      = {| sources := name <$> batch;
           cb_token_ids := pad_rows PADDING_TOKEN_ID (row_token_ids <$> rows);
           cb_token_types := pad_rows TEXT (row_token_types <$> rows);
           cb_pos_vecs :=
             pad_rows (replicate (trailing_dim (row_pos_vecs <$> rows)) 0%Z)
               (row_pos_vecs <$> rows);
           cb_pos_levels := pad_rows 0%Z (row_pos_levels <$> rows);
           cb_pos_encodings :=
             pad_if_any
               (replicate (trailing_dim (omap row_pos_encodings rows))
                  float_zero)
               (omap row_pos_encodings rows);
           cb_gpt_tokens :=
             pad_if_any
               (replicate (trailing_dim (omap row_gpt_tokens rows))
                  PADDING_TOKEN_ID)
               (omap row_gpt_tokens rows);
           cb_use_shared_emb := pad_if_any false (omap row_use_shared_emb rows);
           attention_mask := pad_rows float_zero (row_attention_mask <$> rows);
           sequence_lengths := row_sequence_length <$> rows;
           prompt_lengths := tensor_if_any (omap row_prompt_length rows);
           gen_labels := pad_if_any PADDING_TOKEN_ID (omap row_gen_label rows);
           cls_labels := tensor_if_any (omap row_cls_label rows) |}.
Proof.
  unfold Collator_call. intros Hcall.
  destruct (if shared_emb (options self) then _ else _) as [m|] eqn:Hmax;
    [|done].
  simpl in Hcall.
  destruct (mapM (collate_sequence self m) batch) as [rows|] eqn:Hrows;
    [|done].
  apply mapM_Some in Hrows. simpl in Hcall.
  assert (batch ≠ []) as Hne.
  { intros ->. apply Forall2_nil_inv_l in Hrows as ->. done. }
  assert (rows ≠ []) as Hrows_ne.
  { intros ->. apply Forall2_nil_inv_r in Hrows. done. }
  assert (Hpad : ∀ (A : Type) (x : A) (f : CollatedRow → list A),
            pad_sequence x (f <$> rows) = Some (pad_rows x (f <$> rows))).
  { intros A x f. destruct rows; done. }
  rewrite !Hpad in Hcall. simpl in Hcall. injection Hcall as <-.
  by exists m, rows.
Qed.

(** X8: [Collator.__call__] returns only for a batch that is not empty, that
    has a sub-token list when sub-token sharing is enabled, and in which every
    sequence has the metadata key of the task when a task is set; for every
    other batch it raises. *)
Theorem Collator_call_collatable (self : Collator) (batch : list Sequence)
    (collated : CollatedBatch) :
  Collator_call self batch = Some collated → collatable self batch.
Proof.
  intros Hcall.
  apply Collator_call_rows in Hcall as (m & rows & Hne & Hmax & Hrows & _).
  split; [done|]. split.
  - intros Hshared. rewrite Hshared in Hmax. intros Hnil.
    by rewrite Hnil in Hmax.
  - intros t Ht. apply Forall_forall. intros s Hs.
    apply list_elem_of_lookup in Hs as [i Hi].
    destruct (Forall2_lookup_l _ _ _ _ _ Hrows Hi) as (row & _ & Hrow).
    by apply (collate_sequence_is_Some self m s); [eexists|].
Qed.

Lemma pad_rows_lengths {A : Type} (padding_value : A) sequences :
  Forall (λ row, length row = max_list (length <$> sequences))
    (pad_rows padding_value sequences).
Proof.
  unfold pad_rows. apply Forall_fmap, Forall_forall. intros s Hs. simpl.
  rewrite length_app, length_replicate.
  assert (length s ≤ max_list (length <$> sequences)); [|lia].
  apply max_list_elem_of_le, list_elem_of_fmap. by exists s.
Qed.

Lemma collate_rows_channels self max_gpt_token_len batch rows :
  Forall2 (λ s row, collate_sequence self max_gpt_token_len s = Some row)
    batch rows →
  row_token_ids <$> rows = token_ids <$> batch
  ∧ row_token_types <$> rows = token_types <$> batch
  ∧ row_pos_vecs <$> rows = pos_vecs <$> batch
  ∧ row_pos_levels <$> rows = pos_levels <$> batch
  ∧ row_attention_mask <$> rows
    = (λ s, replicate (seq_len s) float_one) <$> batch
  ∧ row_sequence_length <$> rows = (λ s, Z.of_nat (seq_len s)) <$> batch.
Proof.
  induction 1 as [|s row batch rows Hrow _ IH]; [done|].
  destruct IH as (IH1 & IH2 & IH3 & IH4 & IH5 & IH6).
  rewrite !fmap_cons, IH1, IH2, IH3, IH4, IH5, IH6.
  unfold collate_sequence in Hrow.
  destruct (task self) as [t|]; [destruct (is_cls_task t)|];
    simplify_option_eq; done.
Qed.

(** X9: the collated batch has one row per sequence, in the order of the
    batch, with the names as sources and the unpadded lengths as sequence
    lengths; the token and attention-mask rows all have the length of the
    longest sequence, and so have the type, position-vector and level rows
    when the sequences are well formed. *)
Theorem Collator_call_shape (self : Collator) (batch : list Sequence)
    (collated : CollatedBatch) :
  Collator_call self batch = Some collated →
  let max_len := max_list (seq_len <$> batch) in
  sources collated = name <$> batch
  ∧ sequence_lengths collated = (λ s, Z.of_nat (seq_len s)) <$> batch
  ∧ length (cb_token_ids collated) = length batch
  ∧ Forall (λ row, length row = max_len) (cb_token_ids collated)
  ∧ Forall (λ row, length row = max_len) (attention_mask collated)
  ∧ (Forall well_formed batch →
     Forall (λ row, length row = max_len) (cb_token_types collated)
     ∧ Forall (λ row, length row = max_len) (cb_pos_vecs collated)
     ∧ Forall (λ row, length row = max_len) (cb_pos_levels collated)).
Proof.
  intros Hcall max_len.
  apply Collator_call_rows in Hcall as (m & rows & _ & _ & Hrows & ->).
  apply collate_rows_channels in Hrows
    as (Hids & Htys & Hvecs & Hlevels & Hmask & Hlens).
  simpl. rewrite Hids, Htys, Hvecs, Hlevels, Hmask, Hlens.
  assert (Hmax : ∀ (A : Type) (f : Sequence → list A),
            (∀ s, s ∈ batch → length (f s) = seq_len s) →
            max_list (length <$> (f <$> batch)) = max_len).
  { intros A f Hf. unfold max_len. f_equal. rewrite <- list_fmap_compose.
    apply list_fmap_ext. intros i s Hs. simpl. apply Hf.
    by eapply list_elem_of_lookup_2. }
  split; [done|]. split; [done|].
  split; [unfold pad_rows; by rewrite !length_fmap|].
  split; [rewrite <- (Hmax _ token_ids) by done; apply pad_rows_lengths|].
  split.
  { rewrite <- (Hmax _ (λ s, replicate (seq_len s) float_one))
      by (intros; apply length_replicate).
    apply pad_rows_lengths. }
  intros Hwf.
  assert (Hs : ∀ s, s ∈ batch → well_formed s)
    by (by apply Forall_forall).
  split; [|split].
  - rewrite <- (Hmax _ token_types) by (intros s ?; by apply Hs).
    apply pad_rows_lengths.
  - rewrite <- (Hmax _ pos_vecs) by (intros s ?; by apply Hs).
    apply pad_rows_lengths.
  - rewrite <- (Hmax _ pos_levels) by (intros s ?; by apply Hs).
    apply pad_rows_lengths.
Qed.

Lemma omap_cons_eq {A B : Type} (f : A → option B) (x : A) (l : list A) :
  omap f (x :: l)
  = match f x with Some y => y :: omap f l | None => omap f l end.
Proof. done. Qed.

Lemma collate_rows_labels self max_gpt_token_len batch rows :
  Forall2 (λ s row, collate_sequence self max_gpt_token_len s = Some row)
    batch rows →
  match task self with
  | None =>
      omap row_prompt_length rows = [] ∧ omap row_gen_label rows = []
      ∧ omap row_cls_label rows = []
  | Some t =>
      if is_cls_task t then
        omap row_prompt_length rows = [] ∧ omap row_gen_label rows = []
        ∧ Forall2 (λ s label, meta s !! "label" = Some label)
            batch (omap row_cls_label rows)
      else
        omap row_cls_label rows = []
        ∧ Forall2 (λ s p, meta s !! "prompt_length" = Some p)
            batch (omap row_prompt_length rows)
  end.
Proof.
  induction 1 as [|s row batch rows Hrow _ IH].
  { destruct (task self) as [t|]; [destruct (is_cls_task t)|]; done. }
  unfold collate_sequence in Hrow. rewrite !omap_cons_eq.
  destruct (task self) as [t|]; [destruct (is_cls_task t)|].
  - destruct (meta s !! "label") as [label|] eqn:Hlabel; [|done].
    simpl in Hrow. injection Hrow as <-.
    cbn [row_prompt_length row_gen_label row_cls_label].
    destruct IH as (IH1 & IH2 & IH3). split; [done|]. split; [done|].
    by constructor.
  - destruct (meta s !! "prompt_length") as [p|] eqn:Hp; [|done].
    simpl in Hrow. injection Hrow as <-.
    cbn [row_prompt_length row_gen_label row_cls_label].
    destruct IH as (IH1 & IH2). split; [done|]. by constructor.
  - injection Hrow as <-.
    cbn [row_prompt_length row_gen_label row_cls_label]. done.
Qed.

(** X10: which label fields the collated batch has: none without a task;
    under a classification task only the class labels, read from the [label]
    metadata in the order of the batch; under any other task no class labels
    and the prompt lengths read from [prompt_length]. *)
Theorem Collator_call_labels (self : Collator) (batch : list Sequence)
    (collated : CollatedBatch) :
  Collator_call self batch = Some collated →
  match task self with
  | None =>
      prompt_lengths collated = None ∧ gen_labels collated = None
      ∧ cls_labels collated = None
  | Some t =>
      if is_cls_task t then
        prompt_lengths collated = None ∧ gen_labels collated = None
        ∧ ∃ labels, cls_labels collated = Some labels
            ∧ Forall2 (λ s label, meta s !! "label" = Some label)
                batch labels
      else
        cls_labels collated = None
        ∧ ∃ prompts, prompt_lengths collated = Some prompts
            ∧ Forall2 (λ s p, meta s !! "prompt_length" = Some p)
                batch prompts
  end.
Proof.
  intros Hcall.
  apply Collator_call_rows in Hcall as (m & rows & Hne & _ & Hrows & ->).
  apply collate_rows_labels in Hrows. simpl.
  destruct (task self) as [t|]; [destruct (is_cls_task t)|].
  - destruct Hrows as (-> & -> & Hlabels). split; [done|]. split; [done|].
    exists (omap row_cls_label rows). split; [|done].
    destruct (omap row_cls_label rows); [|done].
    apply Forall2_nil_inv_r in Hlabels. done.
  - destruct Hrows as (-> & Hprompts). split; [done|].
    exists (omap row_prompt_length rows). split; [|done].
    destruct (omap row_prompt_length rows); [|done].
    apply Forall2_nil_inv_r in Hprompts. done.
  - by destruct Hrows as (-> & -> & ->).
Qed.

(** X11: under a generative task, and for a sequence that does not hold the
    padding token, the positions of its label row that differ from the padding
    token are exactly those from the prompt length up to the length of the
    sequence: the loss covers the generated part and neither the prompt nor
    the padding. *)
Theorem Collator_call_loss_positions (self : Collator)
    (batch : list Sequence) (collated : CollatedBatch) (t : DownstreamTask)
    (i : nat) (s : Sequence) (p : nat) :
  Collator_call self batch = Some collated →
  task self = Some t → is_cls_task t = false →
  batch !! i = Some s →
  meta s !! "prompt_length" = Some (Z.of_nat p) →
  PADDING_TOKEN_ID ∉ token_ids s →
  ∃ labels label_row,
    gen_labels collated = Some labels
    ∧ labels !! i = Some label_row
    ∧ ∀ j, j < length label_row →
        label_row !! j ≠ Some PADDING_TOKEN_ID ↔ p ≤ j < seq_len s.
Proof.
  intros Hcall Ht Hcls Hi Hp Hreal.
  apply Collator_call_rows in Hcall as (m & rows & _ & _ & Hrows & ->).
  pose proof (gen_label_batches _ _ _ _ _ Hrows Ht Hcls) as Hlabels.
  simpl. set (gens := omap row_gen_label rows) in *.
  destruct (Forall2_lookup_l _ _ _ _ _ Hlabels Hi) as (g & Hg & p' & Hp' & ->).
  assert (p' = Z.of_nat p) as -> by congruence.
  assert (Hpad : pad_if_any PADDING_TOKEN_ID gens
                 = Some (pad_rows PADDING_TOKEN_ID gens)).
  { destruct gens; [by rewrite lookup_nil in Hg|done]. }
  eexists _, _. split; [exact Hpad|]. split; [by apply pad_rows_lookup|].
  rewrite fill_prefix_length, fill_prefix_nat.
  change (length (token_ids s)) with (seq_len s).
  set (pad := max_list (length <$> gens) - seq_len s).
  intros j Hj. rewrite !length_app, !length_replicate, length_drop in Hj.
  destruct (decide (j < p `min` seq_len s)) as [Hprompt|Hrest].
  - rewrite lookup_app_l by (rewrite length_app, length_replicate; lia).
    rewrite lookup_app_l by (rewrite length_replicate; lia).
    rewrite lookup_replicate_2 by lia. split; [done|lia].
  - destruct (decide (j < seq_len s)) as [Hin|Hout].
    + rewrite lookup_app_l
        by (rewrite length_app, length_replicate, length_drop;
            unfold seq_len in *; lia).
      rewrite lookup_app_r by (rewrite length_replicate; lia).
      rewrite length_replicate, lookup_drop. split; [lia|]. intros _ Hpadj.
      apply Hreal. by eapply list_elem_of_lookup_2.
    + rewrite lookup_app_r
        by (rewrite length_app, length_replicate, length_drop;
            unfold seq_len in *; lia).
      rewrite lookup_replicate_2
        by (rewrite length_app, length_replicate, length_drop;
            unfold seq_len in *; lia).
      split; [done|lia].
Qed.

Lemma trim_tensor_wide {A : Type} (w : Z) (t : list (list A)) :
  Forall (λ row, (Z.of_nat (length row) ≤ w)%Z) t →
  trim_tensor 0 w t = t.
Proof.
  intros Hrows. unfold trim_tensor.
  rewrite <- (list_fmap_id t) at 2. apply Forall_fmap_ext.
  eapply Forall_impl; [exact Hrows|]. intros row Hrow. simpl in *.
  unfold Py.slice.
  replace (Py.slice_bound (Z.of_nat (length row)) 0) with 0%Z
    by (unfold Py.slice_bound; simpl; lia).
  simpl (Z.to_nat 0). rewrite drop_0. apply take_ge.
  unfold Py.slice_bound. destruct (Z.ltb_spec w 0); lia.
Qed.

Lemma pad_rows_within {A : Type} (padding_value : A) sequences (w : nat) :
  Forall (λ s, length s ≤ w) sequences →
  Forall (λ row, (Z.of_nat (length row) ≤ Z.of_nat w)%Z)
    (pad_rows padding_value sequences).
Proof.
  intros Hseqs. eapply Forall_impl; [apply pad_rows_lengths|].
  intros row ->. simpl.
  assert (max_list (length <$> sequences) ≤ w); [|lia].
  clear -Hseqs.
  induction Hseqs as [|s sequences Hs _ IH]; [simpl; lia|].
  rewrite fmap_cons.
  change (max_list (length s :: (length <$> sequences)))
    with (length s `max` max_list (length <$> sequences)).
  lia.
Qed.

Lemma collate_rows_within self max_gpt_token_len batch rows (w : nat) :
  Forall2 (λ s row, collate_sequence self max_gpt_token_len s = Some row)
    batch rows →
  Forall well_formed batch →
  Forall (λ s, seq_len s ≤ w) batch →
  Forall (λ row,
            length (row_token_ids row) ≤ w
            ∧ length (row_token_types row) ≤ w
            ∧ length (row_pos_vecs row) ≤ w
            ∧ length (row_pos_levels row) ≤ w
            ∧ length (row_attention_mask row) ≤ w
            ∧ (0 ≤ row_sequence_length row ≤ Z.of_nat w)%Z
            ∧ (∀ e, row_pos_encodings row = Some e → length e ≤ w)
            ∧ (∀ g, row_gpt_tokens row = Some g → length g ≤ w)
            ∧ (∀ u, row_use_shared_emb row = Some u → length u ≤ w)
            ∧ (∀ l, row_gen_label row = Some l → length l ≤ w)) rows.
Proof.
  intros Hrows Hwf Hlen.
  induction Hrows as [|s row batch rows Hrow _ IH]; [done|].
  apply Forall_cons in Hwf as [(Hty & Hvec & Hlev & Hgpt) Hwf].
  apply Forall_cons in Hlen as [Hs Hlen].
  constructor; [|by apply IH].
  assert (length (gpt_tokens s) ≤ seq_len s) as Hgpt'
    by (destruct Hgpt as [->| ->]; simpl; lia).
  unfold collate_sequence in Hrow.
  assert (Henc : ∀ e,
    (if decide (tpe (options self) ≠ TPE_NONE)
     then Some (zip_with
                  (λ token_type '(pos_vec, pos_level),
                     if is_structural token_type
                     then get_empty_pos_encoding (tpe (options self))
                     else encode_pos pos_vec pos_level (tpe (options self)))
                  (token_types s) (zip (pos_vecs s) (pos_levels s)))
     else None) = Some e → length e ≤ w).
  { intros e. destruct (decide _); [|done]. intros [= <-].
    rewrite length_zip_with. lia. }
  assert (Hg : ∀ g,
    (if shared_emb (options self)
     then Some ((λ gpt_token_vec,
                   gpt_token_vec
                   ++ replicate (max_gpt_token_len - length gpt_token_vec)
                        PADDING_TOKEN_ID) <$> gpt_tokens s)
     else None) = Some g → length g ≤ w).
  { intros g. destruct (shared_emb _); [|done]. intros [= <-].
    rewrite length_fmap. lia. }
  assert (Hu : ∀ u,
    (if shared_emb (options self)
     then Some ((λ gpt_token_vec : list Z,
                   bool_decide (length gpt_token_vec ≠ 0)) <$> gpt_tokens s)
     else None) = Some u → length u ≤ w).
  { intros u. destruct (shared_emb _); [|done]. intros [= <-].
    rewrite length_fmap. lia. }
  unfold seq_len in *.
  destruct (task self) as [t|]; [destruct (is_cls_task t)|].
  - destruct (meta s !! "label"); [|done]. simpl in Hrow.
    injection Hrow as <-. simpl. rewrite length_replicate.
    repeat split; try done; lia.
  - destruct (meta s !! "prompt_length"); [|done]. simpl in Hrow.
    injection Hrow as <-. simpl. rewrite length_replicate.
    repeat split; try done; try lia.
    intros l [= <-]. rewrite fill_prefix_length. lia.
  - injection Hrow as <-. simpl. rewrite length_replicate.
    repeat split; try done; lia.
Qed.

Lemma pad_if_any_within {A B : Type} (padding_value : A)
    (f : B → option (list A)) (rows : list B) (w : nat) t :
  Forall (λ row, ∀ x, f row = Some x → length x ≤ w) rows →
  pad_if_any padding_value (omap f rows) = Some t →
  Forall (λ row, (Z.of_nat (length row) ≤ Z.of_nat w)%Z) t.
Proof.
  intros Hrows Hpad.
  assert (Forall (λ x, length x ≤ w) (omap f rows)) as Hall.
  { clear Hpad. induction Hrows as [|row rows Hrow _ IH]; [done|].
    rewrite omap_cons_eq. destruct (f row) as [x|] eqn:Hx; [|done].
    constructor; [by apply Hrow|done]. }
  unfold pad_if_any in Hpad.
  destruct (omap f rows) as [|x xs]; [done|]. injection Hpad as <-.
  by apply pad_rows_within.
Qed.

(** X12: trimming a batch collated from well-formed sequences with offsets 0
    and any width that is at least the length of its longest sequence gives
    the batch back. *)
Theorem Collator_call_trim_full (self : Collator) (batch : list Sequence)
    (collated : CollatedBatch) (w : nat) :
  Collator_call self batch = Some collated →
  Forall well_formed batch →
  max_list (seq_len <$> batch) ≤ w →
  trim_batch collated 0 (Z.of_nat w) = collated.
Proof.
  intros Hcall Hwf Hw.
  apply Collator_call_rows in Hcall as (m & rows & _ & _ & Hrows & ->).
  assert (Hlen : Forall (λ s, seq_len s ≤ w) batch).
  { apply Forall_forall. intros s Hs.
    assert (seq_len s ≤ max_list (seq_len <$> batch)); [|lia].
    apply max_list_elem_of_le, list_elem_of_fmap. by exists s. }
  pose proof (collate_rows_within _ _ _ _ _ Hrows Hwf Hlen) as Hin.
  assert (Hch : ∀ (A : Type) (x : A) (f : CollatedRow → list A),
            Forall (λ row, length (f row) ≤ w) rows →
            trim_tensor 0 (Z.of_nat w) (pad_rows x (f <$> rows))
            = pad_rows x (f <$> rows)).
  { intros A x f Hf. apply trim_tensor_wide, pad_rows_within.
    by apply Forall_fmap. }
  assert (Hopt : ∀ (A : Type) (x : A) (f : CollatedRow → option (list A)),
            Forall (λ row, ∀ y, f row = Some y → length y ≤ w) rows →
            trim_tensor 0 (Z.of_nat w) <$> pad_if_any x (omap f rows)
            = pad_if_any x (omap f rows)).
  { intros A x f Hf.
    destruct (pad_if_any x (omap f rows)) as [t|] eqn:Hpad; [|done].
    simpl. f_equal. apply trim_tensor_wide.
    by eapply pad_if_any_within. }
  unfold trim_batch. simpl.
  rewrite !Hch, !Hopt
    by (eapply Forall_impl; [exact Hin|]; simpl;
        intros row (H1 & H2 & H3 & H4 & H5 & H6 & H7 & H8 & H9 & H10);
        assumption).
  f_equal. rewrite <- (list_fmap_id (row_sequence_length <$> rows)) at 2.
  apply Forall_fmap_ext, Forall_fmap.
  eapply Forall_impl; [exact Hin|]. simpl. intros row Hrow. lia.
Qed.

(** ** trim_batch: partition and composition *)

Lemma take_min_length {A : Type} (k : nat) (l : list A) :
  take k l = take (k `min` length l) l.
Proof.
  destruct (decide (k ≤ length l)).
  - by rewrite Nat.min_l.
  - rewrite Nat.min_r by lia. rewrite !take_ge; [done|lia..].
Qed.

Lemma slice_nonneg {A : Type} (a b : Z) (l : list A) :
  (0 ≤ a)%Z → (0 ≤ b)%Z →
  Py.slice a b l = take (Z.to_nat b - Z.to_nat a) (drop (Z.to_nat a) l).
Proof.
  intros Ha Hb. unfold Py.slice, Py.slice_bound.
  destruct (Z.ltb_spec a 0), (Z.ltb_spec b 0); try lia.
  destruct (decide (length l ≤ Z.to_nat a)).
  - rewrite !(drop_ge l) by lia. by rewrite !take_nil.
  - replace (Z.to_nat (a `min` Z.of_nat (length l))) with (Z.to_nat a) by lia.
    rewrite take_min_length, (take_min_length (Z.to_nat b - Z.to_nat a)).
    f_equal. rewrite length_drop. lia.
Qed.

Lemma slice_partition {A : Type} (p m : Z) (l : list A) :
  (0 ≤ p ≤ m)%Z →
  Py.slice 0 p l ++ Py.slice p m l = Py.slice 0 m l.
Proof.
  intros Hpm. rewrite !slice_nonneg by lia. simpl (Z.to_nat 0).
  rewrite !drop_0, !Nat.sub_0_r, take_take_drop. f_equal. lia.
Qed.

Lemma slice_compose {A : Type} (a b c d : Z) (l : list A) :
  (0 ≤ a)%Z → (0 ≤ c ≤ d)%Z → (d ≤ b - a)%Z →
  Py.slice c d (Py.slice a b l) = Py.slice (a + c) (a + d) l.
Proof.
  intros Ha Hcd Hdb. rewrite !slice_nonneg by lia.
  replace (Z.to_nat b - Z.to_nat a)
    with (Z.to_nat c + (Z.to_nat b - Z.to_nat a - Z.to_nat c)) by lia.
  rewrite <- take_drop_commute, take_take, drop_drop.
  f_equal; [|f_equal]; lia.
Qed.

Lemma trim_tensor_partition {A : Type} (p m : Z) (t : list (list A)) :
  (0 ≤ p ≤ m)%Z →
  cat_rows (trim_tensor 0 p t) (trim_tensor p m t) = trim_tensor 0 m t.
Proof.
  intros Hpm. unfold cat_rows, trim_tensor.
  induction t as [|row t IH]; [done|].
  rewrite !fmap_cons. simpl. by rewrite IH, slice_partition.
Qed.

Lemma trim_tensor_compose {A : Type} (a b c d : Z) (t : list (list A)) :
  (0 ≤ a)%Z → (0 ≤ c ≤ d)%Z → (d ≤ b - a)%Z →
  trim_tensor c d (trim_tensor a b t) = trim_tensor (a + c) (a + d) t.
Proof.
  intros Ha Hcd Hdb. unfold trim_tensor. rewrite <- list_fmap_compose.
  apply list_fmap_ext. intros _ row _. simpl. by apply slice_compose.
Qed.

(** X13: the two trims [evaluate_gen_task] takes at a split point, the prompt
    part from 0 and the part from the split point on, put side by side give
    the trim from 0 to the end, and their sequence lengths add up to its
    sequence lengths. *)
Theorem trim_batch_partition (batch : CollatedBatch) (p m : Z) :
  (0 ≤ p ≤ m)%Z →
  cat_rows (cb_token_ids (trim_batch batch 0 p))
           (cb_token_ids (trim_batch batch p m))
    = cb_token_ids (trim_batch batch 0 m)
  ∧ cat_rows (cb_token_types (trim_batch batch 0 p))
             (cb_token_types (trim_batch batch p m))
    = cb_token_types (trim_batch batch 0 m)
  ∧ cat_rows (attention_mask (trim_batch batch 0 p))
             (attention_mask (trim_batch batch p m))
    = attention_mask (trim_batch batch 0 m)
  ∧ ∀ i len, sequence_lengths batch !! i = Some len → (0 ≤ len)%Z →
      ∃ len1 len2,
        sequence_lengths (trim_batch batch 0 p) !! i = Some len1
        ∧ sequence_lengths (trim_batch batch p m) !! i = Some len2
        ∧ sequence_lengths (trim_batch batch 0 m) !! i = Some (len1 + len2)%Z.
Proof.
  intros Hpm. simpl. rewrite !trim_tensor_partition by done.
  do 3 (split; [done|]). intros i len Hi Hlen.
  rewrite !list_lookup_fmap, Hi. simpl. eexists _, _.
  split; [done|]. split; [done|]. f_equal. lia.
Qed.

(** X14: trimming a trimmed batch with offsets inside its width is one trim
    of the batch, with the offsets added. *)
Theorem trim_batch_compose (batch : CollatedBatch) (a b c d : Z) :
  (0 ≤ a)%Z → (0 ≤ c ≤ d)%Z → (d ≤ b - a)%Z →
  trim_batch (trim_batch batch a b) c d = trim_batch batch (a + c) (a + d).
Proof.
  intros Ha Hcd Hdb. unfold trim_batch; simpl.
  rewrite !trim_tensor_compose by done.
  f_equal.
  - destruct (cb_pos_encodings batch); simpl; [|done].
    by rewrite trim_tensor_compose.
  - destruct (cb_gpt_tokens batch); simpl; [|done].
    by rewrite trim_tensor_compose.
  - destruct (cb_use_shared_emb batch); simpl; [|done].
    by rewrite trim_tensor_compose.
  - rewrite <- list_fmap_compose. apply list_fmap_ext.
    intros _ len _. simpl. lia.
  - destruct (gen_labels batch); simpl; [|done].
    by rewrite trim_tensor_compose.
Qed.

(** X15: a row whose attention mask is ones up to its sequence length and
    zeros after it keeps this form under a trim with [0 ≤ a ≤ b], with the
    recomputed sequence length as the number of ones. *)
Theorem trim_batch_keeps_mask (batch : CollatedBatch) (a b : Z)
    (i l k : nat) :
  (0 ≤ a ≤ b)%Z →
  attention_mask batch !! i
    = Some (replicate l float_one ++ replicate k float_zero) →
  sequence_lengths batch !! i = Some (Z.of_nat l) →
  ∃ l' k',
    attention_mask (trim_batch batch a b) !! i
      = Some (replicate l' float_one ++ replicate k' float_zero)
    ∧ sequence_lengths (trim_batch batch a b) !! i = Some (Z.of_nat l')
    ∧ l' + k' = (Z.to_nat b `min` (l + k)) - Z.to_nat a.
Proof.
  intros Hab Hmask Hlen. simpl. unfold trim_tensor.
  rewrite !list_lookup_fmap, Hmask, Hlen. simpl.
  rewrite slice_nonneg by lia.
  exists ((Z.to_nat b - Z.to_nat a) `min` (l - Z.to_nat a)),
         ((Z.to_nat b `min` (l + k)) - (Z.to_nat a `max` (Z.to_nat b `min` l))).
  split; [|split; [f_equal; lia|lia]]. f_equal.
  rewrite drop_app, take_app, !drop_replicate, !take_replicate.
  rewrite !length_replicate. f_equal; f_equal; lia.
Qed.

(** ** AnswerScoringDataset: length of the returned sequence *)

Lemma seq_len_add s1 s2 : seq_len (s1 +ₛ s2) = seq_len s1 + seq_len s2.
Proof. unfold seq_len, seq_add. simpl. by rewrite length_app. Qed.

Lemma seq_len_set_meta s m : seq_len (set_meta s m) = seq_len s.
Proof. done. Qed.

Lemma seq_len_foldl_add (l : list Sequence) (s : Sequence) :
  seq_len (foldl seq_add s l) = seq_len s + sum_list (seq_len <$> l).
Proof.
  revert s. induction l as [|x l IH]; intros s; [simpl; lia|].
  cbn [foldl]. rewrite IH, seq_len_add, fmap_cons.
  change (sum_list (seq_len x :: (seq_len <$> l)))
    with (seq_len x + sum_list (seq_len <$> l)).
  lia.
Qed.

Lemma add_examples_within self examples :
  ∀ base_len example_sequences out,
    add_examples self examples base_len example_sequences = Some out →
    ∃ added,
      out = example_sequences ++ added
      ∧ (base_len + Z.of_nat (sum_list (seq_len <$> added))
         ≤ base_len `max` max_seq_len (as_options self))%Z.
Proof.
  induction examples as [|example examples IH];
    intros base_len example_sequences out; simpl.
  - intros [= <-]. exists []. rewrite app_nil_r. simpl. split; [done|lia].
  - destruct (meta example !! "label") as [label|]; [|done]. simpl.
    destruct (grade_to_score_seq self !! label) as [score_seq|]; [|done].
    simpl. destruct (decide _) as [Hfull|Hfits].
    + intros [= <-]. exists []. rewrite app_nil_r. simpl. split; [done|lia].
    + intros Hrest. apply IH in Hrest as (added & -> & Hbound).
      eexists (_ :: added). split; [by rewrite <- app_assoc|].
      rewrite fmap_cons.
      change (sum_list (?x :: ?l)) with (x + sum_list l). lia.
Qed.

(** X19: the sequence that [__getitem__] returns carries only the label of
    the answer as metadata, is at least as long as the parts that are always
    present, and no longer than the maximum length unless these parts alone
    are: worked examples never push the length over the maximum. *)
Theorem AnswerScoringDataset_getitem_length (self : AnswerScoringDataset)
    (rng : Rng) (index : Z) (sequence : Sequence) (rng' : Rng) :
  AnswerScoringDataset_getitem self rng index = Some (sequence, rng') →
  ∃ sample problem_id problem_sequence label,
    Py.getitem (as_data self) index = Some sample
    ∧ meta sample !! "problem_id" = Some problem_id
    ∧ problems self !! problem_id = Some problem_sequence
    ∧ meta sample !! "label" = Some label
    ∧ meta sequence = {[ "label" := label ]}
    ∧ let base_len :=
        seq_len (qs_prefix_seq self) + seq_len problem_sequence
        + seq_len (scores_seq self) + seq_len (answer_prefix_seq self)
        + seq_len sample + seq_len (cls_seq self) in
      base_len ≤ seq_len sequence
      ∧ (Z.of_nat (seq_len sequence)
         ≤ Z.of_nat base_len `max` max_seq_len (as_options self))%Z.
Proof.
  unfold AnswerScoringDataset_getitem. intros Hget.
  destruct (Py.getitem (as_data self) index) as [sample|] eqn:Hsample;
    [|done].
  simpl in Hget.
  destruct (meta sample !! "problem_id") as [problem_id|] eqn:Hid; [|done].
  simpl in Hget.
  destruct (problems self !! problem_id) as [problem_sequence|] eqn:Hproblem;
    [|done].
  simpl in Hget.
  destruct (match example_bank self !! problem_id with
            | Some _ => _
            | None => _
            end) as [[[initial additional] rng1]|]; [|done].
  simpl in Hget.
  destruct (random_shuffle rng1 initial) as [initial' rng2].
  destruct (random_shuffle rng2 additional) as [additional' rng3].
  destruct (add_examples self (initial' ++ additional') _ [])
    as [example_sequences|] eqn:Hadd; [|done].
  simpl in Hget.
  destruct (meta sample !! "label") as [label|] eqn:Hlabel; [|done].
  simpl in Hget. injection Hget as <- <-.
  apply add_examples_within in Hadd as (added & -> & Hbound).
  exists sample, problem_id, problem_sequence, label.
  do 5 (split; [done|]). simpl.
  rewrite seq_len_set_meta, !seq_len_add, seq_len_foldl_add, !seq_len_add.
  lia.
Qed.

(** ** AnswerScoringDataset: the example bank *)

Lemma empty_grades_lookup (num_classes grade : Z) :
  empty_grades num_classes !! grade
  = if decide (0 ≤ grade < num_classes)%Z then Some [] else None.
Proof.
  unfold empty_grades. destruct (decide _) as [Hin|Hout].
  - apply elem_of_list_to_map_1.
    + rewrite <- list_fmap_compose.
      apply (NoDup_fmap_2 (λ k, Z.of_nat k)), NoDup_seq.
    + apply list_elem_of_fmap. exists (Z.to_nat grade).
      split; [f_equal; lia|]. apply elem_of_seq. lia.
  - apply not_elem_of_list_to_map_1. rewrite <- list_fmap_compose.
    intros (k & -> & Hk%elem_of_seq)%list_elem_of_fmap. simpl in Hout. lia.
Qed.

Lemma filter_snoc_graded problem_id grade (l : list Sequence) example :
  filter (graded_as problem_id grade) (l ++ [example])
  = filter (graded_as problem_id grade) l
    ++ (if decide (graded_as problem_id grade example) then [example] else []).
Proof.
  by rewrite filter_app.
Qed.

Lemma filter_graded_nil problem_id grade (l : list Sequence) :
  Forall (λ example, meta example !! "problem_id" ≠ Some problem_id) l →
  filter (graded_as problem_id grade) l = [].
Proof.
  induction 1 as [|example l Hne _ IH]; [done|].
  rewrite filter_cons, decide_False; [done|]. by intros [? _].
Qed.

Lemma add_to_bank_groups options example_bank example example_bank' l :
  groups (num_classes options) l example_bank →
  add_to_bank options example_bank example = Some example_bank' →
  groups (num_classes options) (l ++ [example]) example_bank'.
Proof.
  intros Hinv. unfold add_to_bank.
  destruct (meta example !! "problem_id") as [problem_id|] eqn:Hid; [|done].
  simpl.
  destruct (meta example !! "label") as [label|] eqn:Hlabel; [|done].
  simpl.
  destruct (default _ _ !! label) as [graded|] eqn:Hgraded; [|done].
  simpl. intros [= <-] pid.
  destruct (decide (pid = problem_id)) as [->|Hpid].
  - rewrite lookup_insert_eq. split.
    { exists example. split; [|done]. apply elem_of_app. right.
      by apply list_elem_of_singleton. }
    intros grade. rewrite filter_snoc_graded.
    assert (Hcur : ∀ g,
      default (empty_grades (num_classes options))
        (example_bank !! problem_id) !! g
      = if decide (0 ≤ g < num_classes options)%Z
        then Some (filter (graded_as problem_id g) l) else None).
    { intros g. specialize (Hinv problem_id).
      destruct (example_bank !! problem_id) as [grades|]; simpl.
      - by destruct Hinv as [_ ->].
      - rewrite empty_grades_lookup. destruct (decide _); [|done].
        by rewrite filter_graded_nil. }
    destruct (decide (grade = label)) as [->|Hgrade].
    + rewrite lookup_insert_eq. rewrite Hcur in Hgraded.
      destruct (decide (0 ≤ label < _)%Z); [|done].
      injection Hgraded as <-. by rewrite decide_True.
    + rewrite lookup_insert_ne by done. rewrite Hcur.
      rewrite (decide_False (P := graded_as problem_id grade example)),
        app_nil_r; [done|].
      intros [_ ?]. congruence.
  - rewrite lookup_insert_ne by done. specialize (Hinv pid).
    destruct (example_bank !! pid) as [grades|].
    + destruct Hinv as [(e & He & Hepid) Hgrades]. split.
      { exists e. split; [|done]. apply elem_of_app. by left. }
      intros grade.
      rewrite filter_snoc_graded,
        (decide_False (P := graded_as pid grade example)), app_nil_r;
        [done|]. intros [? _]. congruence.
    + apply Forall_app. split; [done|]. constructor; [|done]. congruence.
Qed.

Lemma add_to_bank_is_Some options example_bank example l :
  groups (num_classes options) l example_bank →
  is_Some (add_to_bank options example_bank example)
  ↔ gradable (num_classes options) example.
Proof.
  intros Hinv. unfold add_to_bank, gradable.
  destruct (meta example !! "problem_id") as [problem_id|] eqn:Hid; simpl;
    [|split; [by intros []|by intros [[] _]]].
  destruct (meta example !! "label") as [label|] eqn:Hlabel; simpl;
    [|split; [by intros []|by intros (_ & ? & ? & _)]].
  assert (Hcur :
    is_Some (default (empty_grades (num_classes options))
               (example_bank !! problem_id) !! label)
    ↔ (0 ≤ label < num_classes options)%Z).
  { specialize (Hinv problem_id).
    destruct (example_bank !! problem_id) as [grades|]; simpl.
    - destruct Hinv as [_ ->]. destruct (decide _); [by split|].
      split; [by intros []|done].
    - rewrite empty_grades_lookup. destruct (decide _); [by split|].
      split; [by intros []|done]. }
  destruct (default _ _ !! label) as [graded|]; simpl.
  - split; [|by eexists]. intros _. split; [by eexists|].
    exists label. split; [done|]. apply Hcur. by eexists.
  - split; [by intros []|]. intros (_ & label' & [= <-] & Hrange).
    by apply Hcur in Hrange as [].
Qed.

Lemma group_examples_groups options examples :
  ∀ l example_bank example_bank',
    groups (num_classes options) l example_bank →
    group_examples options examples example_bank = Some example_bank' →
    groups (num_classes options) (l ++ examples) example_bank'.
Proof.
  induction examples as [|example examples IH];
    intros l example_bank example_bank' Hinv; simpl.
  - intros [= <-]. by rewrite app_nil_r.
  - destruct (add_to_bank options example_bank example)
      as [example_bank1|] eqn:Hadd; [|done].
    simpl. intros Hrest.
    change (example :: examples) with ([example] ++ examples).
    rewrite (assoc_L (++)).
    eapply IH; [|exact Hrest]. by eapply add_to_bank_groups.
Qed.

Lemma group_examples_is_Some options examples :
  ∀ l example_bank,
    groups (num_classes options) l example_bank →
    is_Some (group_examples options examples example_bank)
    ↔ Forall (gradable (num_classes options)) examples.
Proof.
  induction examples as [|example examples IH]; intros l example_bank Hinv;
    simpl.
  - split; [by constructor|by eexists].
  - pose proof (add_to_bank_is_Some options example_bank example l Hinv)
      as Hadd.
    destruct (add_to_bank options example_bank example)
      as [example_bank1|] eqn:Hbank; simpl.
    + rewrite (IH (l ++ [example]) example_bank1)
        by (by eapply add_to_bank_groups).
      split.
      * intros Hall. constructor; [|done]. apply Hadd. by eexists.
      * by inversion 1.
    + split; [by intros []|]. inversion 1 as [|? ? Hex _]; subst.
      by apply Hadd in Hex as [].
Qed.

Lemma groups_empty num_classes : groups num_classes [] ∅.
Proof. intros problem_id. by rewrite lookup_empty. Qed.

Lemma examples_or_data_pool (examples : option (list Sequence))
    (data : list Sequence) :
  examples_or_data examples data
    match examples with
    | Some (example :: rest) => example :: rest
    | _ => data
    end.
Proof.
  destruct examples as [[|example rest]|].
  - right. split; [by right|done].
  - by left.
  - right. split; [by left|done].
Qed.

Lemma examples_or_data_unique (examples : option (list Sequence))
    (data pool1 pool2 : list Sequence) :
  examples_or_data examples data pool1 →
  examples_or_data examples data pool2 → pool1 = pool2.
Proof.
  intros [[-> Hne1]|[Hnone1 ->]] [[Heq Hne2]|[Hnone2 ->]]; try done.
  - congruence.
  - destruct Hnone2 as [?|[= ->]]; done.
  - destruct Hnone1 as [Hnone|Hnone]; rewrite Hnone in Heq; [done|].
    by injection Heq as <-.
Qed.

(** X20: the example bank that [AnswerScoringDataset.__init__] builds has an
    entry exactly for the problems of the examples, each entry has exactly the
    grades below the number of classes as keys, and under a problem and grade
    it holds the examples of this problem and grade, in their order. *)
Theorem AnswerScoringDataset_example_bank_groups (options : TrainOptions)
    (examples : option (list Sequence)) (data : list Sequence)
    (example_bank : gmap Z (gmap Z (list Sequence))) :
  AnswerScoringDataset_example_bank options examples data
    = Some example_bank →
  ∃ pool,
    examples_or_data examples data pool
    ∧ groups (num_classes options) pool example_bank.
Proof.
  unfold AnswerScoringDataset_example_bank. intros Hgroup.
  eexists. split; [apply examples_or_data_pool|].
  by apply (group_examples_groups options _ [] ∅) in Hgroup;
    [|apply groups_empty].
Qed.

(** X21: building the example bank raises exactly when an example lacks the
    [problem_id] or the [label] metadata, or has a label that is not a grade
    below the number of classes. *)
Theorem AnswerScoringDataset_example_bank_succeeds_iff
    (options : TrainOptions) (examples : option (list Sequence))
    (data : list Sequence) :
  is_Some (AnswerScoringDataset_example_bank options examples data)
  ↔ ∃ pool,
      examples_or_data examples data pool
      ∧ Forall (gradable (num_classes options)) pool.
Proof.
  unfold AnswerScoringDataset_example_bank.
  rewrite (group_examples_is_Some options _ [] ∅) by apply groups_empty.
  split.
  - intros Hall. eexists. split; [apply examples_or_data_pool|done].
  - intros (pool & Hpool & Hall).
    by rewrite (examples_or_data_unique _ _ _ _
                  (examples_or_data_pool examples data) Hpool).
Qed.

(** ** The pre-training datasets *)

Lemma tokenize_sequence_is_Some nm text formulas options :
  FORMULA_IDENTIFIER ≠ "" →
  is_Some (tokenize_sequence nm text formulas options).
Proof.
  intros Hsep. unfold tokenize_sequence, Py.split.
  destruct FORMULA_IDENTIFIER; [done|]. by eexists.
Qed.

Lemma split_sequence_bounded sequence max_seq_len :
  well_formed sequence → 1 ≤ max_seq_len →
  ∃ pieces,
    split_sequence sequence max_seq_len = Done pieces
    ∧ Forall (λ piece, seq_len piece ≤ max_seq_len) pieces.
Proof.
  intros Hwf HL.
  destruct (split_fuel_segments sequence max_seq_len Hwf HL
              (S (seq_len sequence)) sequence 0)
    as (out & segs & Hrun & Hlen & _); [done|lia|lia|].
  by exists out.
Qed.

Lemma PreTrainDatasetPreloaded_loop_unsplit options max_seq_len articles :
  FORMULA_IDENTIFIER ≠ "" →
  max_seq_len = None ∨ max_seq_len = Some 0 →
  ∀ self,
    ∃ tokenized,
      Forall2 (λ article r,
                 tokenize_sequence "" (text article) (formulas article) options
                 = Some r) articles tokenized
      ∧ PreTrainDatasetPreloaded_loop options max_seq_len articles self
        = Built (mkDataset (data self ++ (fst <$> tokenized))
                   (num_missing_formulas self + sum_list (snd <$> tokenized))
                   (trimmed_sequences self)).
Proof.
  intros Hsep Hlimit.
  induction articles as [|article articles IH]; intros self.
  - exists []. split; [constructor|]. simpl.
    rewrite app_nil_r, Nat.add_0_r. by destruct self.
  - destruct (tokenize_sequence_is_Some "" (text article) (formulas article)
                options Hsep) as [[sequence num_missing] Htok].
    cbn [PreTrainDatasetPreloaded_loop]. unfold PreTrain_article.
    rewrite Htok.
    set (self' := mkDataset (data self ++ [sequence])
                    (num_missing_formulas self + num_missing)
                    (trimmed_sequences self)).
    destruct (IH self') as (tokenized & Hall & Hloop).
    exists ((sequence, num_missing) :: tokenized).
    split; [by constructor|].
    rewrite !fmap_cons.
    change (sum_list (?x :: ?l)) with (x + sum_list l).
    destruct Hlimit as [-> | ->]; rewrite Hloop; unfold self';
      cbn [data num_missing_formulas trimmed_sequences fst snd];
      rewrite <- app_assoc, Nat.add_assoc; done.
Qed.

Lemma PreTrainDatasetPreloaded_loop_split options limit articles :
  FORMULA_IDENTIFIER ≠ "" → 1 ≤ limit →
  Forall (formulas_lock_step options) articles →
  ∀ self,
    ∃ tokenized pieces,
      Forall2 (λ article r,
                 tokenize_sequence "" (text article) (formulas article) options
                 = Some r) articles tokenized
      ∧ Forall2 (λ r split_sequences,
                   split_sequence r.1 limit = Done split_sequences)
          tokenized pieces
      ∧ Forall (λ sequence, seq_len sequence ≤ limit) (mjoin pieces)
      ∧ PreTrainDatasetPreloaded_loop options (Some limit) articles self
        = Built (mkDataset (data self ++ mjoin pieces)
                   (num_missing_formulas self + sum_list (snd <$> tokenized))
                   (trimmed_sequences self)).
Proof.
  intros Hsep Hlimit Hlock. induction Hlock as [|article articles Hart _ IH];
    intros self.
  - exists [], []. split; [constructor|]. split; [constructor|].
    split; [constructor|]. simpl.
    rewrite app_nil_r, Nat.add_0_r. by destruct self.
  - destruct (tokenize_sequence_is_Some "" (text article) (formulas article)
                options Hsep) as [[sequence num_missing] Htok].
    pose proof (tokenize_sequence_tokenized _ _ _ _ _ _ Hart Htok) as Hinv.
    apply tokenized_well_formed in Hinv.
    destruct (split_sequence_bounded sequence limit Hinv Hlimit)
      as (split_sequences & Hsplit & Hbound).
    cbn [PreTrainDatasetPreloaded_loop]. unfold PreTrain_article.
    rewrite Htok. destruct limit as [|limit']; [lia|]. rewrite Hsplit.
    set (self' := mkDataset (data self ++ split_sequences)
                    (num_missing_formulas self + num_missing)
                    (trimmed_sequences self)).
    destruct (IH self') as (tokenized & pieces & Hall & Hpieces & Hlens & Hloop).
    exists ((sequence, num_missing) :: tokenized), (split_sequences :: pieces).
    split; [by constructor|]. split; [by constructor|].
    split; [by apply Forall_app|].
    rewrite !fmap_cons.
    change (sum_list (?x :: ?l)) with (x + sum_list l).
    rewrite Hloop. unfold self'.
    cbn [data num_missing_formulas trimmed_sequences fst snd].
    change (mjoin (split_sequences :: pieces))
      with (split_sequences ++ mjoin pieces).
    by rewrite <- app_assoc, Nat.add_assoc.
Qed.

(** X22: with a maximum length of at least 1, a non-empty formula
    placeholder and a formula tokenizer with lock-step channels,
    [PreTrainDatasetPreloaded.__init__] neither raises nor recurses without
    end: the data are the pieces of the tokenized articles, in the order of
    the articles, none longer than the maximum, and the count of missing
    formulas is the sum over the articles. *)
Theorem PreTrainDatasetPreloaded_init_bounded (articles : list Article)
    (options : TrainOptions) (limit : nat) :
  FORMULA_IDENTIFIER ≠ "" → 1 ≤ limit →
  Forall (formulas_lock_step options) articles →
  ∃ self tokenized pieces,
    PreTrainDatasetPreloaded_init articles options (Some limit) = Built self
    ∧ Forall2 (λ article r,
                 tokenize_sequence "" (text article) (formulas article) options
                 = Some r) articles tokenized
    ∧ Forall2 (λ r split_sequences,
                 split_sequence r.1 limit = Done split_sequences)
        tokenized pieces
    ∧ data self = mjoin pieces
    ∧ Forall (λ sequence, seq_len sequence ≤ limit) (data self)
    ∧ num_missing_formulas self = sum_list (snd <$> tokenized).
Proof.
  intros Hsep Hlimit Hlock.
  destruct (PreTrainDatasetPreloaded_loop_split options limit articles
              Hsep Hlimit Hlock Dataset_init)
    as (tokenized & pieces & Hall & Hpieces & Hlens & Hloop).
  eexists _, tokenized, pieces. split; [exact Hloop|]. done.
Qed.

(** X23: without a maximum length, and with a maximum length of 0 as well,
    [PreTrainDatasetPreloaded.__init__] stores exactly one sequence per
    article, unsplit and in the order of the articles. *)
Theorem PreTrainDatasetPreloaded_init_unsplit (articles : list Article)
    (options : TrainOptions) (max_seq_len : option nat) :
  FORMULA_IDENTIFIER ≠ "" →
  max_seq_len = None ∨ max_seq_len = Some 0 →
  ∃ tokenized,
    Forall2 (λ article r,
               tokenize_sequence "" (text article) (formulas article) options
               = Some r) articles tokenized
    ∧ PreTrainDatasetPreloaded_init articles options max_seq_len
      = Built (mkDataset (fst <$> tokenized) (sum_list (snd <$> tokenized)) 0).
Proof.
  intros Hsep Hlimit.
  destruct (PreTrainDatasetPreloaded_loop_unsplit options max_seq_len articles
              Hsep Hlimit Dataset_init) as (tokenized & Hall & Hloop).
  by exists tokenized.
Qed.

Lemma PreTrainDataset_loop_built files options max_seq_len article_filenames :
  ∀ self self',
    PreTrainDataset_loop files options max_seq_len article_filenames self
      = Built self' →
    ∃ stored,
      Forall2 (λ article_name split_sequences,
                 ∃ article sequence num_missing,
                   files !! article_name = Some article
                   ∧ tokenize_sequence article_name
                       (text article +:+ EOS_TOKEN) (formulas article) options
                     = Some (sequence, num_missing)
                   ∧ match max_seq_len with
                     | Some (S limit) =>
                         split_sequence sequence (S limit)
                         = Done split_sequences
                     | _ => split_sequences = [sequence]
                     end)
        article_filenames stored
      ∧ data self' = data self ++ mjoin stored.
Proof.
  induction article_filenames as [|article_name rest IH]; intros self self'.
  - simpl. intros [= <-]. exists []. split; [constructor|].
    simpl. by rewrite app_nil_r.
  - cbn [PreTrainDataset_loop].
    destruct (files !! article_name) as [article|] eqn:Hfile; [|done].
    unfold PreTrain_article.
    destruct (tokenize_sequence article_name _ _ options)
      as [[sequence num_missing]|] eqn:Htok; [|done].
    destruct max_seq_len as [[|limit]|].
    + intros (stored & Hall & Hdata)%IH. exists ([sequence] :: stored).
      split; [constructor; [by eexists _, _, _|done]|].
      rewrite Hdata. simpl. by rewrite <- app_assoc.
    + destruct (split_sequence sequence (S limit))
        as [split_sequences| |] eqn:Hsplit; [|done..].
      intros (stored & Hall & Hdata)%IH. exists (split_sequences :: stored).
      split; [constructor; [by eexists _, _, _|done]|].
      rewrite Hdata. simpl. by rewrite <- app_assoc.
    + intros (stored & Hall & Hdata)%IH. exists ([sequence] :: stored).
      split; [constructor; [by eexists _, _, _|done]|].
      rewrite Hdata. simpl. by rewrite <- app_assoc.
Qed.

(** X24: when [PreTrainDataset.__init__] returns, every file name had an
    article, and the data are, in the order of the file names, the sequences
    tokenized under the file name from the article text with the
    end-of-sequence token appended, split when a maximum length of at least 1
    is given. *)
Theorem PreTrainDataset_init_built (files : gmap string Article)
    (article_filenames : list string) (options : TrainOptions)
    (max_seq_len : option nat) (self : Dataset) :
  PreTrainDataset_init files article_filenames options max_seq_len
    = Built self →
  ∃ stored,
    data self = mjoin stored
    ∧ Forall2 (λ article_name split_sequences,
                 ∃ article sequence num_missing,
                   files !! article_name = Some article
                   ∧ tokenize_sequence article_name
                       (text article +:+ EOS_TOKEN) (formulas article) options
                     = Some (sequence, num_missing)
                   ∧ match max_seq_len with
                     | Some (S limit) =>
                         split_sequence sequence (S limit)
                         = Done split_sequences
                     | _ => split_sequences = [sequence]
                     end)
        article_filenames stored.
Proof.
  intros (stored & Hall & Hdata)%PreTrainDataset_loop_built.
  by exists stored.
Qed.

(** ** evaluate_lm: the windows *)

Lemma py_range_forward (stop step : Z) :
  (1 ≤ step)%Z → (0 ≤ stop)%Z →
  ∃ count,
    py_range 0 stop step
      = Some ((λ k, 0 + step * Z.of_nat k)%Z <$> seq 0 count)
    ∧ (step * Z.of_nat count < stop + step)%Z
    ∧ (stop ≤ step * Z.of_nat count)%Z.
Proof.
  intros Hstep Hstop. unfold py_range.
  rewrite decide_False by lia. rewrite decide_True by lia.
  eexists. split; [done|].
  assert (0 ≤ (stop - 0 + step - 1) `div` step)%Z
    by (apply Z.div_pos; lia).
  rewrite Z2Nat.id by done.
  pose proof (Z.mul_div_le (stop - 0 + step - 1) step).
  pose proof (Z.mul_succ_div_gt (stop - 0 + step - 1) step).
  lia.
Qed.

Lemma chunks_join {A : Type} (s : nat) (row : list A) (count : nat) :
  mjoin ((λ k, take s (drop (s * k) row)) <$> seq 0 count)
  = take (s * count) row.
Proof.
  induction count as [|count IH]; [by rewrite Nat.mul_0_r|].
  rewrite seq_S, fmap_app, join_app, IH. simpl.
  rewrite app_nil_r, take_take_drop. f_equal. lia.
Qed.

Lemma sum_target_len (f : nat → Z) (s stop : Z) (count : nat) :
  (1 ≤ s)%Z → (0 ≤ stop)%Z →
  (s * Z.of_nat count < stop + s)%Z →
  (∀ k, k < count → f k = ((s * Z.of_nat k + s) `min` stop - s * Z.of_nat k)%Z) →
  foldr Z.add 0%Z (f <$> seq 0 count) = ((s * Z.of_nat count) `min` stop)%Z.
Proof.
  intros Hs Hstop. induction count as [|count IH]; intros Hcount Hf.
  { simpl. lia. }
  rewrite seq_S, fmap_app, foldr_app. simpl.
  rewrite Hf by lia.
  assert (Hshift : ∀ (l : list Z) (x : Z),
    foldr Z.add x l = (foldr Z.add 0 l + x)%Z).
  { induction l as [|y l IHl]; intros x; simpl; [lia|].
    rewrite IHl. lia. }
  rewrite Hshift, IH; [lia|lia|]. intros k Hk. apply Hf. lia.
Qed.

(** X16: for a stride of at least 1, the loop of [evaluate_lm] over the
    split points runs without error, and the target lengths that weigh the
    losses of its windows add up to the width of the batch; each is at least 1
    and at most the stride. *)
Theorem evaluate_lm_windows_weights (options : TrainOptions)
    (stride : option Z) (batch : CollatedBatch) :
  (1 ≤ effective_stride options stride)%Z →
  ∃ windows,
    evaluate_lm_windows options stride batch = Some windows
    ∧ foldr Z.add 0%Z (target_len <$> windows)
      = Z.of_nat (tensor_width (cb_token_ids batch))
    ∧ Forall (λ w, 1 ≤ target_len w ≤ effective_stride options stride)%Z
        windows.
Proof.
  intros Hstride. unfold evaluate_lm_windows.
  set (s := effective_stride options stride) in *.
  set (n := tensor_width (cb_token_ids batch)).
  destruct (py_range_forward (Z.of_nat n) s) as (count & -> & Hlt & Hge);
    [done|lia|].
  eexists. split; [done|]. rewrite <- !list_fmap_compose. split.
  - transitivity ((s * Z.of_nat count) `min` Z.of_nat n)%Z; [|lia].
    apply sum_target_len; [done|lia|done|].
    intros k Hk. simpl. by rewrite Z.add_0_l.
  - apply Forall_fmap, Forall_forall. intros k [_ Hk]%elem_of_seq. simpl.
    assert (s * Z.of_nat k + s ≤ s * Z.of_nat count)%Z by nia.
    lia.
Qed.

(** X17: for a stride between 1 and the maximum length, every window of a
    row splits into a context and targets: the labels are the padding token
    over the context and the row's tokens over the targets, the window is no
    longer than the maximum length, and the targets of the windows, end to
    end, are the row: each token is a target in exactly one window. *)
Theorem evaluate_lm_windows_cover (options : TrainOptions)
    (stride : option Z) (batch : CollatedBatch) (i : nat) (row : list Z) :
  (1 ≤ effective_stride options stride ≤ max_seq_len options)%Z →
  cb_token_ids batch !! i = Some row →
  length row = tensor_width (cb_token_ids batch) →
  ∃ windows pieces,
    evaluate_lm_windows options stride batch = Some windows
    ∧ Forall2 (λ w '(context, targets),
                 cb_token_ids (sub_seq_batch w) !! i
                   = Some (context ++ targets)
                 ∧ labels w !! i
                   = Some (replicate (length context) PADDING_TOKEN_ID
                             ++ targets)
                 ∧ Z.of_nat (length targets) = target_len w
                 ∧ (Z.of_nat (length (context ++ targets))
                    ≤ max_seq_len options)%Z)
        windows pieces
    ∧ mjoin (snd <$> pieces) = row.
Proof.
  intros Hstride Hrow Hwidth. unfold evaluate_lm_windows.
  set (st := effective_stride options stride) in *.
  rewrite <- Hwidth.
  destruct (py_range_forward (Z.of_nat (length row)) st)
    as (count & -> & Hlt & Hge); [lia|lia|].
  set (s := Z.to_nat st).
  set (start := λ k : nat,
         Z.to_nat ((0 + st * Z.of_nat k + st - max_seq_len options) `max` 0)).
  exists
    (evaluate_lm_window options st (Z.of_nat (length row)) batch
       <$> ((λ k, 0 + st * Z.of_nat k)%Z <$> seq 0 count)),
    ((λ k, (take (s * k - start k) (drop (start k) row),
            take s (drop (s * k) row))) <$> seq 0 count).
  split; [done|]. split.
  - rewrite <- list_fmap_compose. apply Forall2_fmap, Forall_Forall2_diag.
    apply Forall_forall. intros k [_ Hk]%elem_of_seq. simpl.
    assert (st * Z.of_nat k + st ≤ st * Z.of_nat count)%Z by nia.
    set (sp := (0 + st * Z.of_nat k)%Z).
    set (e := ((sp + st) `min` Z.of_nat (length row))%Z).
    assert (Hsub : Py.slice ((sp + st - max_seq_len options) `max` 0) e row
                   = take (s * k - start k) (drop (start k) row)
                     ++ take s (drop (s * k) row)).
    { rewrite slice_nonneg by lia.
      change (Z.to_nat ((sp + st - max_seq_len options) `max` 0))
        with (start k).
      replace (Z.to_nat e - start k)
        with ((s * k - start k) + (Z.to_nat e - s * k))
        by (unfold start, e, sp, s; lia).
      rewrite <- take_take_drop, drop_drop. f_equal.
      replace (start k + (s * k - start k)) with (s * k)
        by (unfold start, sp, s; lia).
      rewrite (take_min_length s), (take_min_length (Z.to_nat e - s * k)).
      f_equal. rewrite length_drop. unfold e, sp, s. lia. }
    assert (Hctx : length (take (s * k - start k) (drop (start k) row))
                   = s * k - start k).
    { rewrite length_take, length_drop. unfold start, s. lia. }
    assert (Htgt : Z.of_nat (length (take s (drop (s * k) row)))
                   = (e - sp)%Z).
    { rewrite length_take, length_drop. unfold e, sp, s. lia. }
    unfold trim_tensor. rewrite !list_lookup_fmap, Hrow. simpl.
    fold sp e. rewrite Hsub. split; [done|]. split; [|split; [done|]].
    + f_equal. unfold Py.fill_prefix, Py.slice_bound.
      rewrite length_app, Hctx.
      destruct (Z.ltb_spec (- (e - sp)) 0) as [_|?]; [|lia].
      replace (Z.to_nat _) with (s * k - start k) by lia.
      f_equal. by apply drop_app_length'.
    + rewrite length_app, Nat2Z.inj_add, Htgt, Hctx. unfold start, e, sp, s.
      lia.
  - rewrite <- list_fmap_compose.
    transitivity (take (s * count) row); [|apply take_ge; unfold s; nia].
    by rewrite <- chunks_join.
Qed.

(** X18: with a stride greater than the maximum length, a window that is not
    cut by the end of the batch starts after its split point: it holds the
    last [max_seq_len] tokens before its end, none of its labels is masked,
    and its loss is weighed by the stride, so the tokens between the split
    point and the start of the window are counted but never scored. *)
Theorem evaluate_lm_window_stride_beyond_limit (options : TrainOptions)
    (stride sequence_length split_point : Z) (batch : CollatedBatch)
    (i : nat) (row : list Z) :
  (0 ≤ max_seq_len options < stride)%Z →
  (0 ≤ split_point)%Z → (split_point + stride ≤ sequence_length)%Z →
  cb_token_ids batch !! i = Some row →
  Z.of_nat (length row) = sequence_length →
  let w :=
    evaluate_lm_window options stride sequence_length batch split_point in
  ∃ sub_row,
    cb_token_ids (sub_seq_batch w) !! i = Some sub_row
    ∧ labels w !! i = Some sub_row
    ∧ Z.of_nat (length sub_row) = max_seq_len options
    ∧ target_len w = stride
    ∧ sub_row
      = take (Z.to_nat (max_seq_len options))
          (drop (Z.to_nat (split_point + stride - max_seq_len options)) row).
Proof.
  intros Hlimit Hsp Hend Hrow Hlen w. unfold w, evaluate_lm_window. simpl.
  unfold trim_tensor. rewrite !list_lookup_fmap, Hrow. simpl.
  rewrite slice_nonneg by lia.
  replace (Z.to_nat ((split_point + stride) `min` sequence_length)
           - Z.to_nat ((split_point + stride - max_seq_len options) `max` 0))
    with (Z.to_nat (max_seq_len options)) by lia.
  replace ((split_point + stride - max_seq_len options) `max` 0)%Z
    with (split_point + stride - max_seq_len options)%Z by lia.
  eexists. split; [done|].
  assert (Hsub : length (take (Z.to_nat (max_seq_len options))
                   (drop (Z.to_nat (split_point + stride - max_seq_len options))
                      row))
                 = Z.to_nat (max_seq_len options)).
  { rewrite length_take, length_drop. lia. }
  split; [|split; [lia|split; [lia|done]]].
  f_equal. unfold Py.fill_prefix, Py.slice_bound. rewrite Hsub.
  destruct (Z.ltb_spec
              (- ((split_point + stride) `min` sequence_length - split_point))
              0) as [_|?]; [|lia].
  replace (Z.to_nat _) with 0 by lia. done.
Qed.

End Properties.

(** * The properties at concrete inputs *)

#[local] Existing Instance toy_imports.


(** [split_sequence_terminates] at a sequence that is cut twice. *)
Lemma split_sequence_terminates_witness :
  1 ≤ 3
  ∧ (∀ emit rest, split_step text_and_formula 3 = Recurse emit rest →
                  seq_len rest < seq_len text_and_formula)
  ∧ split_sequence text_and_formula 3 ≠ OutOfFuel
  ∧ (∀ fuel, seq_len text_and_formula < fuel →
       split_sequence_fuel fuel text_and_formula 3
       = split_sequence text_and_formula 3).
Proof.
  split; [lia|]. apply (split_sequence_terminates text_and_formula 3). lia.
Defined.

(** With a maximum length of 0 the recursion does not end: a text token is
    split off as an empty prefix and the same sequence is split again. *)
Remark split_sequence_zero_diverges (fuel : nat) :
  split_sequence_fuel fuel (mkSequence "" [5%Z] [TEXT] [[]] [0%Z] [] ∅) 0
  = OutOfFuel.
Proof.
  induction fuel as [|fuel IH]; [done|].
  change (match split_sequence_fuel fuel
                  (mkSequence "" [5%Z] [TEXT] [[]] [0%Z] [] ∅) 0 with
          | Done out => Done ([mkSequence "" [] [] [] [] [] ∅] ++ out)
          | o => o
          end = OutOfFuel).
  by rewrite IH.
Qed.


(** A sequence that begins with text and is longer than the limit, but has no
    stretch of more than 4 tokens without a TEXT token after its first:
    nothing is dropped. *)
Remark split_sequence_keeps_text_led_sequence :
  (∀ o n, o + n ≤ seq_len text_formula_text →
     ¬ dropped_run text_formula_text 4 o n)
  ∧ (λ o, match o with
          | Done out => Some (token_ids <$> out)
          | _ => None
          end) (split_sequence text_formula_text 4)
    = Some [[5; 6]; [0; 7; 0; 5]; [6]]%Z.
Proof.
  split; [|vm_compute; reflexivity].
  intros o n Hlen [Hlong Hrun]. unfold seq_len in Hlen; simpl in Hlen.
  assert (Ho : o = 0 ∨ o = 1 ∨ o = 2) by lia.
  destruct Ho as [-> | [-> | ->]].
  - by apply (Hrun 1); [lia|].
  - by apply (Hrun 5); [lia|].
  - by apply (Hrun 5); [lia|].
Qed.

(** The slip in the backward scan: the index 0 of a text token is falsy, so a
    leading text token is dropped together with the formula after it, although
    the formula fits the limit. *)
Remark split_sequence_drops_leading_text :
  split_sequence
    (mkSequence "" [5; 0; 7; 0; 6]%Z
       [TEXT; START_FORMULA; OP; END_FORMULA; TEXT]
       (replicate 5 []) (replicate 5 0%Z) [] ∅) 3
  = Done [mkSequence "" [6%Z] [TEXT] [[]] [0%Z] [] ∅].
Proof. reflexivity. Qed.

(** A trimmed length below 0: the end offset lies before the start offset. *)
Lemma trim_batch_negative_length :
  sequence_lengths (trim_batch one_row_batch 3 1) !! 0 = Some (-2)%Z
  ∧ sequence_lengths (trim_batch one_row_batch 3 1) !! 0
    ≠ Some (clamp (1 - 3) 0 (5 - 3))
  ∧ sequence_lengths (trim_batch one_row_batch 3 1) !! 0
    ≠ Some (((1 - 3) `max` 0) `min` (5 - 3))%Z.
Proof. by vm_compute. Qed.

(** [trim_batch_sequence_lengths] at a window inside the row. *)
Lemma trim_batch_sequence_lengths_witness :
  (1 ≤ 3)%Z
  ∧ sequence_lengths (trim_batch one_row_batch 1 3) !! 0
    = (λ len, clamp (3 - 1) 0 (len - 1)) <$> sequence_lengths one_row_batch !! 0
  ∧ prompt_lengths (trim_batch one_row_batch 1 3) = prompt_lengths one_row_batch
  ∧ cls_labels (trim_batch one_row_batch 1 3) = cls_labels one_row_batch.
Proof.
  split; [lia|]. apply (trim_batch_sequence_lengths one_row_batch 1 3 0). lia.
Defined.

(** A negative end offset counts from the end of the row, and the second trim
    then removes further columns. *)
Lemma trim_batch_not_idempotent :
  trim_batch (trim_batch one_row_batch 1 (-1)) 0 (-1 - 1)
  ≠ trim_batch one_row_batch 1 (-1).
Proof. by vm_compute. Qed.

(** [trim_batch_idempotent] at a window inside the row. *)
Lemma trim_batch_idempotent_witness :
  (1 ≤ 3 ∨ 0 ≤ 3)%Z
  ∧ trim_batch (trim_batch one_row_batch 1 3) 0 (3 - 1)
    = trim_batch one_row_batch 1 3.
Proof.
  split; [lia|]. apply (trim_batch_idempotent one_row_batch 1 3). lia.
Defined.

(** The collated [token_types] are padded with TEXT, the type of the real
    text tokens of the same batch. *)
Lemma Collator_call_pads_types_with_TEXT :
  ∃ collated,
    Collator_call plain_collator two_texts = Some collated
    ∧ ¬ padding_distinguishable two_texts collated.
Proof.
  eexists. split; [by vm_compute|].
  intros Hclaim.
  destruct (Hclaim 1 (text_sequence [3]%Z ∅) 1) as [_ Htypes]; [done|done|].
  apply (Htypes TEXT eq_refl (text_sequence [3]%Z ∅)).
  - apply list_elem_of_lookup. by exists 1.
  - apply list_elem_of_lookup. by exists 0.
Qed.

(** [Collator_call_padding_values] at the padded row of a batch of two. *)
Lemma Collator_call_padding_values_witness :
  ∃ collated,
    Collator_call plain_collator two_texts = Some collated
    ∧ ∃ id_row type_row,
        cb_token_ids collated !! 1 = Some id_row
        ∧ cb_token_types collated !! 1 = Some type_row
        ∧ (∀ j, seq_len (text_sequence [3]%Z ∅) ≤ j < length id_row →
                id_row !! j = Some PADDING_TOKEN_ID)
        ∧ (∀ j, length (token_types (text_sequence [3]%Z ∅)) ≤ j
                < length type_row → type_row !! j = Some TEXT)
        ∧ (PADDING_TOKEN_ID ∉ token_ids (text_sequence [3]%Z ∅) →
           ∀ j, j < length id_row →
                id_row !! j = Some PADDING_TOKEN_ID
                ↔ seq_len (text_sequence [3]%Z ∅) ≤ j).
Proof.
  eexists. split; [vm_compute; reflexivity|].
  eapply (Collator_call_padding_values
            plain_collator two_texts _ 1);
    [vm_compute; reflexivity|reflexivity].
Defined.

(** [Collator_call_padding] at the padded row of a batch of two. *)
Lemma Collator_call_padding_witness :
  ∃ collated,
    Collator_call plain_collator two_texts = Some collated
    ∧ cb_token_ids collated !! 1
      = Some (token_ids (text_sequence [3]%Z ∅)
              ++ replicate (2 - 1) PADDING_TOKEN_ID)
    ∧ attention_mask collated !! 1
      = Some (replicate 1 float_one ++ replicate (2 - 1) float_zero).
Proof.
  eexists. split; [vm_compute; reflexivity|].
  eapply (Collator_call_padding
            plain_collator two_texts _ 1);
    [vm_compute; reflexivity|reflexivity].
Defined.

(** [Collator_call_gen_labels] at a prompt of two tokens out of three, under
    a generative task. *)
Lemma Collator_call_gen_labels_witness :
  ∃ collated,
    Collator_call gen_collator two_prompts = Some collated
    ∧ ∃ labels label_row id_row,
        gen_labels collated = Some labels
        ∧ labels !! 0 = Some label_row
        ∧ cb_token_ids collated !! 0 = Some id_row
        ∧ length label_row = length id_row
        ∧ (∀ j, j < 2 → j < length label_row →
                label_row !! j = Some PADDING_TOKEN_ID)
        ∧ (∀ j, 2 ≤ j < 3 → label_row !! j = id_row !! j).
Proof.
  eexists. split; [vm_compute; reflexivity|].
  eapply (Collator_call_gen_labels gen_collator two_prompts _ false 0
            (text_sequence [1; 2; 3]%Z {[ "prompt_length" := 2%Z ]}) 2);
    [vm_compute; reflexivity|reflexivity|reflexivity|reflexivity
    |vm_compute; reflexivity].
Defined.

(** [tokenize_sequence_missing_formulas] at a text with one placeholder and an
    empty formula map: the chunks are the text before and after the
    placeholder, the count is 1 and all tokens are text tokens. *)
Lemma tokenize_sequence_missing_formulas_witness :
  FORMULA_IDENTIFIER ≠ ""
  ∧ placeholder_chunks FORMULA_IDENTIFIER "Area is [F] for a circle."
      ["Area is "; " for a circle."]
  ∧ ∃ sequence,
      tokenize_sequence "a" "Area is [F] for a circle." ∅ plain_options
        = Some (sequence, 1)
      ∧ token_types sequence
        = chunk_types ∅ plain_options 0 ["Area is "; " for a circle."]
      ∧ Forall (λ t, t = TEXT) (token_types sequence).
Proof.
  assert (Hsep : FORMULA_IDENTIFIER ≠ "") by discriminate.
  destruct (tokenize_sequence_missing_formulas
              "a" "Area is [F] for a circle." ∅ plain_options Hsep)
    as (text_chunks & sequence & num_missing & Hsplit & Hplace & _ & _
        & Htok & _ & Htypes & _ & Hone).
  vm_compute in Hsplit. injection Hsplit as <-.
  split; [exact Hsep|]. split; [exact Hplace|].
  destruct (Hone eq_refl) as [-> Htext]; [by eexists _, _|].
  exists sequence. split; [exact Htok|]. split; [exact Htypes|exact Htext].
Defined.

(** The scenario of the specification: one placeholder and an empty formula
    map give a count of 1 and text tokens only. *)
Example tokenize_sequence_empty_map :
  (λ r, (token_types r.1, r.2))
    <$> tokenize_sequence "a" "ab[F]c" ∅ plain_options
  = Some ([TEXT; TEXT; TEXT], 1).
Proof. reflexivity. Qed.

(** A formula that is present is framed by START_FORMULA and END_FORMULA. *)
Example tokenize_sequence_structured :
  (λ r, (token_types r.1, r.2))
    <$> tokenize_sequence "a" "ab[F]c[F]"
          {[ "1" := mkFormula "x" [7; 8]%Z ]} plain_options
  = Some ([TEXT; TEXT; TEXT; START_FORMULA; VAR; VAR; END_FORMULA], 1).
Proof. reflexivity. Qed.

(** [ProblemSolvingDataset_keeps_overflow] at a sample that overflows. *)
Lemma ProblemSolvingDataset_keeps_overflow_witness :
  ∃ self,
    ProblemSolvingDataset_init [long_solving_sample] plain_options = Some self
    ∧ Forall2 (stored_solving_sample plain_options) [long_solving_sample]
        (data self)
    ∧ trimmed_sequences self
      = length (filter (overflows plain_options) (data self)).
Proof.
  eexists. split; [vm_compute; reflexivity|].
  apply (ProblemSolvingDataset_keeps_overflow
           [long_solving_sample] plain_options).
  vm_compute; reflexivity.
Defined.

(** The sample of 57 tokens is stored whole under a maximum of 8, and counted
    once. *)
Example ProblemSolvingDataset_overflow_counted :
  (λ self, (seq_len <$> data self, trimmed_sequences self))
    <$> ProblemSolvingDataset_init [long_solving_sample] plain_options
  = Some ([57], 1).
Proof. by vm_compute. Qed.

(** [AnswerScoringDataset_getitem_excludes_sample] at the first answer of the
    three, with the sampler and the shuffler of [toy_imports]. *)
Lemma AnswerScoringDataset_getitem_excludes_sample_witness :
  (∀ rng population k, (random_sample rng population k).1 ⊆ population)
  ∧ (∀ rng l, (random_shuffle rng l).1 ≡ₚ l)
  ∧ ∃ sequence rng',
      AnswerScoringDataset_getitem scoring_dataset () 0 = Some (sequence, rng')
      ∧ ∃ sample problem_id problem_sequence label examples example_sequences,
          Py.getitem (as_data scoring_dataset) 0 = Some sample
          ∧ meta sample !! "problem_id" = Some problem_id
          ∧ problems scoring_dataset !! problem_id = Some problem_sequence
          ∧ meta sample !! "label" = Some label
          ∧ Forall2 (worked_example scoring_dataset) examples example_sequences
          ∧ Forall (λ example,
                      other_log sample example
                      ∧ in_example_bank scoring_dataset problem_id example)
              examples
          ∧ sequence
            = set_meta
                (foldl seq_add
                   (qs_prefix_seq scoring_dataset +ₛ problem_sequence
                    +ₛ scores_seq scoring_dataset)
                   example_sequences
                 +ₛ (answer_prefix_seq scoring_dataset +ₛ sample
                     +ₛ cls_seq scoring_dataset))
                {[ "label" := label ]}.
Proof.
  assert (Hsample : ∀ (rng : Rng) (population : list Sequence) (k : nat),
            (random_sample rng population k).1 ⊆ population)
    by (intros rng population k; apply subseteq_take).
  assert (Hshuffle : ∀ (rng : Rng) (l : list Sequence),
            (random_shuffle rng l).1 ≡ₚ l)
    by (intros rng l; apply reverse_Permutation).
  split; [exact Hsample|]. split; [exact Hshuffle|].
  eexists _, _. split; [vm_compute; reflexivity|].
  eapply (AnswerScoringDataset_getitem_excludes_sample Hsample Hshuffle
            scoring_dataset () 0).
  vm_compute; reflexivity.
Defined.

(** The answer with id 50 is scored against the examples 51 and 52 of the other
    two problem logs; it is not among its own examples. *)
Example AnswerScoringDataset_getitem_first :
  (λ r, token_ids r.1) <$> AnswerScoringDataset_getitem scoring_dataset () 0
  = Some [1; 10; 11; 2; 3; 51; 21; 3; 52; 20; 4; 50; 5]%Z.
Proof. by vm_compute. Qed.

(** ** Further properties at concrete inputs *)

(** The formula tokenizer of [toy_imports] gives variable tokens only, with
    channels in lock-step. *)
Lemma toy_formula_lock_step (options : TrainOptions) (symbols : list Z) :
  formula_lock_step options (tokenize_formula symbols options).
Proof.
  unfold formula_lock_step, seq_len. simpl. rewrite !length_replicate. done.
Qed.

Lemma toy_formula_positions (options : TrainOptions) (symbols : list Z) :
  structural_positions_empty (tokenize_formula symbols options).
Proof.
  unfold structural_positions_empty. simpl.
  induction (length symbols) as [|n IH]; simpl; [constructor|].
  constructor; [|exact IH]. intros Hs. discriminate Hs.
Qed.

(** [split_sequence_text_only] at five text tokens and a maximum of 2. *)
Lemma split_sequence_text_only_witness :
  ∃ out,
    split_sequence (text_sequence [1; 2; 3; 4; 5]%Z ∅) 2 = Done out
    ∧ join_channels out = channels (text_sequence [1; 2; 3; 4; 5]%Z ∅)
    ∧ Forall (λ piece, seq_len piece ≤ 2) out
    ∧ ∀ i piece, out !! i = Some piece → S i < length out →
        seq_len piece = 2.
Proof.
  apply (split_sequence_text_only (text_sequence [1; 2; 3; 4; 5]%Z ∅) 2);
    [lia|reflexivity|repeat constructor].
Defined.

(** [split_sequence_pieces_nonempty] at a sequence that is cut twice. *)
Lemma split_sequence_pieces_nonempty_witness :
  ∃ out,
    split_sequence text_and_formula 4 = Done out
    ∧ Forall (λ piece, 0 < seq_len piece) out.
Proof.
  eexists. split; [vm_compute; reflexivity|].
  apply (split_sequence_pieces_nonempty text_and_formula 4);
    [lia|unfold seq_len; simpl; lia|vm_compute; reflexivity].
Defined.

(** [split_sequence_zero_never_returns] at two text tokens and a depth of
    1000. *)
Lemma split_sequence_zero_never_returns_witness :
  split_sequence_fuel 1000 (text_sequence [1; 2]%Z ∅) 0 = OutOfFuel.
Proof.
  apply (split_sequence_zero_never_returns (text_sequence [1; 2]%Z ∅) 1);
    reflexivity.
Defined.

(** [tokenize_sequence_well_formed] at a text with one formula. *)
Lemma tokenize_sequence_well_formed_witness :
  ∃ sequence num_missing,
    tokenize_sequence "a" "x [F] y" one_formula plain_options
      = Some (sequence, num_missing)
    ∧ well_formed sequence
    ∧ name sequence = "a"
    ∧ meta sequence = ∅
    ∧ length (gpt_tokens sequence) = 0.
Proof.
  eexists _, _. split; [vm_compute; reflexivity|].
  apply (tokenize_sequence_well_formed "a" "x [F] y" one_formula plain_options
           _ 0);
    [intros key formula _; apply toy_formula_lock_step|vm_compute; reflexivity].
Defined.

(** [tokenize_sequence_baseline_text] at a text with one formula. *)
Lemma tokenize_sequence_baseline_text_witness :
  ∃ sequence num_missing,
    tokenize_sequence "a" "x [F] y" one_formula baseline_options
      = Some (sequence, num_missing)
    ∧ Forall (λ t, t = TEXT) (token_types sequence)
    ∧ Forall (λ pos_vec, pos_vec = EMPTY_POS_VECTOR) (pos_vecs sequence)
    ∧ Forall (λ pos_level, pos_level = 0%Z) (pos_levels sequence).
Proof.
  eexists _, _. split; [vm_compute; reflexivity|].
  apply (tokenize_sequence_baseline_text "a" "x [F] y" one_formula
           baseline_options _ 0);
    [reflexivity|vm_compute; reflexivity].
Defined.

(** [tokenize_sequence_markers] at a text with two placeholders, the formula
    of the second one missing. *)
Lemma tokenize_sequence_markers_witness :
  ∃ sequence num_missing,
    tokenize_sequence "a" "x [F] y [F]" one_formula plain_options
      = Some (sequence, num_missing)
    ∧ ∃ text_chunks,
        Py.split "x [F] y [F]" FORMULA_IDENTIFIER = Some text_chunks
        ∧ count_type START_FORMULA (token_types sequence) + num_missing
          = length text_chunks - 1
        ∧ count_type END_FORMULA (token_types sequence) + num_missing
          = length text_chunks - 1.
Proof.
  eexists _, _. split; [vm_compute; reflexivity|].
  apply (tokenize_sequence_markers "a" "x [F] y [F]" one_formula plain_options
           _ 1);
    [reflexivity
    |intros key formula _; split; apply count_type_replicate; discriminate
    |vm_compute; reflexivity].
Defined.

(** [tokenize_sequence_structural_positions] at a text with one formula. *)
Lemma tokenize_sequence_structural_positions_witness :
  ∃ sequence num_missing,
    tokenize_sequence "a" "x [F] y" one_formula plain_options
      = Some (sequence, num_missing)
    ∧ structural_positions_empty sequence.
Proof.
  eexists _, _. split; [vm_compute; reflexivity|].
  apply (tokenize_sequence_structural_positions "a" "x [F] y" one_formula
           plain_options _ 0);
    [intros key formula _; split;
       [apply toy_formula_lock_step|apply toy_formula_positions]
    |vm_compute; reflexivity].
Defined.

(** [Collator_call_collatable] at a batch of a sequence of two tokens and a
    sequence of one. *)
Lemma Collator_call_collatable_witness : collatable plain_collator two_texts.
Proof.
  eapply (Collator_call_collatable plain_collator two_texts).
  vm_compute; reflexivity.
Defined.

(** Under a generative task, sequences without a prompt length are not
    collatable: the call raises. *)
Remark Collator_call_missing_prompt_length :
  ¬ collatable gen_collator two_texts
  ∧ Collator_call gen_collator two_texts = None.
Proof.
  split; [|vm_compute; reflexivity].
  intros (_ & _ & Hkeys). specialize (Hkeys false eq_refl).
  apply Forall_cons_1 in Hkeys as [[p Hp] _]. vm_compute in Hp. discriminate.
Qed.

(** [Collator_call_shape] at a batch of a sequence of two tokens and a
    sequence of one. *)
Lemma Collator_call_shape_witness :
  ∃ collated,
    Collator_call plain_collator two_texts = Some collated
    ∧ sources collated = name <$> two_texts
    ∧ sequence_lengths collated = (λ s, Z.of_nat (seq_len s)) <$> two_texts
    ∧ length (cb_token_ids collated) = length two_texts
    ∧ Forall (λ row, length row = 2) (cb_token_ids collated)
    ∧ Forall (λ row, length row = 2) (attention_mask collated)
    ∧ (Forall well_formed two_texts →
       Forall (λ row, length row = 2) (cb_token_types collated)
       ∧ Forall (λ row, length row = 2) (cb_pos_vecs collated)
       ∧ Forall (λ row, length row = 2) (cb_pos_levels collated)).
Proof.
  eexists. split; [vm_compute; reflexivity|].
  apply (Collator_call_shape plain_collator two_texts).
  vm_compute; reflexivity.
Defined.

(** [Collator_call_labels] at two prompts under a generative task. *)
Lemma Collator_call_labels_witness :
  ∃ collated,
    Collator_call gen_collator two_prompts = Some collated
    ∧ cls_labels collated = None
    ∧ ∃ prompts,
        prompt_lengths collated = Some prompts
        ∧ Forall2 (λ s prompt, meta s !! "prompt_length" = Some prompt)
            two_prompts prompts.
Proof.
  eexists. split; [vm_compute; reflexivity|].
  apply (Collator_call_labels gen_collator two_prompts).
  vm_compute; reflexivity.
Defined.

(** [Collator_call_loss_positions] at a prompt of two tokens out of three. *)
Lemma Collator_call_loss_positions_witness :
  ∃ collated,
    Collator_call gen_collator two_prompts = Some collated
    ∧ ∃ labels label_row,
        gen_labels collated = Some labels
        ∧ labels !! 0 = Some label_row
        ∧ ∀ j, j < length label_row →
            label_row !! j ≠ Some PADDING_TOKEN_ID ↔ 2 ≤ j < 3.
Proof.
  eexists. split; [vm_compute; reflexivity|].
  apply (Collator_call_loss_positions gen_collator two_prompts _ false 0
           (text_sequence [1; 2; 3]%Z {[ "prompt_length" := 2%Z ]}) 2);
    [vm_compute; reflexivity|reflexivity|reflexivity|reflexivity
    |vm_compute; reflexivity|].
  intros Hin. apply list_elem_of_In in Hin. simpl in Hin.
  intuition discriminate.
Defined.

(** [Collator_call_trim_full] at a batch whose longest sequence has two
    tokens, and a width of 5. *)
Lemma Collator_call_trim_full_witness :
  ∃ collated,
    Collator_call plain_collator two_texts = Some collated
    ∧ trim_batch collated 0 5 = collated.
Proof.
  eexists. split; [vm_compute; reflexivity|].
  apply (Collator_call_trim_full plain_collator two_texts _ 5);
    [vm_compute; reflexivity
    |repeat constructor; left; reflexivity
    |vm_compute; lia].
Defined.

(** [trim_batch_partition] at a row of five tokens, split at 2 and cut at
    4. *)
Lemma trim_batch_partition_witness :
  cat_rows (cb_token_ids (trim_batch one_row_batch 0 2))
           (cb_token_ids (trim_batch one_row_batch 2 4))
    = cb_token_ids (trim_batch one_row_batch 0 4)
  ∧ cat_rows (cb_token_types (trim_batch one_row_batch 0 2))
             (cb_token_types (trim_batch one_row_batch 2 4))
    = cb_token_types (trim_batch one_row_batch 0 4)
  ∧ cat_rows (attention_mask (trim_batch one_row_batch 0 2))
             (attention_mask (trim_batch one_row_batch 2 4))
    = attention_mask (trim_batch one_row_batch 0 4)
  ∧ ∀ i len, sequence_lengths one_row_batch !! i = Some len → (0 ≤ len)%Z →
      ∃ len1 len2,
        sequence_lengths (trim_batch one_row_batch 0 2) !! i = Some len1
        ∧ sequence_lengths (trim_batch one_row_batch 2 4) !! i = Some len2
        ∧ sequence_lengths (trim_batch one_row_batch 0 4) !! i
          = Some (len1 + len2)%Z.
Proof. apply (trim_batch_partition one_row_batch 2 4). lia. Defined.

(** [trim_batch_compose] at a row of five tokens. *)
Lemma trim_batch_compose_witness :
  trim_batch (trim_batch one_row_batch 1 5) 1 3
  = trim_batch one_row_batch (1 + 1) (1 + 3).
Proof. apply (trim_batch_compose one_row_batch 1 5 1 3); lia. Defined.

(** [trim_batch_keeps_mask] at a row of five tokens without padding. *)
Lemma trim_batch_keeps_mask_witness :
  ∃ l' k',
    attention_mask (trim_batch one_row_batch 1 3) !! 0
      = Some (replicate l' float_one ++ replicate k' float_zero)
    ∧ sequence_lengths (trim_batch one_row_batch 1 3) !! 0
      = Some (Z.of_nat l')
    ∧ l' + k' = (Z.to_nat 3 `min` (5 + 0)) - Z.to_nat 1.
Proof.
  apply (trim_batch_keeps_mask one_row_batch 1 3 0 5 0);
    [lia|reflexivity|reflexivity].
Defined.

(** [evaluate_lm_windows_weights] at a row of five tokens and a stride of
    2. *)
Lemma evaluate_lm_windows_weights_witness :
  ∃ windows,
    evaluate_lm_windows plain_options (Some 2%Z) one_row_batch = Some windows
    ∧ foldr Z.add 0%Z (target_len <$> windows)
      = Z.of_nat (tensor_width (cb_token_ids one_row_batch))
    ∧ Forall (λ w, 1 ≤ target_len w
                   ≤ effective_stride plain_options (Some 2%Z))%Z
        windows.
Proof.
  apply (evaluate_lm_windows_weights plain_options (Some 2%Z) one_row_batch).
  vm_compute. discriminate.
Defined.

(** [evaluate_lm_windows_cover] at a row of five tokens, a stride of 2 and a
    maximum length of 8. *)
Lemma evaluate_lm_windows_cover_witness :
  ∃ windows pieces,
    evaluate_lm_windows plain_options (Some 2%Z) one_row_batch = Some windows
    ∧ Forall2 (λ w '(context, targets),
                 cb_token_ids (sub_seq_batch w) !! 0
                   = Some (context ++ targets)
                 ∧ labels w !! 0
                   = Some (replicate (length context) PADDING_TOKEN_ID
                             ++ targets)
                 ∧ Z.of_nat (length targets) = target_len w
                 ∧ (Z.of_nat (length (context ++ targets))
                    ≤ max_seq_len plain_options)%Z)
        windows pieces
    ∧ mjoin (snd <$> pieces) = [1; 2; 3; 4; 5]%Z.
Proof.
  apply (evaluate_lm_windows_cover plain_options (Some 2%Z) one_row_batch 0
           [1; 2; 3; 4; 5]%Z);
    [split; vm_compute; discriminate|reflexivity|reflexivity].
Defined.

(** [evaluate_lm_window_stride_beyond_limit] at a row of five tokens, a
    stride of 3 and a maximum length of 2: the first token is in no window. *)
Lemma evaluate_lm_window_stride_beyond_limit_witness :
  ∃ sub_row,
    cb_token_ids
      (sub_seq_batch (evaluate_lm_window short_options 3 5 one_row_batch 0))
      !! 0 = Some sub_row
    ∧ labels (evaluate_lm_window short_options 3 5 one_row_batch 0) !! 0
      = Some sub_row
    ∧ Z.of_nat (length sub_row) = max_seq_len short_options
    ∧ target_len (evaluate_lm_window short_options 3 5 one_row_batch 0) = 3%Z
    ∧ sub_row
      = take (Z.to_nat (max_seq_len short_options))
          (drop (Z.to_nat (0 + 3 - max_seq_len short_options))
             [1; 2; 3; 4; 5]%Z).
Proof.
  apply (evaluate_lm_window_stride_beyond_limit short_options 3 5 0
           one_row_batch 0 [1; 2; 3; 4; 5]%Z);
    [simpl; lia|lia|lia|reflexivity|reflexivity].
Defined.

(** [AnswerScoringDataset_getitem_length] at the first answer of
    [scoring_dataset]. *)
Lemma AnswerScoringDataset_getitem_length_witness :
  ∃ sequence rng',
    AnswerScoringDataset_getitem scoring_dataset () 0 = Some (sequence, rng')
    ∧ ∃ sample problem_id problem_sequence label,
        Py.getitem (as_data scoring_dataset) 0 = Some sample
        ∧ meta sample !! "problem_id" = Some problem_id
        ∧ problems scoring_dataset !! problem_id = Some problem_sequence
        ∧ meta sample !! "label" = Some label
        ∧ meta sequence = {[ "label" := label ]}
        ∧ let base_len :=
            seq_len (qs_prefix_seq scoring_dataset) + seq_len problem_sequence
            + seq_len (scores_seq scoring_dataset)
            + seq_len (answer_prefix_seq scoring_dataset)
            + seq_len sample + seq_len (cls_seq scoring_dataset) in
          base_len ≤ seq_len sequence
          ∧ (Z.of_nat (seq_len sequence)
             ≤ Z.of_nat base_len
               `max` max_seq_len (as_options scoring_dataset))%Z.
Proof.
  eexists _, _. split; [vm_compute; reflexivity|].
  eapply (AnswerScoringDataset_getitem_length (imports := toy_imports)
            scoring_dataset () 0).
  vm_compute; reflexivity.
Defined.

(** [AnswerScoringDataset_example_bank_groups] at the answers of
    [scoring_dataset], without a list of examples. *)
Lemma AnswerScoringDataset_example_bank_groups_witness :
  ∃ example_bank,
    AnswerScoringDataset_example_bank plain_options None
      (as_data scoring_dataset) = Some example_bank
    ∧ ∃ pool,
        examples_or_data None (as_data scoring_dataset) pool
        ∧ groups (num_classes plain_options) pool example_bank.
Proof.
  eexists. split; [vm_compute; reflexivity|].
  apply (AnswerScoringDataset_example_bank_groups plain_options None
           (as_data scoring_dataset)).
  vm_compute; reflexivity.
Defined.

(** [PreTrainDatasetPreloaded_init_bounded] at two articles and a maximum
    length of 2. *)
Lemma PreTrainDatasetPreloaded_init_bounded_witness :
  ∃ self tokenized pieces,
    PreTrainDatasetPreloaded_init two_articles plain_options (Some 2)
      = Built self
    ∧ Forall2 (λ article r,
                 tokenize_sequence "" (text article) (formulas article)
                   plain_options = Some r) two_articles tokenized
    ∧ Forall2 (λ r split_sequences,
                 split_sequence r.1 2 = Done split_sequences)
        tokenized pieces
    ∧ data self = mjoin pieces
    ∧ Forall (λ sequence, seq_len sequence ≤ 2) (data self)
    ∧ num_missing_formulas self = sum_list (snd <$> tokenized).
Proof.
  apply (PreTrainDatasetPreloaded_init_bounded two_articles plain_options 2);
    [discriminate|lia|].
  apply Forall_cons_2; [intros key formula _; apply toy_formula_lock_step|].
  apply Forall_cons_2; [intros key formula _; apply toy_formula_lock_step|].
  apply Forall_nil_2.
Defined.

(** [PreTrainDatasetPreloaded_init_unsplit] at two articles and no maximum
    length. *)
Lemma PreTrainDatasetPreloaded_init_unsplit_witness :
  ∃ tokenized,
    Forall2 (λ article r,
               tokenize_sequence "" (text article) (formulas article)
                 plain_options = Some r) two_articles tokenized
    ∧ PreTrainDatasetPreloaded_init two_articles plain_options None
      = Built (mkDataset (fst <$> tokenized) (sum_list (snd <$> tokenized)) 0).
Proof.
  apply (PreTrainDatasetPreloaded_init_unsplit two_articles plain_options None);
    [discriminate|left; reflexivity].
Defined.

(** [PreTrainDataset_init_built] at one article file and a maximum length of
    4. *)
Lemma PreTrainDataset_init_built_witness :
  ∃ self,
    PreTrainDataset_init one_file ["a.json"] plain_options (Some 4)
      = Built self
    ∧ ∃ stored,
        data self = mjoin stored
        ∧ Forall2 (λ article_name split_sequences,
                     ∃ article sequence num_missing,
                       one_file !! article_name = Some article
                       ∧ tokenize_sequence article_name
                           (text article +:+ EOS_TOKEN) (formulas article)
                           plain_options
                         = Some (sequence, num_missing)
                       ∧ split_sequence sequence 4 = Done split_sequences)
            ["a.json"] stored.
Proof.
  eexists. split; [vm_compute; reflexivity|].
  apply (PreTrainDataset_init_built one_file ["a.json"] plain_options
           (Some 4)).
  vm_compute; reflexivity.
Defined.

